(** * YaCoAP: the CoAP message codec and request dispatcher of [coap.c]

    A shallow embedding of [src/coap.c].  C integers are values of [Z]
    with every conversion to a narrower unsigned type written out as a
    reduction modulo a power of two.  Memory is a list of bytes, a byte
    pointer is an address ([Z]) into it, [NULL] is [None].  A function
    that dereferences an address outside the memory yields [None] (a
    memory fault); otherwise it returns its status code together with
    the objects it has written through its pointer arguments. *)

From Stdlib Require Import ZArith List Bool Lia.
From Stdlib Require Import Strings.Byte.
Import ListNotations.
Local Open Scope Z_scope.

(** ** Machine integers and bytes *)

Definition uint8 (z : Z) : Z := z mod 2 ^ 8.
Definition uint16 (z : Z) : Z := z mod 2 ^ 16.
Definition uint32 (z : Z) : Z := z mod 2 ^ 32.

(** The unsigned value of a byte. *)
Definition u8 (b : byte) : Z := Z.of_N (Byte.to_N b).

(** Storing an integer into a [uint8_t] cell keeps its low eight bits. *)
Definition byte_of_Z (z : Z) : byte :=
  match Byte.of_N (Z.to_N (uint8 z)) with
  | Some b => b
  | None => x00
  end.

(** ** Memory *)

Definition memory := list byte.

Definition load (mem : memory) (a : Z) : option byte :=
  if a <? 0 then None else nth_error mem (Z.to_nat a).

Definition load_u8 (mem : memory) (a : Z) : option Z :=
  option_map u8 (load mem a).

(** [load_bytes mem a n]: the [n] bytes at addresses [a .. a+n-1]. *)
Definition load_bytes (mem : memory) (a n : Z) : option (list byte) :=
  if (a <? 0) || (n <? 0) || (Z.of_nat (length mem) <? a + n) then None
  else Some (firstn (Z.to_nat n) (skipn (Z.to_nat a) mem)).

(** [store_bytes mem a bs]: write [bs] at addresses [a ..]. *)
Definition store_bytes (mem : memory) (a : Z) (bs : list byte) : option memory :=
  if (a <? 0) || (Z.of_nat (length mem) <? a + Z.of_nat (length bs)) then None
  else Some (firstn (Z.to_nat a) mem ++ bs
               ++ skipn (Z.to_nat a + length bs) mem).

Definition store (mem : memory) (a : Z) (b : byte) : option memory :=
  store_bytes mem a [b].

Notation "'do' x <- e ; k" :=
  (match e with Some x => k | None => None end)
  (at level 10, x name, e at level 100, k at level 200).

(** ** Data model

    [coap.h] is not part of the sources; its structures are given the
    fields [coap.c] uses. *)

(** Modelled from the spec: [coap_header_t] of the absent [coap.h], the
    header of section 3 (version, type, token length, code, message id). *)
Record coap_header_t : Type := mk_header {
  ver : Z;
  t : Z;
  tkl : Z;
  code : Z;
  id : Z
}.

(** Modelled from the spec: [coap_buffer_t] of the absent [coap.h], the
    borrowed byte view [{p, len}] of section 3. *)
Record coap_buffer_t : Type := mk_buffer {
  p : option Z;
  len : Z
}.

(** Modelled from the spec: [coap_option_t] of the absent [coap.h], an
    option number and a value view. *)
Record coap_option_t : Type := mk_option {
  num : Z;
  buf : coap_buffer_t
}.

(** Modelled from the spec: [coap_packet_t] of the absent [coap.h].  The
    fixed array [opts[MAXOPT]] is a total map from indices to options;
    the code only ever indexes it below [MAXOPT] (parser) or below
    [numopts] (builder, lookup). *)
Record coap_packet_t : Type := mk_packet {
  hdr : coap_header_t;
  tok : coap_buffer_t;
  numopts : Z;
  opts : Z -> coap_option_t;
  payload : coap_buffer_t
}.

Definition set_hdr (pkt : coap_packet_t) (h : coap_header_t) : coap_packet_t :=
  mk_packet h (tok pkt) (numopts pkt) (opts pkt) (payload pkt).
Definition set_tok (pkt : coap_packet_t) (b : coap_buffer_t) : coap_packet_t :=
  mk_packet (hdr pkt) b (numopts pkt) (opts pkt) (payload pkt).
Definition set_numopts (pkt : coap_packet_t) (n : Z) : coap_packet_t :=
  mk_packet (hdr pkt) (tok pkt) n (opts pkt) (payload pkt).
Definition set_opt (pkt : coap_packet_t) (i : Z) (o : coap_option_t) : coap_packet_t :=
  mk_packet (hdr pkt) (tok pkt) (numopts pkt)
            (fun j => if j =? i then o else opts pkt j) (payload pkt).
Definition set_payload (pkt : coap_packet_t) (b : coap_buffer_t) : coap_packet_t :=
  mk_packet (hdr pkt) (tok pkt) (numopts pkt) (opts pkt) b.

(** Modelled from the spec: the status enumeration of the absent [coap.h],
    one constructor per error kind of section 7.  [if (rc)] in the code is
    the test [rc <> COAP_SUCCESS]. *)
Inductive coap_error_t : Type :=
| COAP_SUCCESS
| COAP_ERR_HEADER_TOO_SHORT
| COAP_ERR_VERSION_NOT_1
| COAP_ERR_TOKEN_TOO_SHORT
| COAP_ERR_OPTION_TOO_SHORT_FOR_HEADER
| COAP_ERR_OPTION_DELTA_INVALID
| COAP_ERR_OPTION_LEN_INVALID
| COAP_ERR_OPTION_TOO_BIG
| COAP_ERR_OPTION_OVERRUNS_PACKET
| COAP_ERR_BUFFER_TOO_SMALL
| COAP_ERR_UNSUPPORTED.

Definition is_success (rc : coap_error_t) : bool :=
  match rc with COAP_SUCCESS => true | _ => false end.

(** ** The raw header union

    [coap_raw_header_t] overlays the first four bytes of the datagram
    with the bit-fields [tkl:4], [t:2], [ver:2], the byte [code] and the
    [uint16_t id].  Where the bit-fields sit in byte 0 and how the two id
    bytes combine is fixed by the target ABI; the two layouts compilers
    use are modelled.  On a little-endian target bit-fields are
    allocated from the least significant bit and [id] is read low byte
    first; on a big-endian target both are reversed. *)
Inductive abi_t : Type := LittleEndian | BigEndian.

Definition sizeof_coap_raw_header_t : Z := 4.

Definition raw_tkl (abi : abi_t) (b0 : Z) : Z :=
  match abi with LittleEndian => b0 mod 16 | BigEndian => b0 / 16 end.
Definition raw_t (abi : abi_t) (b0 : Z) : Z :=
  match abi with LittleEndian => (b0 / 16) mod 4 | BigEndian => (b0 / 4) mod 4 end.
Definition raw_ver (abi : abi_t) (b0 : Z) : Z :=
  match abi with LittleEndian => b0 / 64 | BigEndian => b0 mod 4 end.
Definition raw_id (abi : abi_t) (b2 b3 : Z) : Z :=
  match abi with LittleEndian => b2 + 256 * b3 | BigEndian => 256 * b2 + b3 end.

(** Byte 0 of the union after the three bit-field stores of [coap_build]
    (each store keeps the low bits that fit the field). *)
Definition raw_byte0 (abi : abi_t) (v ty tl : Z) : Z :=
  match abi with
  | LittleEndian => tl mod 16 + 16 * (ty mod 4) + 64 * (v mod 4)
  | BigEndian => 16 * (tl mod 16) + 4 * (ty mod 4) + v mod 4
  end.
Definition raw_id_bytes (abi : abi_t) (i : Z) : Z * Z :=
  match abi with
  | LittleEndian => (uint16 i mod 256, uint16 i / 256)
  | BigEndian => (uint16 i / 256, uint16 i mod 256)
  end.

Section Codec.

(** [MAXOPT], the capacity of [opts], comes from the absent [coap.h]
    (the spec quotes 16 as an example). *)
Variable MAXOPT : nat.

(** The unsigned type of the field [num] of [coap_option_t] is declared
    in the absent [coap.h]; [OPTNUM_MOD] is its modulus (2^8, 2^16 or
    2^32), and a store into [num] reduces modulo it. *)
Variable OPTNUM_MOD : Z.

Variable abi : abi_t.

Definition optnum (z : Z) : Z := z mod OPTNUM_MOD.

(** *** Parser *)

Definition _parse_header (mem : memory) (hdr0 : coap_header_t) (buf_ buflen : Z)
  : option (coap_error_t * coap_header_t) :=
  if buflen <? sizeof_coap_raw_header_t then Some (COAP_ERR_HEADER_TOO_SHORT, hdr0)
  else
    do b0 <- load_u8 mem buf_;
    do b1 <- load_u8 mem (buf_ + 1);
    do b2 <- load_u8 mem (buf_ + 2);
    do b3 <- load_u8 mem (buf_ + 3);
    let hdr1 := {| ver := raw_ver abi b0; t := raw_t abi b0; tkl := raw_tkl abi b0;
                   code := b1; id := raw_id abi b2 b3 |} in
    if negb (ver hdr1 =? 1) then Some (COAP_ERR_VERSION_NOT_1, hdr1)
    else Some (COAP_SUCCESS, hdr1).

Definition _parse_token (pkt : coap_packet_t) (buf_ buflen : Z)
  : coap_error_t * coap_packet_t :=
  let toklen := tkl (hdr pkt) in
  if (sizeof_coap_raw_header_t + toklen >? buflen) || (toklen >? 8)
  then (COAP_ERR_TOKEN_TOO_SHORT, pkt)
  else
    let tok_p := if toklen =? 0 then None else Some (buf_ + sizeof_coap_raw_header_t) in
    (COAP_SUCCESS, set_tok pkt {| p := tok_p; len := toklen |}).

(** [_parse_option].  The outputs are the option written through
    [option], the accumulator [*running_delta] and the cursor [*buf];
    on an error return all three are as they were on entry.  The
    mutable locals [p], [headlen], [delta], [len] appear in single
    assignment form, the code after each [if]/[else if] chain as a
    continuation. *)
Definition _parse_option (mem : memory) (option0 : coap_option_t)
    (running_delta0 : Z) (buf0 : Z) (buflen : Z)
  : option (coap_error_t * coap_option_t * Z * Z) :=
  let ret rc := Some (rc, option0, running_delta0, buf0) in
  let p0 := buf0 in
  let headlen0 := 1 in
  if buflen <? headlen0 then ret COAP_ERR_OPTION_TOO_SHORT_FOR_HEADER
  else
    do b0 <- load_u8 mem p0;
    let delta0 := uint16 (Z.shiftr (Z.land b0 0xF0) 4) in
    let len0 := uint16 (Z.land b0 0x0F) in
    let finish (p2 delta2 len2 : Z) :=
      if p2 + 1 + len2 >? buf0 + buflen then ret COAP_ERR_OPTION_TOO_BIG
      else
        let option1 := {| num := optnum (delta2 + running_delta0);
                          buf := {| p := Some (p2 + 1); len := len2 |} |} in
        Some (COAP_SUCCESS, option1, uint16 (running_delta0 + delta2), p2 + 1 + len2) in
    let length_part (p1 headlen1 delta1 : Z) :=
      if len0 =? 13 then
        let headlen2 := uint8 (headlen1 + 1) in
        if buflen <? headlen2 then ret COAP_ERR_OPTION_TOO_SHORT_FOR_HEADER
        else
          do e <- load_u8 mem (p1 + 1);
          finish (p1 + 1) delta1 (uint16 (e + 13))
      else if len0 =? 14 then
        let headlen2 := uint8 (headlen1 + 2) in
        if buflen <? headlen2 then ret COAP_ERR_OPTION_TOO_SHORT_FOR_HEADER
        else
          do e1 <- load_u8 mem (p1 + 1);
          do e2 <- load_u8 mem (p1 + 2);
          finish (p1 + 2) delta1 (uint16 (Z.lor (Z.shiftl e1 8) e2 + 269))
      else if len0 =? 15 then ret COAP_ERR_OPTION_LEN_INVALID
      else finish p1 delta1 len0 in
    if delta0 =? 13 then
      let headlen1 := uint8 (headlen0 + 1) in
      if buflen <? headlen1 then ret COAP_ERR_OPTION_TOO_SHORT_FOR_HEADER
      else
        do e <- load_u8 mem (p0 + 1);
        length_part (p0 + 1) headlen1 (uint16 (e + 13))
    else if delta0 =? 14 then
      let headlen1 := uint8 (headlen0 + 2) in
      if buflen <? headlen1 then ret COAP_ERR_OPTION_TOO_SHORT_FOR_HEADER
      else
        do e1 <- load_u8 mem (p0 + 1);
        do e2 <- load_u8 mem (p0 + 2);
        length_part (p0 + 2) headlen1 (uint16 (Z.lor (Z.shiftl e1 8) e2 + 269))
    else if delta0 =? 15 then ret COAP_ERR_OPTION_DELTA_INVALID
    else length_part p0 headlen0 delta0.

(** The [while] loop of [_parse_options_payload].  [slots] counts the
    free entries of [opts], [MAXOPT - optionIndex]: the test
    [optionIndex < MAXOPT] fails exactly when it is zero.  The result
    carries the packet, [optionIndex], and the cursor [p]. *)
Fixpoint _parse_options_loop (slots : nat) (mem : memory) (end_ : Z)
    (pkt : coap_packet_t) (optionIndex delta pc : Z)
  : option (coap_error_t * coap_packet_t * Z * Z) :=
  match slots with
  | O => Some (COAP_SUCCESS, pkt, optionIndex, pc)
  | S slots' =>
    if pc <? end_ then
      do b <- load_u8 mem pc;
      if negb (b =? 0xFF) then
        do r <- _parse_option mem (opts pkt optionIndex) delta pc (end_ - pc);
        let '(rc, o, delta', pc') := r in
        let pkt' := set_opt pkt optionIndex o in
        if negb (is_success rc) then Some (rc, pkt', optionIndex, pc')
        else _parse_options_loop slots' mem end_ pkt' (optionIndex + 1) delta' pc'
      else Some (COAP_SUCCESS, pkt, optionIndex, pc)
    else Some (COAP_SUCCESS, pkt, optionIndex, pc)
  end.

Definition _parse_options_payload (mem : memory) (pkt : coap_packet_t)
    (buf_ buflen : Z) : option (coap_error_t * coap_packet_t) :=
  let p0 := buf_ + sizeof_coap_raw_header_t + tkl (hdr pkt) in
  let end_ := buf_ + buflen in
  if p0 >? end_ then Some (COAP_ERR_OPTION_OVERRUNS_PACKET, pkt)
  else
    do r <- _parse_options_loop MAXOPT mem end_ pkt 0 0 p0;
    let '(rc, pkt1, optionIndex, p1) := r in
    if negb (is_success rc) then Some (rc, pkt1)
    else
      let pkt2 := set_numopts pkt1 optionIndex in
      do marker <- (if p1 + 1 <? end_
                    then option_map (fun b => b =? 0xFF) (load_u8 mem p1)
                    else Some false);
      if marker
      then Some (COAP_SUCCESS,
                 set_payload pkt2 {| p := Some (p1 + 1); len := end_ - (p1 + 1) |})
      else Some (COAP_SUCCESS, set_payload pkt2 {| p := None; len := 0 |}).

Definition coap_parse (mem : memory) (pkt : coap_packet_t) (buf_ buflen : Z)
  : option (coap_error_t * coap_packet_t) :=
  do r <- _parse_header mem (hdr pkt) buf_ buflen;
  let '(rc, h) := r in
  let pkt1 := set_hdr pkt h in
  if negb (is_success rc) then Some (rc, pkt1)
  else
    let '(rc, pkt2) := _parse_token pkt1 buf_ buflen in
    if negb (is_success rc) then Some (rc, pkt2)
    else
      let pkt3 := set_numopts pkt2 (Z.of_nat MAXOPT) in
      do r <- _parse_options_payload mem pkt3 buf_ buflen;
      let '(rc, pkt4) := r in
      if negb (is_success rc) then Some (rc, pkt4)
      else Some (COAP_SUCCESS, pkt4).

(** *** Builder *)

(** [_option_nibble]: [nibble0] is the value [*nibble] holds on entry;
    the function leaves it untouched when [value] exceeds 0xFFFF+269. *)
Definition _option_nibble (value : Z) (nibble0 : Z) : Z :=
  if value <? 13 then Z.land 0xFF value
  else if value <=? 0xFF + 13 then 13
  else if value <=? 0xFFFF + 269 then 14
  else nibble0.

(** The bytes a view designates; a view of length 0 designates none,
    whatever its pointer. *)
Definition view_bytes (mem : memory) (b : coap_buffer_t) : option (list byte) :=
  if len b <=? 0 then Some []
  else match p b with
       | None => None
       | Some a => load_bytes mem a (len b)
       end.

(** [memcpy] of the C library copies [n] bytes from [s] in the source
    memory to address [d] of the destination.  Its two regions do not
    overlap, so the packet's views are read from [src] and the datagram
    is written to a separate memory. *)
Definition memcpy (src out : memory) (d : Z) (s : option Z) (n : Z) : option memory :=
  do bs <- view_bytes src {| p := s; len := n |};
  store_bytes out d bs.

(** The [for] loop of [coap_build] over [i = numopts - todo .. numopts - 1],
    with the cursor [p] as [pc]. *)
Fixpoint _build_options_loop (todo : nat) (src : memory) (pkt : coap_packet_t)
    (buf_ buflen : Z) (out : memory) (i pc running_delta : Z)
  : option (coap_error_t * memory * Z) :=
  match todo with
  | O => Some (COAP_SUCCESS, out, pc)
  | S todo' =>
    if pc - buf_ >? buflen then Some (COAP_ERR_BUFFER_TOO_SMALL, out, pc)
    else
      let o := opts pkt i in
      let optDelta := uint32 (num o - running_delta) in
      let delta := _option_nibble optDelta 0 in
      let len_ := _option_nibble (uint32 (len (buf o))) 0 in
      do out1 <- store out pc (byte_of_Z (Z.land 0xFF (Z.lor (Z.shiftl delta 4) len_)));
      let pc1 := pc + 1 in
      do r2 <- (if delta =? 13 then
                  do m <- store out1 pc1 (byte_of_Z (optDelta - 13));
                  Some (m, pc1 + 1)
                else if delta =? 14 then
                  do m <- store out1 pc1 (byte_of_Z (Z.shiftr (optDelta - 269) 8));
                  do m' <- store m (pc1 + 1) (byte_of_Z (Z.land 0xFF (optDelta - 269)));
                  Some (m', pc1 + 2)
                else Some (out1, pc1));
      let '(out2, pc2) := r2 in
      do r3 <- (if len_ =? 13 then
                  do m <- store out2 pc2 (byte_of_Z (len (buf o) - 13));
                  Some (m, pc2 + 1)
                else if len_ =? 14 then
                  do m <- store out2 pc2 (byte_of_Z (Z.shiftr (len (buf o)) 8));
                  do m' <- store m (pc2 + 1) (byte_of_Z (Z.land 0xFF (len (buf o) - 269)));
                  Some (m', pc2 + 2)
                else Some (out2, pc2));
      let '(out3, pc3) := r3 in
      do out4 <- memcpy src out3 pc3 (p (buf o)) (len (buf o));
      _build_options_loop todo' src pkt buf_ buflen out4 (i + 1)
                          (pc3 + len (buf o)) (uint16 (num o))
  end.

(** [coap_build src out buf_ buflen pkt]: [out] is the memory the
    datagram is written to, [buf_] the address of its first byte and
    [buflen] the capacity the caller passes in [*buflen].  The result
    carries the written memory and the final [*buflen]. *)
Definition coap_build (src out : memory) (buf_ buflen : Z) (pkt : coap_packet_t)
  : option (coap_error_t * memory * Z) :=
  let h := hdr pkt in
  if buflen <? sizeof_coap_raw_header_t + tkl h
  then Some (COAP_ERR_BUFFER_TOO_SMALL, out, buflen)
  else
    let '(i0, i1) := raw_id_bytes abi (id h) in
    do out1 <- store_bytes out buf_
                 [byte_of_Z (raw_byte0 abi (ver h) (t h) (tkl h));
                  byte_of_Z (code h); byte_of_Z i0; byte_of_Z i1];
    let p0 := buf_ + sizeof_coap_raw_header_t in
    if (tkl h >? 0) && negb (tkl h =? len (tok pkt))
    then Some (COAP_ERR_UNSUPPORTED, out1, buflen)
    else
      do out2 <- (if tkl h >? 0 then memcpy src out1 p0 (p (tok pkt)) (tkl h)
                  else Some out1);
      let p1 := p0 + tkl h in
      do r <- _build_options_loop (Z.to_nat (numopts pkt)) src pkt buf_ buflen
                                  out2 0 p1 0;
      let '(rc, out3, p2) := r in
      if negb (is_success rc) then Some (rc, out3, buflen)
      else
        let opts_len := (p2 - buf_) - sizeof_coap_raw_header_t in
        if len (payload pkt) >? 0 then
          if buflen <? sizeof_coap_raw_header_t + 1 + len (payload pkt) + opts_len
          then Some (COAP_ERR_BUFFER_TOO_SMALL, out3, buflen)
          else
            do out4 <- store out3 (buf_ + sizeof_coap_raw_header_t + opts_len) xff;
            do out5 <- memcpy src out4 (buf_ + sizeof_coap_raw_header_t + opts_len + 1)
                              (p (payload pkt)) (len (payload pkt));
            Some (COAP_SUCCESS, out5,
                  sizeof_coap_raw_header_t + opts_len + 1 + len (payload pkt))
        else Some (COAP_SUCCESS, out3, opts_len + sizeof_coap_raw_header_t).

(** *** Request dispatcher *)

(** Modelled from the spec: constants of the absent [coap.h].  Section 6
    gives URI-Path = 11, Content-Format = 12 and 4.04 = (4<<5)|4 = 0x84;
    the message types are listed in section 3 in the order Confirmable,
    Non-confirmable, Acknowledgement, Reset. *)
Definition COAP_OPTION_URI_PATH : Z := 11.
Definition COAP_OPTION_CONTENT_FORMAT : Z := 12.
Definition COAP_TYPE_ACK : Z := 2.
Definition COAP_RSPCODE_NOT_FOUND : Z := 0x84.

(** The content-type sentinel [COAP_CONTENTTYPE_NONE] and the integer
    values of the status enumeration are fixed by the absent [coap.h]. *)
Variable COAP_CONTENTTYPE_NONE : Z.
Variable int_of_error : coap_error_t -> Z.

(** [coap_rw_buffer_t] has the shape of [coap_buffer_t], with a pointer
    to writable memory. *)
Definition coap_rw_buffer_t : Type := coap_buffer_t.

(** A handler is code outside [coap.c]: it may write the memory, the
    scratch descriptor and the response packet, and returns an [int]. *)
Definition coap_endpoint_func : Type :=
  memory -> coap_rw_buffer_t -> coap_packet_t -> coap_packet_t -> Z ->
  option (Z * memory * coap_rw_buffer_t * coap_packet_t).

(** A path segment [elems[i]] is a C string, given by its bytes before
    the terminating NUL. *)
Record coap_endpoint_path_t : Type := mk_path {
  count : Z;
  elems : list (list byte)
}.

Record coap_endpoint_t : Type := mk_endpoint {
  method : Z;
  handler : option coap_endpoint_func;
  path : coap_endpoint_path_t;
  ct : Z
}.

Definition strlen (s : list byte) : Z := Z.of_nat (length s).

Definition bytes_eqb (a b : list byte) : bool :=
  if list_eq_dec Byte.byte_eq_dec a b then true else false.

(** The loop of [_find_options] over [i = numopts - todo ..]; [first]
    is the index of the entry the returned pointer designates, [count]
    the [uint8_t] counter. *)
Fixpoint _find_options_loop (todo : nat) (pkt : coap_packet_t) (num_ : Z)
    (i : Z) (first : option Z) (count_ : Z) : option Z * Z :=
  match todo with
  | O => (first, count_)
  | S todo' =>
    if num (opts pkt i) =? num_ then
      let first' := match first with None => Some i | Some f => Some f end in
      _find_options_loop todo' pkt num_ (i + 1) first' (uint8 (count_ + 1))
    else if num (opts pkt i) >? num_ then (first, count_)
    else match first with
         | Some f => (first, count_)
         | None => _find_options_loop todo' pkt num_ (i + 1) first count_
         end
  end.

Definition _find_options (pkt : coap_packet_t) (num_ : Z) : option Z * Z :=
  _find_options_loop (Z.to_nat (numopts pkt)) pkt num_ 0 None 0.

Definition coap_make_response (mem : memory) (scratch : coap_rw_buffer_t)
    (pkt : coap_packet_t) (content : option Z) (content_len : Z) (msgid : Z)
    (tok_ : option coap_buffer_t) (rspcode : Z) (content_type : Z)
  : option (coap_error_t * memory * coap_packet_t) :=
  let h0 := {| ver := 1; t := COAP_TYPE_ACK; tkl := 0;
               code := uint8 rspcode; id := uint16 msgid |} in
  let pkt1 := set_numopts (set_hdr pkt h0) 1 in
  let pkt2 := match tok_ with
              | Some tk =>
                set_tok (set_hdr pkt1 {| ver := ver h0; t := t h0; tkl := uint8 (len tk);
                                         code := code h0; id := id h0 |}) tk
              | None => pkt1
              end in
  let pkt3 := set_opt pkt2 0 {| num := optnum COAP_OPTION_CONTENT_FORMAT;
                                 buf := {| p := p scratch;
                                           len := len (buf (opts pkt2 0)) |} |} in
  if len scratch <? 2 then Some (COAP_ERR_BUFFER_TOO_SMALL, mem, pkt3)
  else
    match p scratch with
    | None => None
    | Some a =>
      do mem1 <- store mem a
                   (byte_of_Z (Z.shiftr (Z.land (uint16 content_type) 0xFF00) 8));
      do mem2 <- store mem1 (a + 1) (byte_of_Z (Z.land (uint16 content_type) 0x00FF));
      let pkt4 := set_opt pkt3 0 {| num := num (opts pkt3 0);
                                     buf := {| p := p (buf (opts pkt3 0)); len := 2 |} |} in
      let pkt5 := set_payload pkt4 {| p := content; len := content_len |} in
      Some (COAP_SUCCESS, mem2, pkt5)
    end.

(** The inner loop of [coap_handle_request] comparing the request's
    path options [opt[i]] with [ep->path->elems[i]]; the result is the
    value of [i] when the loop is left. *)
Fixpoint _match_segments (todo : nat) (mem : memory) (inpkt : coap_packet_t)
    (opt : Z) (ep : coap_endpoint_t) (i : Z) : option Z :=
  match todo with
  | O => Some i
  | S todo' =>
    do s <- nth_error (elems (path ep)) (Z.to_nat i);
    let o := opts inpkt (opt + i) in
    if negb (len (buf o) =? strlen s) then Some i
    else
      do bs <- view_bytes mem (buf o);
      if negb (bytes_eqb s bs) then Some i
      else _match_segments todo' mem inpkt opt ep (i + 1)
  end.

(** The body of the endpoint loop: does [ep] serve the request?  [opt]
    and [count_] are the results of [_find_options]. *)
Definition _endpoint_matches (mem : memory) (inpkt : coap_packet_t)
    (opt : Z) (count_ : Z) (ep : coap_endpoint_t) : option bool :=
  if (method ep =? code (hdr inpkt)) && (count_ =? count (path ep)) then
    do i <- _match_segments (Z.to_nat count_) mem inpkt opt ep 0;
    Some (i =? count_)
  else Some false.

(** The endpoint loop.  The table is the list of its entries up to the
    terminating sentinel; an entry with a null handler, or the end of
    the list, ends the loop.  The result is [Some None] when the loop
    ends without a match and [Some (Some r)] when a handler ran. *)
Fixpoint _dispatch (endpoints : list coap_endpoint_t) (mem : memory)
    (scratch : coap_rw_buffer_t) (inpkt outpkt : coap_packet_t)
    (opt : Z) (count_ : Z)
  : option (option (Z * memory * coap_rw_buffer_t * coap_packet_t)) :=
  match endpoints with
  | [] => Some None
  | ep :: rest =>
    match handler ep with
    | None => Some None
    | Some h =>
      do m <- _endpoint_matches mem inpkt opt count_ ep;
      if m then
        do r <- h mem scratch inpkt outpkt (id (hdr inpkt));
        Some (Some r)
      else _dispatch rest mem scratch inpkt outpkt opt count_
    end
  end.

Definition coap_handle_request (endpoints : list coap_endpoint_t) (mem : memory)
    (scratch : coap_rw_buffer_t) (inpkt outpkt : coap_packet_t)
  : option (Z * memory * coap_rw_buffer_t * coap_packet_t) :=
  let '(opt, count_) := _find_options inpkt COAP_OPTION_URI_PATH in
  do found <- match opt with
              | None => Some None
              | Some first => _dispatch endpoints mem scratch inpkt outpkt first count_
              end;
  match found with
  | Some r => Some r
  | None =>
    do r <- coap_make_response mem scratch outpkt None 0 (id (hdr inpkt))
                               (Some (tok inpkt)) COAP_RSPCODE_NOT_FOUND
                               COAP_CONTENTTYPE_NONE;
    let '(_, mem', outpkt') := r in
    Some (int_of_error COAP_SUCCESS, mem', scratch, outpkt')
  end.

(** *** Resource discovery *)

(** The largest values of [int] and [size_t] are the target's. *)
Variable INT_MAX : Z.
Variable SIZE_MAX : Z.

(** A value stored into an [int].  A value outside the range of [int]
    is an overflow or an out-of-range conversion, whose result C does
    not fix; a run that meets one ends here like a fault. *)
Definition int_of (z : Z) : option Z :=
  if (- INT_MAX - 1 <=? z) && (z <=? INT_MAX) then Some z else None.

(** Arithmetic in [size_t], and the conversion of an [int] to it. *)
Definition size_t (z : Z) : Z := z mod (SIZE_MAX + 1).

Fixpoint strlen_from (bs : list byte) : option Z :=
  match bs with
  | [] => None
  | b :: bs' =>
    if Byte.eqb b x00 then Some 0
    else do n <- strlen_from bs'; Some (n + 1)
  end.

(** [strlen] of the C library on the string at address [a] of the
    memory: the number of bytes before the first NUL, a fault when the
    memory ends before one. *)
Definition strlen_at (mem : memory) (a : Z) : option Z :=
  if a <? 0 then None else strlen_from (skipn (Z.to_nat a) mem).

(** [strncat] of the C library: at most [n] bytes of the string [src],
    then a NUL, are written from the end of the string at [dest] on.
    [src] is given by its bytes before the terminating NUL. *)
Definition strncat (mem : memory) (dest : Z) (src : list byte) (n : Z)
  : option memory :=
  do d <- strlen_at mem dest;
  store_bytes mem (dest + d) (firstn (Z.to_nat n) src ++ [x00]).

Fixpoint digits (u : Decimal.uint) : list byte :=
  match u with
  | Decimal.Nil => []
  | Decimal.D0 u' => x30 :: digits u'
  | Decimal.D1 u' => x31 :: digits u'
  | Decimal.D2 u' => x32 :: digits u'
  | Decimal.D3 u' => x33 :: digits u'
  | Decimal.D4 u' => x34 :: digits u'
  | Decimal.D5 u' => x35 :: digits u'
  | Decimal.D6 u' => x36 :: digits u'
  | Decimal.D7 u' => x37 :: digits u'
  | Decimal.D8 u' => x38 :: digits u'
  | Decimal.D9 u' => x39 :: digits u'
  end.

(** The text the conversion [%d] of [sprintf] produces. *)
Definition decimal (z : Z) : list byte :=
  match Z.to_int z with
  | Decimal.Pos u => digits u
  | Decimal.Neg u => x2d :: digits u
  end.

(** The loop of [coap_build_endpoints] over the path segments
    [i = count - todo ..]: a slash and the segment are appended, and
    [len] is lowered by the length of each, copied in full or not. *)
Fixpoint _build_path_loop (todo : nat) (mem : memory) (buf_ : Z)
    (ep : coap_endpoint_t) (i len_ : Z) : option (memory * Z) :=
  match todo with
  | O => Some (mem, len_)
  | S todo' =>
    do mem1 <- strncat mem buf_ [x2f] (size_t len_);
    do len1 <- int_of (len_ - 1);
    do s <- nth_error (elems (path ep)) (Z.to_nat i);
    do mem2 <- strncat mem1 buf_ s (size_t len1);
    do len2 <- int_of (len1 - strlen s);
    _build_path_loop todo' mem2 buf_ ep (i + 1) len2
  end.

(** The endpoint loop of [coap_build_endpoints]; as in [_dispatch] the
    table is the list of its entries and an entry with a null handler,
    or the end of the list, ends the loop. *)
Fixpoint _build_endpoints_loop (endpoints : list coap_endpoint_t) (mem : memory)
    (buf_ buflen len_ : Z) : option (coap_error_t * memory) :=
  match endpoints with
  | [] => Some (COAP_SUCCESS, mem)
  | ep :: rest =>
    match handler ep with
    | None => Some (COAP_SUCCESS, mem)
    | Some _ =>
      if 0 >? len_ then Some (COAP_ERR_BUFFER_TOO_SMALL, mem)
      else if ct ep =? COAP_CONTENTTYPE_NONE
      then _build_endpoints_loop rest mem buf_ buflen len_
      else
        do n <- strlen_at mem buf_;
        do r1 <- (if 0 <? n then
                    do m <- strncat mem buf_ [x2c] (size_t len_);
                    do l <- int_of (len_ - 1);
                    Some (m, l)
                  else Some (mem, len_));
        let '(mem1, len1) := r1 in
        do mem2 <- strncat mem1 buf_ [x3c] (size_t len1);
        do len2 <- int_of (len1 - 1);
        do r3 <- _build_path_loop (Z.to_nat (count (path ep))) mem2 buf_ ep 0 len2;
        let '(mem3, len3) := r3 in
        do mem4 <- strncat mem3 buf_ [x3e; x3b] (size_t len3);
        do len4 <- int_of (len3 - 2);
        let text := [x63; x74; x3d] ++ decimal (ct ep) in
        do mem5 <- store_bytes mem4 (buf_ + size_t (buflen - len4 - 1)) (text ++ [x00]);
        do len5 <- int_of (len4 - strlen text);
        _build_endpoints_loop rest mem5 buf_ buflen len5
    end
  end.

(** [coap_build_endpoints endpoints mem buf_ buflen]: the result carries
    the memory after the call. *)
Definition coap_build_endpoints (endpoints : list coap_endpoint_t) (mem : memory)
    (buf_ buflen : Z) : option (coap_error_t * memory) :=
  if buflen <? 4 then Some (COAP_ERR_BUFFER_TOO_SMALL, mem)
  else
    do mem1 <- store_bytes mem buf_ (repeat x00 (Z.to_nat buflen));
    do len0 <- int_of (buflen - 1);
    _build_endpoints_loop endpoints mem1 buf_ buflen len0.

(** *** Vocabulary of the properties *)

(** The first [n] entries of the option array, in order. *)
Definition packet_opts (pkt : coap_packet_t) (n : nat) : list coap_option_t :=
  map (fun i => opts pkt (Z.of_nat i)) (seq 0 n).

(** The option numbers of a parsed packet, [opts[0].num .. opts[numopts-1].num]. *)
Definition option_numbers (pkt : coap_packet_t) : list Z :=
  map num (packet_opts pkt (Z.to_nat (numopts pkt))).

(** [set_opts pkt i os]: [pkt] with [os] stored at [opts[i]], [opts[i+1]], ... *)
Fixpoint set_opts (pkt : coap_packet_t) (i : Z) (os : list coap_option_t)
  : coap_packet_t :=
  match os with
  | [] => pkt
  | o :: os' => set_opts (set_opt pkt i o) (i + 1) os'
  end.

Definition no_option : coap_option_t := {| num := 0; buf := {| p := None; len := 0 |} |}.

(** [options_run n mem end_ delta pc]: [_parse_option] accepts [n]
    options back to back from address [pc] on, inside [pc .. end_):
    each starts below [end_] with a byte other than the payload marker.
    The result lists them as decoded, with the accumulator and the
    address reached. *)
Fixpoint options_run (n : nat) (mem : memory) (end_ delta pc : Z)
  : option (list coap_option_t * Z * Z) :=
  match n with
  | O => Some ([], delta, pc)
  | S n' =>
    if pc <? end_ then
      do b <- load_u8 mem pc;
      if b =? 0xFF then None
      else
        do r <- _parse_option mem no_option delta pc (end_ - pc);
        match r with
        | (COAP_SUCCESS, o, delta', pc') =>
          do r' <- options_run n' mem end_ delta' pc';
          let '(os, d, q) := r' in Some (o :: os, d, q)
        | _ => None
        end
    else None
  end.

(** The delta the option header at [pc] encodes, as the wire format
    defines it: no truncation to 16 bits. *)
Definition wire_delta (mem : memory) (pc : Z) : option Z :=
  do b0 <- load_u8 mem pc;
  if b0 / 16 =? 13 then
    do e <- load_u8 mem (pc + 1); Some (e + 13)
  else if b0 / 16 =? 14 then
    do e1 <- load_u8 mem (pc + 1);
    do e2 <- load_u8 mem (pc + 2);
    Some (256 * e1 + e2 + 269)
  else Some (b0 / 16).

(** The sum of the encoded deltas of the options the parse loop decodes
    from [pc] on, with [slots] free entries. *)
Fixpoint run_delta_sum (slots : nat) (mem : memory) (end_ delta pc : Z) : Z :=
  match slots with
  | O => 0
  | S slots' =>
    if pc <? end_ then
      match load_u8 mem pc, wire_delta mem pc,
            _parse_option mem no_option delta pc (end_ - pc) with
      | Some b, Some wd, Some (COAP_SUCCESS, _, delta', pc') =>
        if b =? 0xFF then 0
        else wd + run_delta_sum slots' mem end_ delta' pc'
      | _, _, _ => 0
      end
    else 0
  end.

(** An endpoint serves a request whose URI-Path options are the
    [count_] entries from [opts[opt]] on: same method code, same number
    of segments, and every segment byte-equal to the option value. *)
Definition endpoint_serves (mem : memory) (inpkt : coap_packet_t)
    (opt count_ : Z) (ep : coap_endpoint_t) : Prop :=
  method ep = code (hdr inpkt) /\
  count (path ep) = count_ /\
  forall i, 0 <= i < count_ ->
    exists s, nth_error (elems (path ep)) (Z.to_nat i) = Some s /\
              len (buf (opts inpkt (opt + i))) = strlen s /\
              view_bytes mem (buf (opts inpkt (opt + i))) = Some s.

(** The URI-Path options of a request: the options numbered 11 among
    [opts[0] .. opts[numopts-1]], in the order of the array. *)
Definition uri_path_options (pkt : coap_packet_t) : list coap_option_t :=
  filter (fun o => num o =? COAP_OPTION_URI_PATH)
         (packet_opts pkt (Z.to_nat (numopts pkt))).

(** [request_path mem pkt segs]: the URI-Path of the request is [segs],
    one segment for every URI-Path option, with the bytes of its value. *)
Definition request_path (mem : memory) (pkt : coap_packet_t)
    (segs : list (list byte)) : Prop :=
  Forall2 (fun o s => len (buf o) = strlen s /\ view_bytes mem (buf o) = Some s)
          (uri_path_options pkt) segs.

(** An endpoint matches a request with the path [segs]: equal method
    code, equal segment count, byte-equal segments. *)
Definition endpoint_matches_request (inpkt : coap_packet_t)
    (segs : list (list byte)) (ep : coap_endpoint_t) : Prop :=
  method ep = code (hdr inpkt) /\
  count (path ep) = Z.of_nat (length segs) /\
  elems (path ep) = segs.

(** The option numbers of the packet do not decrease. *)
Definition options_sorted (pkt : coap_packet_t) : Prop :=
  forall i j, 0 <= i <= j -> j < numopts pkt ->
    num (opts pkt i) <= num (opts pkt j).

(** The entries of an endpoint table: those before the sentinel, the
    first entry with a null handler. *)
Fixpoint table_entries (endpoints : list coap_endpoint_t) : list coap_endpoint_t :=
  match endpoints with
  | [] => []
  | ep :: rest =>
    match handler ep with
    | None => []
    | Some _ => ep :: table_entries rest
    end
  end.

(** *** The wire form of a packet (section 4.2 of the spec)

    These definitions follow the spec's description of the encoding, not
    the builder; the builder and the parser are compared with them. *)

Definition nibble_extension (v : Z) : list byte :=
  if v <? 13 then []
  else if v <=? 0xFF + 13 then [byte_of_Z (v - 13)]
  else [byte_of_Z (Z.shiftr (v - 269) 8); byte_of_Z (Z.land 0xFF (v - 269))].

Definition wire_option (delta : Z) (value : list byte) : list byte :=
  byte_of_Z (16 * _option_nibble delta 0 + _option_nibble (Z.of_nat (length value)) 0)
  :: nibble_extension delta ++ nibble_extension (Z.of_nat (length value)) ++ value.

Fixpoint wire_options (running : Z) (os : list (Z * list byte)) : list byte :=
  match os with
  | [] => []
  | (n, v) :: os' => wire_option (n - running) v ++ wire_options n os'
  end.

(** [wire_ok running os]: the numbers of [os] do not decrease from
    [running] on and stay below 2^16, and every value is shorter than
    269 bytes. *)
Fixpoint wire_ok (running : Z) (os : list (Z * list byte)) : Prop :=
  match os with
  | [] => True
  | (n, v) :: os' =>
    running <= n <= 65535 /\ Z.of_nat (length v) < 269 /\ wire_ok n os'
  end.

(** [wire_fits running os]: the numbers of [os] do not decrease from
    [running] on and stay below 2^16, and every value is shorter than
    2^16 bytes. *)
Fixpoint wire_fits (running : Z) (os : list (Z * list byte)) : Prop :=
  match os with
  | [] => True
  | (n, v) :: os' =>
    running <= n <= 65535 /\ Z.of_nat (length v) < 65536 /\ wire_fits n os'
  end.

(** What the parser makes of an option list on the wire. *)
Definition parsed_as (mem : memory) (o : coap_option_t) (nv : Z * list byte) : Prop :=
  num o = optnum (fst nv) /\
  len (buf o) = Z.of_nat (length (snd nv)) /\
  view_bytes mem (buf o) = Some (snd nv).

(** [resolves src pkt i os]: [os] lists the numbers and the value bytes
    of the options [opts[i]], [opts[i+1]], ... of [pkt]. *)
Fixpoint resolves (src : memory) (pkt : coap_packet_t) (i : Z)
    (os : list (Z * list byte)) : Prop :=
  match os with
  | [] => True
  | (n, v) :: os' =>
    n = num (opts pkt i) /\ view_bytes src (buf (opts pkt i)) = Some v /\
    resolves src pkt (i + 1) os'
  end.

(** The packets of the round trip: fields within the ranges of the
    wire format and of the packet structure, option numbers
    non-decreasing, and every option value shorter than 269 bytes. *)
Definition encodable (pkt : coap_packet_t) : Prop :=
  ver (hdr pkt) = 1 /\ 0 <= t (hdr pkt) < 4 /\
  0 <= tkl (hdr pkt) <= 8 /\ len (tok pkt) = tkl (hdr pkt) /\
  0 <= code (hdr pkt) < 256 /\ 0 <= id (hdr pkt) < 65536 /\
  0 <= numopts pkt <= Z.of_nat MAXOPT /\
  (forall i, 0 <= i < numopts pkt ->
     0 <= num (opts pkt i) <= 65535 /\ num (opts pkt i) < OPTNUM_MOD /\
     0 <= len (buf (opts pkt i)) < 269) /\
  (forall i j, 0 <= i <= j -> j < numopts pkt ->
     num (opts pkt i) <= num (opts pkt j)) /\
  0 <= len (payload pkt).

Definition header_bytes (h : coap_header_t) : list byte :=
  [byte_of_Z (raw_byte0 abi (ver h) (t h) (tkl h)); byte_of_Z (code h);
   byte_of_Z (fst (raw_id_bytes abi (id h))); byte_of_Z (snd (raw_id_bytes abi (id h)))].



(** The entry of an endpoint in the text [coap_build_endpoints] writes:
    the path between angle brackets, each segment after a slash, then
    [;ct=] and the content type in decimal. *)
Definition endpoint_link (ep : coap_endpoint_t) : list byte :=
  [x3c] ++ concat (map (cons x2f) (elems (path ep)))
        ++ [x3e; x3b] ++ [x63; x74; x3d] ++ decimal (ct ep).

(** [link_format endpoints text]: [text] followed by the entries of the
    endpoints, up to the first one with a null handler, that have a
    content type, with a comma before every entry but the first of the
    text. *)
Fixpoint link_format (endpoints : list coap_endpoint_t) (text : list byte)
  : list byte :=
  match endpoints with
  | [] => text
  | ep :: rest =>
    match handler ep with
    | None => text
    | Some _ =>
      if ct ep =? COAP_CONTENTTYPE_NONE then link_format rest text
      else link_format rest
             (text ++ match text with [] => [] | _ => [x2c] end ++ endpoint_link ep)
    end
  end.

(** A path as the table declares it: [count] segments, each a C string
    (no NUL among its bytes). *)
Definition path_ok (ep : coap_endpoint_t) : Prop :=
  count (path ep) = Z.of_nat (length (elems (path ep))) /\
  Forall (fun s => ~ In x00 s) (elems (path ep)).

(** [buffer_holds pre post cap text]: a memory in which a buffer of
    [cap] bytes, between [pre] and [post], holds [text] followed by
    NULs. *)
Definition buffer_holds (pre post : list byte) (cap : nat) (text : list byte)
  : memory :=
  pre ++ text ++ repeat x00 (cap - length text) ++ post.

(** The same with the buffer at the end of the memory and holding what
    fits of [full]: its first [cap - 1] bytes. *)
Definition buffer_cut (pre : list byte) (cap : nat) (full : list byte) : memory :=
  buffer_holds pre [] cap (firstn (cap - 1) full).


End Codec.

(** ** Test vectors *)

Definition null_view : coap_buffer_t := {| p := None; len := 0 |}.

Definition blank_packet : coap_packet_t :=
  mk_packet (mk_header 0 0 0 0 0) null_view 0 (fun _ => no_option) null_view.

(** S1 of the spec, a minimal GET. *)
Definition minimal_get : memory := [x40; x01; x00; x01].

(** Three options with empty values: delta 65535+269, delta 65535, delta 0. *)
Definition wrapping_deltas : memory :=
  [x40; x01; x00; x04; xe0; xff; xff; xe0; xfe; xf2; x00].

(** A header and the options 11 = "a", 11 = "b". *)
Definition two_path_options : memory := [x40; x01; x00; x04; xb1; x61; x01; x62].

(** A header, the options 11 = "a", 11 = "b" and 12 = [28], and the
    payload [5A]. *)
Definition three_options : memory :=
  [x40; x01; x00; x07; xb1; x61; x01; x62; x11; x28; xff; x5a].

(** A header, one option 11 with value "a", and a bare payload marker. *)
Definition bare_marker : memory := [x40; x01; x00; x08; xb1; x61; xff].

(** A packet with the single option 11 = "a" and nothing else, whose
    value lives at address 0 of [[x61]]. *)
Definition one_option_packet : coap_packet_t :=
  mk_packet (mk_header 1 0 0 1 1) null_view 1
            (fun _ => mk_option 11 (mk_buffer (Some 0) 1)) null_view.

(** A packet with a one-byte token, the options 11 = "a" and 11 = "b"
    and the payload [5A], its bytes taken from [sample_source]. *)
Definition sample_source : memory := [x61; x62; x5a; xab].

Definition sample_packet : coap_packet_t :=
  mk_packet (mk_header 1 0 1 1 1024) (mk_buffer (Some 3) 1) 2
            (fun i => if i =? 0 then mk_option 11 (mk_buffer (Some 0) 1)
                      else mk_option 11 (mk_buffer (Some 1) 1))
            (mk_buffer (Some 2) 1).

(** A packet whose single option 11 has a value of 269 bytes. *)
Definition long_option_packet : coap_packet_t :=
  mk_packet (mk_header 1 0 0 1 1) null_view 1
            (fun _ => mk_option 11 (mk_buffer (Some 0) 269)) null_view.

Definition status_values (rc : coap_error_t) : Z :=
  match rc with COAP_SUCCESS => 0 | _ => 1 end.

(** A response packet left over from earlier use, with a payload view. *)
Definition stale_packet : coap_packet_t :=
  mk_packet (mk_header 1 0 0 0x45 9) null_view 0 (fun _ => no_option)
            (mk_buffer (Some 0) 4).

(** A handler that answers 2.05 and returns [rc]. *)
Definition content_handler (rc : Z) : coap_endpoint_func :=
  fun mem scratch inpkt outpkt msgid =>
    Some (rc, mem, scratch,
          set_hdr outpkt (mk_header 1 COAP_TYPE_ACK 0 0x45 msgid)).

(** Two endpoints for GET on the root path (no segments). *)
Definition root_endpoints : list coap_endpoint_t :=
  [mk_endpoint 1 (Some (content_handler 7)) (mk_path 0 []) 0;
   mk_endpoint 1 (Some (content_handler 8)) (mk_path 0 []) 0].

(** The request [coap_parse] makes of [minimal_get]. *)
Definition minimal_get_packet : coap_packet_t :=
  match coap_parse 16 (2 ^ 16) LittleEndian minimal_get blank_packet 0 4 with
  | Some (_, pkt) => pkt
  | None => blank_packet
  end.

(** The minimal GET followed by two bytes of scratch space. *)
Definition minimal_get_memory : memory := minimal_get ++ [x00; x00].

(** GET /a: header, option 11 = "a"; two more bytes of memory follow
    the six bytes of the datagram and serve as scratch space. *)
Definition get_a : memory := [x40; x01; x00; x09; xb1; x61; x00; x00].

Definition get_a_packet : coap_packet_t :=
  match coap_parse 16 (2 ^ 16) LittleEndian get_a blank_packet 0 6 with
  | Some (_, pkt) => pkt
  | None => blank_packet
  end.

(** Two endpoints for GET /a. *)
Definition a_endpoints : list coap_endpoint_t :=
  [mk_endpoint 1 (Some (content_handler 7)) (mk_path 1 [[x61]]) 0;
   mk_endpoint 1 (Some (content_handler 8)) (mk_path 1 [[x61]]) 0].

(** The datagram [coap_build] makes of [sample_packet], and the packet
    [coap_parse] makes of it. *)
Definition sample_datagram : memory :=
  [x41; x01; x00; x04; xab; xb1; x61; x01; x62; xff; x5a].

Definition sample_parsed : coap_packet_t :=
  match coap_parse 16 (2 ^ 16) LittleEndian sample_datagram blank_packet 0 11 with
  | Some (_, pkt) => pkt
  | None => blank_packet
  end.

(** A header and an option byte whose delta nibble is 15, and what
    [coap_parse] leaves in the packet. *)
Definition reserved_delta : memory := [x40; x01; x00; x01; xf0].

Definition reserved_delta_parsed : coap_packet_t :=
  match coap_parse 16 (2 ^ 16) LittleEndian reserved_delta blank_packet 0 5 with
  | Some (_, pkt) => pkt
  | None => blank_packet
  end.

(** A table with the endpoints /ab/c (content type 40), /z (no content
    type) and the root path (content type 0). *)
Definition discovery_table : list coap_endpoint_t :=
  [mk_endpoint 1 (Some (content_handler 0)) (mk_path 2 [[x61; x62]; [x63]]) 40;
   mk_endpoint 1 (Some (content_handler 0)) (mk_path 1 [[x7a]]) (-1);
   mk_endpoint 2 (Some (content_handler 0)) (mk_path 0 []) 0].

(** [</ab/c>;ct=40,<>;ct=0] *)
Definition discovery_text : list byte :=
  [x3c; x2f; x61; x62; x2f; x63; x3e; x3b; x63; x74; x3d; x34; x30; x2c;
   x3c; x3e; x3b; x63; x74; x3d; x30].

(** A GET whose only option is Content-Format (12) with the value 40;
    two more bytes of memory follow the six bytes of the datagram and
    serve as scratch space. *)
Definition format_only : memory := [x40; x01; x00; x0a; xc1; x28; x00; x00].

Definition format_only_packet : coap_packet_t :=
  match coap_parse 16 (2 ^ 16) LittleEndian format_only blank_packet 0 6 with
  | Some (_, pkt) => pkt
  | None => blank_packet
  end.

(** PUT /a, GET /b and GET /a/b: none of them serves GET /a. *)
Definition other_endpoints : list coap_endpoint_t :=
  [mk_endpoint 3 (Some (content_handler 5)) (mk_path 1 [[x61]]) 0;
   mk_endpoint 1 (Some (content_handler 6)) (mk_path 1 [[x62]]) 0;
   mk_endpoint 1 (Some (content_handler 9)) (mk_path 2 [[x61]; [x62]]) 0].

(** A GET whose options are encoded with the deltas 11, 65535 and 1:
    URI-Path "a", an option whose number wraps around to 10, URI-Path
    "b".  Two bytes of scratch space follow the eleven bytes of the
    datagram. *)
Definition split_path : memory :=
  [x40; x01; x00; x09; xb1; x61; xe0; xfe; xf2; x11; x62; x00; x00].

Definition split_path_packet : coap_packet_t :=
  match coap_parse 16 (2 ^ 16) LittleEndian split_path blank_packet 0 11 with
  | Some (_, pkt) => pkt
  | None => blank_packet
  end.

(** A GET whose options are encoded with the deltas 12 and 65535: an
    empty option 12, then URI-Path "a", its number wrapped around to 11.
    Two bytes of scratch space follow the nine bytes of the datagram. *)
Definition late_path : memory :=
  [x40; x01; x00; x09; xc0; xe1; xfe; xf2; x61; x00; x00].

Definition late_path_packet : coap_packet_t :=
  match coap_parse 16 (2 ^ 16) LittleEndian late_path blank_packet 0 9 with
  | Some (_, pkt) => pkt
  | None => blank_packet
  end.

(** A GET with 256 URI-Path options "a", parsed with room for 256
    options; two bytes of scratch space follow the 516 bytes of the
    datagram. *)
Definition many_segments : memory :=
  [x40; x01; x00; x09; xb1; x61] ++ concat (repeat [x01; x61] 255) ++ [x00; x00].

Definition many_segments_packet : coap_packet_t :=
  match coap_parse 256 (2 ^ 16) LittleEndian many_segments blank_packet 0 516 with
  | Some (_, pkt) => pkt
  | None => blank_packet
  end.

(** Two endpoints for GET on the path of 256 segments "a". *)
Definition long_path_endpoints : list coap_endpoint_t :=
  [mk_endpoint 1 (Some (content_handler 7)) (mk_path 256 (repeat [x61] 256)) 0;
   mk_endpoint 1 (Some (content_handler 8)) (mk_path 256 (repeat [x61] 256)) 0].

(** A value of 65536 bytes that starts with [41 00 00]. *)
Definition long_value : list byte := [x41; x00; x00] ++ repeat x00 (Z.to_nat 65533).

(** A header and three options: number 0 with the value [long_value]
    (length nibble 14, extension [FE F3] = 65536 - 269), then the
    numbers 1 and 2 with empty values. *)
Definition long_value_options : memory :=
  [x40; x01; x00; x01; x0e; xfe; xf3] ++ long_value ++ [x10; x10].

(** A value of 65536 bytes that starts with [F0]. *)
Definition marker_value : list byte := [xf0] ++ repeat x00 (Z.to_nat 65535).

(** A header, the option number 0 with the value [marker_value], and a
    payload marker as the last byte. *)
Definition long_value_marker : memory :=
  [x40; x01; x00; x01; x0e; xfe; xf3] ++ marker_value ++ [xff].

(** * Properties *)

(** ** Bytes and memory *)

Lemma u8_range b : 0 <= u8 b < 256.
Proof.
  unfold u8. pose proof (Byte.to_N_bounded b). lia.
Qed.

Lemma uint16_range z : 0 <= uint16 z < 65536.
Proof. unfold uint16. apply Z.mod_pos_bound. reflexivity. Qed.

Lemma uint16_small z : 0 <= z < 65536 -> uint16 z = z.
Proof. intros. unfold uint16. apply Z.mod_small. assumption. Qed.

Lemma load_in_bounds mem a :
  0 <= a < Z.of_nat (length mem) -> exists b, load mem a = Some b.
Proof.
  intros H. unfold load.
  destruct (a <? 0) eqn:E; [lia|].
  destruct (nth_error mem (Z.to_nat a)) eqn:N; eauto.
  apply nth_error_None in N. lia.
Qed.

Lemma load_some_bounds mem a b :
  load mem a = Some b -> 0 <= a < Z.of_nat (length mem).
Proof.
  unfold load. destruct (a <? 0) eqn:E; [discriminate|].
  intros N. assert (nth_error mem (Z.to_nat a) <> None) as N' by congruence.
  apply nth_error_Some in N'. lia.
Qed.

Lemma load_u8_in_bounds mem a :
  0 <= a < Z.of_nat (length mem) ->
  exists v, load_u8 mem a = Some v /\ 0 <= v < 256.
Proof.
  intros H. destruct (load_in_bounds mem a H) as [b Hb].
  exists (u8 b). unfold load_u8. rewrite Hb. split; [reflexivity|apply u8_range].
Qed.

Lemma load_u8_some mem a v :
  load_u8 mem a = Some v -> 0 <= a < Z.of_nat (length mem) /\ 0 <= v < 256.
Proof.
  unfold load_u8. destruct (load mem a) eqn:E; [|discriminate].
  intros [= <-]. split; [eapply load_some_bounds; eassumption | apply u8_range].
Qed.

(** Replace the next load by its value, given that its address is in range. *)
Ltac have_load mem a :=
  let v := fresh "v" in
  let Hv := fresh "Hv" in
  let Hr := fresh "Hr" in
  destruct (load_u8_in_bounds mem a) as (v & Hv & Hr); [lia | rewrite Hv].

Ltac split_if :=
  match goal with
  | |- context [if ?c then _ else _] =>
    lazymatch type of c with bool => destruct c eqn:?; cbv iota beta end
  end.

Ltac note_uint16 :=
  repeat match goal with
  | |- context [uint16 ?x] =>
    lazymatch goal with
    | _ : 0 <= uint16 x < 65536 |- _ => fail
    | _ => pose proof (uint16_range x)
    end
  end.

Ltac head_lengths :=
  change (uint8 (1 + 1)) with 2; change (uint8 (1 + 2)) with 3;
  change (uint8 (2 + 1)) with 3; change (uint8 (2 + 2)) with 4;
  change (uint8 (3 + 1)) with 4; change (uint8 (3 + 2)) with 5.

Ltac split_load :=
  match goal with
  | |- context [match load_u8 ?m ?a with _ => _ end] =>
    destruct (load_u8 m a) eqn:?; cbv iota beta
  | H : context [match load_u8 ?m ?a with _ => _ end] |- _ =>
    destruct (load_u8 m a) eqn:?; cbv iota beta in H
  end.

Ltac split_if_in H :=
  match type of H with
  | context [if ?c then _ else _] =>
    lazymatch type of c with bool => destruct c eqn:?; cbv iota beta in H end
  end.

Section ParserProperties.

Variable MAXOPT : nat.
Variable OPTNUM_MOD : Z.
Variable abi : abi_t.

(** ** [_parse_option] stays inside its window *)

Lemma _parse_option_in_bounds mem o rd pc n :
  0 <= pc -> pc + n <= Z.of_nat (length mem) ->
  exists rc o' rd' pc',
    _parse_option OPTNUM_MOD mem o rd pc n = Some (rc, o', rd', pc') /\
    (rc = COAP_SUCCESS \/ rc = COAP_ERR_OPTION_TOO_SHORT_FOR_HEADER \/
     rc = COAP_ERR_OPTION_DELTA_INVALID \/ rc = COAP_ERR_OPTION_LEN_INVALID \/
     rc = COAP_ERR_OPTION_TOO_BIG) /\
    (rc = COAP_SUCCESS -> pc < pc' <= pc + n).
Proof.
  intros Hpc Hn. unfold _parse_option. head_lengths. cbv zeta.
  repeat first
    [ split_if
    | match goal with |- context [load_u8 mem ?a] => have_load mem a end ];
  (do 4 eexists; split; [reflexivity|]; split; [tauto|];
   intros; try discriminate; note_uint16; lia).
Qed.

Lemma _parse_options_loop_in_bounds mem slots :
  forall pkt idx delta pc,
    0 <= pc <= Z.of_nat (length mem) ->
    exists rc pkt' idx' pc',
      _parse_options_loop OPTNUM_MOD slots mem (Z.of_nat (length mem)) pkt idx delta pc
        = Some (rc, pkt', idx', pc') /\
      (rc = COAP_SUCCESS \/ rc = COAP_ERR_OPTION_TOO_SHORT_FOR_HEADER \/
       rc = COAP_ERR_OPTION_DELTA_INVALID \/ rc = COAP_ERR_OPTION_LEN_INVALID \/
       rc = COAP_ERR_OPTION_TOO_BIG) /\
      (rc = COAP_SUCCESS -> 0 <= pc' <= Z.of_nat (length mem)).
Proof.
  induction slots as [|slots IH]; intros pkt idx delta pc Hpc; simpl.
  - do 4 eexists. split; [reflexivity|]. split; [tauto|]. intros; lia.
  - destruct (pc <? Z.of_nat (length mem)) eqn:Hlt.
    + have_load mem pc.
      destruct (negb (v =? 255)) eqn:Hm.
      * destruct (_parse_option_in_bounds mem (opts pkt idx) delta pc
                    (Z.of_nat (length mem) - pc))
          as (rc & o' & rd' & pc' & Hpo & Hrc & Hadv); [lia|lia|].
        rewrite Hpo.
        destruct rc; simpl;
          try (do 4 eexists; split; [reflexivity|]; split; [tauto|]; discriminate).
        apply IH. specialize (Hadv eq_refl). lia.
      * do 4 eexists. split; [reflexivity|]. split; [tauto|]. intros; lia.
    + do 4 eexists. split; [reflexivity|]. split; [tauto|]. intros; lia.
Qed.

Lemma raw_tkl_nonneg b : 0 <= raw_tkl abi (u8 b).
Proof.
  pose proof (u8_range b). unfold raw_tkl. destruct abi.
  - apply Z.mod_pos_bound. lia.
  - apply Z.div_pos; lia.
Qed.



Lemma _parse_options_payload_in_bounds mem pkt :
  0 <= tkl (hdr pkt) ->
  exists rc pkt',
    _parse_options_payload MAXOPT OPTNUM_MOD mem pkt 0 (Z.of_nat (length mem))
      = Some (rc, pkt') /\
    (rc = COAP_SUCCESS \/ rc = COAP_ERR_OPTION_TOO_SHORT_FOR_HEADER \/
     rc = COAP_ERR_OPTION_DELTA_INVALID \/ rc = COAP_ERR_OPTION_LEN_INVALID \/
     rc = COAP_ERR_OPTION_TOO_BIG \/ rc = COAP_ERR_OPTION_OVERRUNS_PACKET).
Proof.
  intros Htkl. unfold _parse_options_payload, sizeof_coap_raw_header_t.
  rewrite !Z.add_0_l.
  destruct (4 + tkl (hdr pkt) >? Z.of_nat (length mem)) eqn:Hover.
  { do 2 eexists. split; [reflexivity|tauto]. }
  destruct (_parse_options_loop_in_bounds mem MAXOPT pkt 0 0 (4 + tkl (hdr pkt)))
    as (rc & pkt' & idx' & pc' & Hloop & Hrc & Hpc'); [lia|].
  rewrite Hloop.
  destruct rc; simpl;
    try (do 2 eexists; split; [reflexivity|tauto]).
  specialize (Hpc' eq_refl).
  destruct (pc' + 1 <? Z.of_nat (length mem)) eqn:Hmore.
  - have_load mem pc'. simpl.
    destruct (v =? 255); do 2 eexists; (split; [reflexivity|tauto]).
  - do 2 eexists. split; [reflexivity|tauto].
Qed.


(** ** Runs of options the parser accepts *)

(** A successful [_parse_option] does not depend on what the option
    slot held before. *)
Lemma _parse_option_success_slot mem o1 o2 rd pc n o' rd' pc' :
  _parse_option OPTNUM_MOD mem o1 rd pc n = Some (COAP_SUCCESS, o', rd', pc') ->
  _parse_option OPTNUM_MOD mem o2 rd pc n = Some (COAP_SUCCESS, o', rd', pc').
Proof.
  unfold _parse_option. cbv zeta. intros H.
  repeat first [ split_if_in H | split_load ];
    first [ discriminate H | exact H ].
Qed.

Lemma hdr_set_opts os : forall pkt i, hdr (set_opts pkt i os) = hdr pkt.
Proof. induction os; intros; simpl; [reflexivity|]. rewrite IHos. reflexivity. Qed.

Lemma opts_set_opts_below os :
  forall pkt i j, j < i -> opts (set_opts pkt i os) j = opts pkt j.
Proof.
  induction os as [|o os IH]; intros pkt i j Hj; simpl; [reflexivity|].
  rewrite IH by lia. simpl.
  destruct (j =? i) eqn:E; [lia|reflexivity].
Qed.

Lemma packet_opts_from os :
  forall pkt i,
    map (fun k => opts (set_opts pkt i os) (i + Z.of_nat k)) (seq 0 (length os)) = os.
Proof.
  induction os as [|o os IH]; intros pkt i; [reflexivity|].
  cbn [length seq map set_opts]. f_equal.
  - rewrite opts_set_opts_below by lia. cbn [opts set_opt Z.of_nat].
    replace (i + 0 =? i) with true by (symmetry; apply Z.eqb_eq; lia).
    reflexivity.
  - rewrite <- seq_shift, map_map.
    rewrite <- (IH (set_opt pkt i o) (i + 1)) at 2.
    apply map_ext. intros k. f_equal. lia.
Qed.

Lemma packet_opts_set_opts pkt os :
  packet_opts (set_opts pkt 0 os) (length os) = os.
Proof. unfold packet_opts. apply (packet_opts_from os pkt 0). Qed.

(** The parse loop consumes a run of accepted options one slot each. *)
Lemma _parse_options_loop_run mem end_ k :
  forall r pkt idx d pc os d' q,
    options_run OPTNUM_MOD k mem end_ d pc = Some (os, d', q) ->
    _parse_options_loop OPTNUM_MOD (k + r) mem end_ pkt idx d pc =
    _parse_options_loop OPTNUM_MOD r mem end_ (set_opts pkt idx os)
                        (idx + Z.of_nat k) d' q.
Proof.
  induction k as [|k IH]; intros r pkt idx d pc os d' q Hrun.
  - simpl in Hrun. injection Hrun as <- <- <-. simpl. f_equal. lia.
  - cbn [options_run] in Hrun. cbn [Nat.add _parse_options_loop].
    destruct (pc <? end_); [|discriminate].
    destruct (load_u8 mem pc) as [b|]; [|discriminate].
    destruct (b =? 255); [discriminate|]. cbn [negb].
    destruct (_parse_option OPTNUM_MOD mem no_option d pc (end_ - pc))
      as [[[[rc o] d1] pc1]|] eqn:Hpo; [|discriminate].
    destruct rc; try discriminate.
    rewrite (_parse_option_success_slot _ _ (opts pkt idx) _ _ _ _ _ _ Hpo).
    destruct (options_run OPTNUM_MOD k mem end_ d1 pc1)
      as [[[os1 d2] q2]|] eqn:Hrest; [|discriminate].
    injection Hrun as <- <- <-.
    cbn [is_success negb set_opts].
    rewrite (IH r _ _ _ _ _ _ _ Hrest). f_equal. lia.
Qed.

Lemma options_run_length k mem end_ :
  forall d pc os d' q,
    options_run OPTNUM_MOD k mem end_ d pc = Some (os, d', q) -> length os = k.
Proof.
  induction k as [|k IH]; intros d pc os d' q Hrun.
  - simpl in Hrun. injection Hrun as <- _ _. reflexivity.
  - cbn [options_run] in Hrun.
    destruct (pc <? end_); [|discriminate].
    destruct (load_u8 mem pc) as [b|]; [|discriminate].
    destruct (b =? 255); [discriminate|].
    destruct (_parse_option OPTNUM_MOD mem no_option d pc (end_ - pc))
      as [[[[rc o] d1] pc1]|]; [|discriminate].
    destruct rc; try discriminate.
    destruct (options_run OPTNUM_MOD k mem end_ d1 pc1)
      as [[[os1 d2] q2]|] eqn:Hrest; [|discriminate].
    injection Hrun as <- _ _. simpl. f_equal. eapply IH. eassumption.
Qed.

(** A run of [a + b] options is a run of [a] followed by a run of [b]. *)
Lemma options_run_split mem end_ a b :
  forall d pc os d' q,
    options_run OPTNUM_MOD (a + b) mem end_ d pc = Some (os, d', q) ->
    exists os1 d1 q1 os2,
      options_run OPTNUM_MOD a mem end_ d pc = Some (os1, d1, q1) /\
      options_run OPTNUM_MOD b mem end_ d1 q1 = Some (os2, d', q) /\
      os = os1 ++ os2.
Proof.
  induction a as [|a IH]; intros d pc os d' q Hrun.
  - exists [], d, pc, os. simpl. auto.
  - cbn [Nat.add options_run] in Hrun |- *.
    destruct (pc <? end_); [|discriminate].
    destruct (load_u8 mem pc) as [v|]; [|discriminate].
    destruct (v =? 255); [discriminate|].
    destruct (_parse_option OPTNUM_MOD mem no_option d pc (end_ - pc))
      as [[[[rc o] d1] pc1]|]; [|discriminate].
    destruct rc; try discriminate.
    destruct (options_run OPTNUM_MOD (a + b) mem end_ d1 pc1)
      as [[[os' d2] q2]|] eqn:Hrest; [|discriminate].
    injection Hrun as <- <- <-.
    destruct (IH _ _ _ _ _ Hrest) as (os1 & d3 & q3 & os2 & H1 & H2 & ->).
    rewrite H1. exists (o :: os1), d3, q3, os2. auto.
Qed.

(** The first option of a run starts inside the buffer with a byte
    other than the payload marker. *)
Lemma options_run_head mem end_ k d pc os d' q :
  options_run OPTNUM_MOD (S k) mem end_ d pc = Some (os, d', q) ->
  pc < end_ /\ exists v, load_u8 mem pc = Some v /\ v <> 255.
Proof.
  cbn [options_run]. intros Hrun.
  destruct (pc <? end_) eqn:Hlt; [|discriminate].
  destruct (load_u8 mem pc) as [v|]; [|discriminate].
  destruct (v =? 255) eqn:Hv; [discriminate|].
  split; [lia|]. exists v. split; [reflexivity|lia].
Qed.

(** ** [coap_parse] on a datagram with a valid header and token *)

Lemma coap_parse_after_header b0 b1 b2 b3 rest pkt :
  let mem := b0 :: b1 :: b2 :: b3 :: rest in
  let n := Z.of_nat (length mem) in
  let h := {| ver := raw_ver abi (u8 b0); t := raw_t abi (u8 b0);
              tkl := raw_tkl abi (u8 b0); code := u8 b1;
              id := raw_id abi (u8 b2) (u8 b3) |} in
  let tk := {| p := if tkl h =? 0 then None else Some 4; len := tkl h |} in
  raw_ver abi (u8 b0) = 1 ->
  raw_tkl abi (u8 b0) <= 8 ->
  4 + raw_tkl abi (u8 b0) <= n ->
  coap_parse MAXOPT OPTNUM_MOD abi mem pkt 0 n =
  do r <- _parse_options_payload MAXOPT OPTNUM_MOD mem
            (set_numopts (set_tok (set_hdr pkt h) tk) (Z.of_nat MAXOPT)) 0 n;
  Some r.
Proof.
  intros mem n h tk Hver Htkl Hfit.
  unfold coap_parse, _parse_header, sizeof_coap_raw_header_t.
  replace (n <? 4) with false
    by (symmetry; apply Z.ltb_ge; subst n mem; cbn [length]; lia).
  change (load_u8 mem 0) with (Some (u8 b0)).
  change (load_u8 mem (0 + 1)) with (Some (u8 b1)).
  change (load_u8 mem (0 + 2)) with (Some (u8 b2)).
  change (load_u8 mem (0 + 3)) with (Some (u8 b3)).
  cbv zeta iota beta. fold h. cbn [ver h]. rewrite Hver.
  change (negb (1 =? 1)) with false. cbv iota. cbn [is_success negb]. cbv iota.
  unfold _parse_token, sizeof_coap_raw_header_t. cbn [hdr set_hdr].
  replace ((4 + tkl h >? n) || (tkl h >? 8))
    with false by (symmetry; apply orb_false_iff; subst h; cbn [tkl]; split; lia).
  cbn [is_success negb]. cbv iota.
  change (0 + 4) with 4. fold tk.
  destruct (_parse_options_payload MAXOPT OPTNUM_MOD mem
              (set_numopts (set_tok (set_hdr pkt h) tk) (Z.of_nat MAXOPT)) 0 n)
    as [[rc pkt4]|]; [|reflexivity].
  destruct rc; reflexivity.
Qed.

Lemma _parse_options_payload_long_run mem pkt k os d q :
  let n := Z.of_nat (length mem) in
  4 + tkl (hdr pkt) <= n ->
  (MAXOPT < k)%nat ->
  options_run OPTNUM_MOD k mem n 0 (4 + tkl (hdr pkt)) = Some (os, d, q) ->
  _parse_options_payload MAXOPT OPTNUM_MOD mem pkt 0 n =
  Some (COAP_SUCCESS,
        set_payload (set_numopts (set_opts pkt 0 (firstn MAXOPT os)) (Z.of_nat MAXOPT))
                    {| p := None; len := 0 |}).
Proof.
  intros n Hfit Hk Hrun.
  replace k with (MAXOPT + S (k - MAXOPT - 1))%nat in Hrun by lia.
  destruct (options_run_split _ _ _ _ _ _ _ _ _ Hrun)
    as (os1 & d1 & q1 & os2 & H1 & H2 & ->).
  pose proof (options_run_length _ _ _ _ _ _ _ _ H1) as Hlen.
  replace (firstn MAXOPT (os1 ++ os2)) with os1
    by (rewrite <- Hlen, firstn_app, Nat.sub_diag, firstn_all; simpl;
        rewrite app_nil_r; reflexivity).
  destruct (options_run_head _ _ _ _ _ _ _ _ H2) as (Hq1 & v & Hv & Hne).
  unfold _parse_options_payload, sizeof_coap_raw_header_t. rewrite !Z.add_0_l.
  replace (4 + tkl (hdr pkt) >? n) with false by lia.
  rewrite <- (Nat.add_0_r MAXOPT) at 1.
  rewrite (_parse_options_loop_run _ _ _ 0%nat pkt 0 _ _ _ _ _ H1).
  cbn [_parse_options_loop is_success negb]. cbv iota.
  rewrite Hv. cbn [option_map].
  replace (v =? 255) with false by lia.
  destruct (q1 + 1 <? n); rewrite Z.add_0_l; reflexivity.
Qed.

(** C8 as amended: on a little-endian target [coap_parse] accepts
    [40 01 00 01] and yields ver = 1, t = 0, tkl = 0, code = 0x01, no
    options and an empty payload, with the two id bytes [00 01] read in
    host order: id = 0x0100. *)
Theorem coap_parse_minimal_get (pkt : coap_packet_t) :
  exists pkt',
    coap_parse MAXOPT OPTNUM_MOD LittleEndian minimal_get pkt 0 4
      = Some (COAP_SUCCESS, pkt') /\
    ver (hdr pkt') = 1 /\ t (hdr pkt') = 0 /\ tkl (hdr pkt') = 0 /\
    code (hdr pkt') = 0x01 /\ id (hdr pkt') = 0x0100 /\
    numopts pkt' = 0 /\ payload pkt' = {| p := None; len := 0 |}.
Proof.
  unfold coap_parse, minimal_get. cbn.
  unfold _parse_options_payload. cbn.
  destruct MAXOPT; cbn; eexists; (split; [reflexivity|]); cbn; tauto.
Qed.

End ParserProperties.


(** ** Round trip through the wire form *)

Lemma u8_byte_of_Z z : u8 (byte_of_Z z) = uint8 z.
Proof.
  unfold byte_of_Z, u8.
  assert (0 <= uint8 z < 256) as Hr by (unfold uint8; apply Z.mod_pos_bound; reflexivity).
  destruct (Byte.of_N (Z.to_N (uint8 z))) as [b|] eqn:E.
  - apply Byte.to_of_N in E. rewrite E. lia.
  - apply Byte.of_N_None_iff in E. lia.
Qed.

Lemma byte_of_Z_u8 b : byte_of_Z (u8 b) = b.
Proof.
  unfold byte_of_Z, u8, uint8.
  pose proof (Byte.to_N_bounded b).
  rewrite Z.mod_small by lia. rewrite N2Z.id, Byte.of_to_N. reflexivity.
Qed.

Lemma nibble_high v : 0 <= v < 256 -> Z.shiftr (Z.land v 0xF0) 4 = v / 16.
Proof.
  intros H. rewrite Z.shiftr_land. change (Z.shiftr 240 4) with (Z.ones 4).
  rewrite Z.land_ones by lia. rewrite Z.shiftr_div_pow2 by lia.
  change (2 ^ 4) with 16. apply Z.mod_small.
  split; [apply Z.div_pos; lia | apply Z.div_lt_upper_bound; lia].
Qed.

Lemma nibble_low v : Z.land v 0x0F = v mod 16.
Proof. change 15 with (Z.ones 4). rewrite Z.land_ones by lia. reflexivity. Qed.

Lemma lor_shiftl_8 hi lo : 0 <= hi -> 0 <= lo < 256 -> Z.lor (Z.shiftl hi 8) lo = 256 * hi + lo.
Proof.
  intros Hhi Hlo.
  rewrite <- Z.lxor_lor, <- Z.add_nocarry_lxor.
  - rewrite Z.shiftl_mul_pow2 by lia. change (2 ^ 8) with 256. lia.
  - apply Z.bits_inj'. intros n Hn. rewrite Z.land_spec, Z.bits_0.
    destruct (Z.lt_ge_cases n 8).
    + rewrite Z.shiftl_spec_low by lia. reflexivity.
    + rewrite (Z.bits_above_log2 lo n); [apply andb_false_r|lia|].
      destruct (Z.eq_dec lo 0) as [->|]; [simpl; lia|].
      apply Z.log2_lt_pow2; [lia|]. apply Z.lt_le_trans with (2 ^ 8); [simpl; lia|].
      apply Z.pow_le_mono_r; lia.
  - apply Z.bits_inj'. intros n Hn. rewrite Z.land_spec, Z.bits_0.
    destruct (Z.lt_ge_cases n 8).
    + rewrite Z.shiftl_spec_low by lia. reflexivity.
    + rewrite (Z.bits_above_log2 lo n); [apply andb_false_r|lia|].
      destruct (Z.eq_dec lo 0) as [->|]; [simpl; lia|].
      apply Z.log2_lt_pow2; [lia|]. apply Z.lt_le_trans with (2 ^ 8); [simpl; lia|].
      apply Z.pow_le_mono_r; lia.
Qed.

Ltac nat_facts :=
  repeat match goal with
  | |- context [Z.of_nat ?n] =>
    lazymatch goal with
    | _ : 0 <= Z.of_nat n |- _ => fail
    | _ => pose proof (Nat2Z.is_nonneg n)
    end
  end.

(** [lia] on goals that compare [Z.of_nat] terms inside boolean tests. *)
Ltac blia :=
  cbn [length]; rewrite ?length_app, ?Nat2Z.inj_add, ?Nat2Z.inj_succ;
  unfold Z.succ; nat_facts; lia.

Lemma uint8_small z : 0 <= z < 256 -> uint8 z = z.
Proof. intros. apply Z.mod_small. assumption. Qed.

Lemma load_u8_app pre l k x :
  nth_error l k = Some x ->
  load_u8 (pre ++ l) (Z.of_nat (length pre) + Z.of_nat k) = Some (u8 x).
Proof.
  intros H. unfold load_u8, load.
  replace (Z.of_nat (length pre) + Z.of_nat k <? 0) with false by blia.
  replace (Z.to_nat (Z.of_nat (length pre) + Z.of_nat k)) with (length pre + k)%nat by lia.
  rewrite nth_error_app2 by lia.
  replace (length pre + k - length pre)%nat with k by lia.
  rewrite H. reflexivity.
Qed.

Lemma load_u8_at pre l k x a :
  a = Z.of_nat (length pre) + Z.of_nat k ->
  nth_error l k = Some x ->
  load_u8 (pre ++ l) a = Some (u8 x).
Proof. intros ->. apply load_u8_app. Qed.

Lemma load_bytes_app pre l post :
  load_bytes (pre ++ l ++ post) (Z.of_nat (length pre)) (Z.of_nat (length l)) = Some l.
Proof.
  unfold load_bytes.
  replace ((Z.of_nat (length pre) <? 0) || (Z.of_nat (length l) <? 0)
           || (Z.of_nat (length (pre ++ l ++ post)) <?
               Z.of_nat (length pre) + Z.of_nat (length l))) with false.
  2:{ rewrite !length_app, !Nat2Z.inj_add. blia. }
  rewrite !Nat2Z.id. rewrite skipn_app, skipn_all, Nat.sub_diag. simpl.
  rewrite firstn_app, firstn_all, Nat.sub_diag. simpl. rewrite app_nil_r. reflexivity.
Qed.

Lemma _option_nibble_cases v :
  0 <= v <= 65535 + 269 ->
  (v < 13 /\ _option_nibble v 0 = v /\ nibble_extension v = []) \/
  (13 <= v <= 268 /\ _option_nibble v 0 = 13 /\ nibble_extension v = [byte_of_Z (v - 13)]) \/
  (269 <= v /\ _option_nibble v 0 = 14 /\
   nibble_extension v = [byte_of_Z (Z.shiftr (v - 269) 8); byte_of_Z (Z.land 0xFF (v - 269))]).
Proof.
  intros H. unfold _option_nibble, nibble_extension.
  destruct (v <? 13) eqn:E1.
  - left. split; [lia|]. split; [|reflexivity].
    change 255 with (Z.ones 8). rewrite Z.land_comm, Z.land_ones by lia.
    apply Z.mod_small. lia.
  - destruct (v <=? 255 + 13) eqn:E2.
    + right; left. split; [lia|]. split; reflexivity.
    + right; right. split; [lia|]. replace (v <=? 65535 + 269) with true by lia.
      split; reflexivity.
Qed.

Ltac decide_if :=
  match goal with
  | |- context [if ?c then _ else _] =>
    lazymatch type of c with
    | bool => first [ replace c with true by lia | replace c with false by lia ]
    end
  end; cbv iota.

Lemma header_byte_nibbles dn ln :
  0 <= dn < 15 -> 0 <= ln < 16 ->
  let b := u8 (byte_of_Z (16 * dn + ln)) in
  Z.shiftr (Z.land b 0xF0) 4 = dn /\ Z.land b 0x0F = ln /\ b <> 255.
Proof.
  intros Hd Hl b. subst b. rewrite u8_byte_of_Z, uint8_small by lia.
  rewrite nibble_high by lia. rewrite nibble_low.
  repeat split; [ | |lia].
  - symmetry. apply Z.div_unique with ln; lia.
  - symmetry. apply Z.mod_unique with dn; lia.
Qed.

Lemma two_byte_extension x :
  0 <= x < 65536 ->
  Z.lor (Z.shiftl (uint8 (Z.shiftr x 8)) 8) (uint8 (Z.land 0xFF x)) = x.
Proof.
  intros Hx.
  rewrite Z.shiftr_div_pow2 by lia. change (2 ^ 8) with 256.
  change 255 with (Z.ones 8). rewrite Z.land_comm, Z.land_ones by lia.
  change (2 ^ 8) with 256.
  assert (0 <= x / 256 < 256) by (split; [apply Z.div_pos; lia | apply Z.div_lt_upper_bound; lia]).
  pose proof (Z.mod_pos_bound x 256 ltac:(lia)).
  rewrite !uint8_small by lia.
  rewrite lor_shiftl_8 by lia.
  symmetry. apply Z.div_mod. lia.
Qed.

Section WireOptions.

Variable OPTNUM_MOD : Z.

Lemma parse_result_eq (n1 n2 p1 p2 l1 l2 r1 r2 c1 c2 : Z) :
  n1 = n2 -> p1 = p2 -> l1 = l2 -> r1 = r2 -> c1 = c2 ->
  Some (COAP_SUCCESS,
        {| num := optnum OPTNUM_MOD n1; buf := {| p := Some p1; len := l1 |} |},
        uint16 r1, c1)
  = Some (COAP_SUCCESS,
          {| num := optnum OPTNUM_MOD n2; buf := {| p := Some p2; len := l2 |} |},
          uint16 r2, c2).
Proof. intros; subst; reflexivity. Qed.

Ltac load_at pre Hpc k :=
  match goal with
  | |- context [load_u8 (pre ++ ?l) ?a] =>
    let H := fresh in
    assert (a = Z.of_nat (length pre) + Z.of_nat k) as H by lia;
    rewrite (load_u8_at pre l k _ a H eq_refl); clear H
  end.

(** Decoding the wire form of one option. *)
Lemma _parse_option_wire pre post o rd delta value :
  0 <= delta <= 65535 ->
  Z.of_nat (length value) < 65536 ->
  let mem := pre ++ wire_option delta value ++ post in
  let pc := Z.of_nat (length pre) in
  exists hl,
    _parse_option OPTNUM_MOD mem o rd pc (Z.of_nat (length mem) - pc)
    = Some (COAP_SUCCESS,
            {| num := optnum OPTNUM_MOD (delta + rd);
               buf := {| p := Some (pc + hl); len := Z.of_nat (length value) |} |},
            uint16 (rd + delta),
            pc + Z.of_nat (length (wire_option delta value))) /\
    Z.of_nat (length (wire_option delta value)) = hl + Z.of_nat (length value) /\
    0 < hl /\
    (exists b, load_u8 mem pc = Some b /\ b <> 255).
Proof.
  intros Hd Hl mem pc. subst mem pc.
  remember (Z.of_nat (length pre)) as pc eqn:Hpc.
  remember (Z.of_nat (length value)) as l eqn:Hlv.
  assert (0 <= l) as Hl0 by lia.
  assert (0 <= pc) as Hpc0 by lia.
  exists (Z.of_nat (length (wire_option delta value)) - l).
  destruct (_option_nibble_cases delta) as [(Hdc & Hdn & Hde)|[(Hdc & Hdn & Hde)|(Hdc & Hdn & Hde)]];
    [lia| | |];
  (destruct (_option_nibble_cases l) as [(Hlc & Hln & Hle)|[(Hlc & Hln & Hle)|(Hlc & Hln & Hle)]];
    [lia| | | ]);
  (unfold wire_option; rewrite <- Hlv, Hdn, Hln, Hde, Hle;
   match goal with
   | |- context [byte_of_Z (16 * ?dn + ?ln) :: _] =>
     destruct (header_byte_nibbles dn ln) as (Hhi & Hlo & Hnm); [lia|lia|]
   end;
   match goal with
   | |- context [pre ++ ?w ++ post] =>
     remember (Z.of_nat (length w)) as wl eqn:Hwl;
     assert (Z.of_nat (length (pre ++ w ++ post)) - pc
             = wl + Z.of_nat (length post)) as ->
       by (rewrite !length_app; lia);
     rewrite ?length_app in Hwl; cbn [length app] in Hwl;
     rewrite ?Nat2Z.inj_succ, <- ?Hlv in Hwl
   end;
   pose proof (Nat2Z.is_nonneg (length post));
   unfold _parse_option; cbv zeta; head_lengths;
   repeat first
     [ rewrite Hhi | rewrite Hlo
     | rewrite two_byte_extension by lia
     | rewrite u8_byte_of_Z
     | rewrite uint8_small by lia
     | rewrite uint16_small by lia
     | decide_if
     | load_at pre Hpc 0%nat; cbv iota beta
     | load_at pre Hpc 1%nat; cbv iota beta
     | load_at pre Hpc 2%nat; cbv iota beta
     | load_at pre Hpc 3%nat; cbv iota beta
     | load_at pre Hpc 4%nat; cbv iota beta ]).
  all: split; [apply parse_result_eq; lia|].
  all: split; [lia|]. all: split; [lia|].
  all: eexists; split; [reflexivity|lia].
Qed.

Lemma wire_option_split delta value :
  exists h, wire_option delta value = h ++ value.
Proof.
  unfold wire_option.
  exists (byte_of_Z (16 * _option_nibble delta 0
                     + _option_nibble (Z.of_nat (length value)) 0)
          :: nibble_extension delta ++ nibble_extension (Z.of_nat (length value))).
  cbn [app]. rewrite <- app_assoc. reflexivity.
Qed.

Lemma view_bytes_app pre v post a :
  a = Z.of_nat (length pre) ->
  view_bytes (pre ++ v ++ post) {| p := Some a; len := Z.of_nat (length v) |} = Some v.
Proof.
  intros ->. unfold view_bytes. cbn [len p].
  destruct (Z.of_nat (length v) <=? 0) eqn:E.
  - apply Z.leb_le in E. destruct v; [reflexivity|]. cbn [length] in E. lia.
  - apply load_bytes_app.
Qed.


Lemma wire_ok_fits os : forall rd, wire_ok rd os -> wire_fits rd os.
Proof.
  induction os as [|[n v] os IH]; intros rd H; [exact I|].
  destruct H as (Hn & Hv & Hok). cbn [wire_fits].
  split; [exact Hn|]. split; [lia|]. apply IH. exact Hok.
Qed.

(** Decoding the wire form of a list of options. *)
Lemma options_run_wire os :
  forall rd pre post,
    0 <= rd <= 65535 ->
    wire_fits rd os ->
    let mem := pre ++ wire_options rd os ++ post in
    exists parsed rd',
      options_run OPTNUM_MOD (length os) mem (Z.of_nat (length mem)) rd
                  (Z.of_nat (length pre))
      = Some (parsed, rd',
              Z.of_nat (length pre) + Z.of_nat (length (wire_options rd os))) /\
      Forall2 (parsed_as OPTNUM_MOD mem) parsed os.
Proof.
  induction os as [|[n v] os IH]; intros rd pre post Hrd Hok mem.
  - exists [], rd. cbn [length options_run wire_options]. split; [|constructor].
    f_equal. f_equal. lia.
  - destruct Hok as (Hn & Hv & Hok).
    cbn [length options_run]. subst mem. cbn [wire_options].
    rewrite <- app_assoc.
    destruct (_parse_option_wire pre (wire_options n os ++ post) no_option rd
                                 (n - rd) v ltac:(lia) Hv)
      as (hl & Hpo & Hlen & Hhl & b & Hb & Hb255).
    cbv zeta in Hpo, Hb.
    set (mem := pre ++ wire_option (n - rd) v ++ wire_options n os ++ post) in *.
    assert (Z.of_nat (length mem)
            = Z.of_nat (length pre) + Z.of_nat (length (wire_option (n - rd) v))
              + Z.of_nat (length (wire_options n os ++ post))) as Hmem
      by (subst mem; rewrite !length_app; lia).
    replace (Z.of_nat (length pre) <? Z.of_nat (length mem)) with true by blia.
    rewrite Hb. replace (b =? 255) with false by lia.
    rewrite Hpo.
    replace (uint16 (rd + (n - rd))) with n
      by (rewrite uint16_small; lia).
    destruct (IH n (pre ++ wire_option (n - rd) v) post ltac:(lia) Hok)
      as (parsed & rd' & Hrun & Hparsed).
    cbv zeta in Hrun, Hparsed.
    replace ((pre ++ wire_option (n - rd) v) ++ wire_options n os ++ post)
      with mem in Hrun, Hparsed by (subst mem; rewrite <- app_assoc; reflexivity).
    rewrite length_app, Nat2Z.inj_add in Hrun. rewrite Hrun.
    eexists _, rd'. split.
    + f_equal. f_equal. rewrite length_app. lia.
    + constructor; [|exact Hparsed].
      unfold parsed_as. cbn [num buf len p fst snd].
      split; [f_equal; lia|]. split; [reflexivity|].
      destruct (wire_option_split (n - rd) v) as [h Hh].
      assert (hl = Z.of_nat (length h)) as ->
        by (rewrite Hh, length_app in Hlen; lia).
      subst mem. rewrite Hh, <- !app_assoc.
      rewrite (app_assoc pre h).
      apply view_bytes_app. rewrite length_app. lia.
Qed.

End WireOptions.

Lemma raw_header_roundtrip abi v ty tl :
  0 <= v < 4 -> 0 <= ty < 4 -> 0 <= tl < 16 ->
  let b := u8 (byte_of_Z (raw_byte0 abi v ty tl)) in
  raw_ver abi b = v /\ raw_t abi b = ty /\ raw_tkl abi b = tl.
Proof.
  intros Hv Ht Hl b. subst b. rewrite u8_byte_of_Z.
  unfold raw_byte0, raw_ver, raw_t, raw_tkl.
  rewrite (Z.mod_small v 4), (Z.mod_small ty 4), (Z.mod_small tl 16) by lia.
  destruct abi; rewrite uint8_small by lia;
    repeat split; Z.div_mod_to_equations; lia.
Qed.

Lemma raw_id_roundtrip abi i :
  0 <= i < 65536 ->
  raw_id abi (u8 (byte_of_Z (fst (raw_id_bytes abi i))))
             (u8 (byte_of_Z (snd (raw_id_bytes abi i)))) = i.
Proof.
  intros Hi. unfold raw_id, raw_id_bytes. rewrite uint16_small by lia.
  assert (0 <= i / 256 < 256)
    by (split; [apply Z.div_pos; lia | apply Z.div_lt_upper_bound; lia]).
  pose proof (Z.mod_pos_bound i 256 ltac:(lia)).
  destruct abi; cbn [fst snd]; rewrite !u8_byte_of_Z, !uint8_small by lia;
    Z.div_mod_to_equations; lia.
Qed.

Lemma tok_set_opts os : forall pkt i, tok (set_opts pkt i os) = tok pkt.
Proof. induction os; intros; simpl; [reflexivity|]. rewrite IHos. reflexivity. Qed.

Section WirePacket.

Variable MAXOPT : nat.
Variable OPTNUM_MOD : Z.
Variable abi : abi_t.

Lemma _parse_options_payload_run mem pkt k os d q :
  let n := Z.of_nat (length mem) in
  4 + tkl (hdr pkt) <= n ->
  (k <= MAXOPT)%nat ->
  options_run OPTNUM_MOD k mem n 0 (4 + tkl (hdr pkt)) = Some (os, d, q) ->
  q = n \/ load_u8 mem q = Some 255 ->
  _parse_options_payload MAXOPT OPTNUM_MOD mem pkt 0 n =
  Some (COAP_SUCCESS,
        set_payload (set_numopts (set_opts pkt 0 os) (Z.of_nat k))
                    (if q + 1 <? n then {| p := Some (q + 1); len := n - (q + 1) |}
                     else {| p := None; len := 0 |})).
Proof.
  intros n Hfit Hk Hrun Hq.
  unfold _parse_options_payload, sizeof_coap_raw_header_t. rewrite !Z.add_0_l.
  replace (4 + tkl (hdr pkt) >? n) with false by lia.
  replace MAXOPT with (k + (MAXOPT - k))%nat at 1 by lia.
  rewrite (_parse_options_loop_run _ _ _ _ (MAXOPT - k)%nat pkt 0 _ _ _ _ _ Hrun).
  rewrite Z.add_0_l.
  assert (_parse_options_loop OPTNUM_MOD (MAXOPT - k) mem n (set_opts pkt 0 os)
            (Z.of_nat k) d q
          = Some (COAP_SUCCESS, set_opts pkt 0 os, Z.of_nat k, q)) as ->.
  { destruct (MAXOPT - k)%nat; cbn [_parse_options_loop]; [reflexivity|].
    destruct Hq as [->|Hq].
    - rewrite Z.ltb_irrefl. reflexivity.
    - rewrite Hq. destruct (q <? n); reflexivity. }
  cbn [is_success negb]. cbv iota.
  destruct (q + 1 <? n) eqn:Hmore; [|reflexivity].
  destruct Hq as [->|Hq]; [lia|].
  rewrite Hq. reflexivity.
Qed.

Lemma coap_parse_wire h0 h1 h2 h3 tokb os tail pkt :
  raw_ver abi (u8 h0) = 1 ->
  raw_tkl abi (u8 h0) = Z.of_nat (length tokb) ->
  (length tokb <= 8)%nat ->
  wire_ok 0 os ->
  (length os <= MAXOPT)%nat ->
  tail = [] \/ (exists payb, tail = xff :: payb /\ payb <> []) ->
  let mem := h0 :: h1 :: h2 :: h3 :: tokb ++ wire_options 0 os ++ tail in
  exists pkt',
    coap_parse MAXOPT OPTNUM_MOD abi mem pkt 0 (Z.of_nat (length mem))
      = Some (COAP_SUCCESS, pkt') /\
    hdr pkt' = {| ver := 1; t := raw_t abi (u8 h0); tkl := Z.of_nat (length tokb);
                  code := u8 h1; id := raw_id abi (u8 h2) (u8 h3) |} /\
    len (tok pkt') = Z.of_nat (length tokb) /\
    view_bytes mem (tok pkt') = Some tokb /\
    numopts pkt' = Z.of_nat (length os) /\
    Forall2 (parsed_as OPTNUM_MOD mem) (packet_opts pkt' (length os)) os /\
    len (payload pkt') = Z.of_nat (length (tl tail)) /\
    view_bytes mem (payload pkt') = Some (tl tail).
Proof.
  intros Hver Htkl Htok8 Hok Hk Htail mem.
  assert (Z.of_nat (length mem)
          = 4 + Z.of_nat (length tokb) + Z.of_nat (length (wire_options 0 os))
            + Z.of_nat (length tail)) as Hmem.
  { subst mem. cbn [length]. rewrite !length_app. lia. }
  subst mem. rewrite coap_parse_after_header; [|assumption|lia|lia].
  set (mem := h0 :: h1 :: h2 :: h3 :: tokb ++ wire_options 0 os ++ tail) in *.
  cbn [tkl]. rewrite Hver, Htkl.
  match goal with
  | |- context [_parse_options_payload _ _ _ ?k _ _] => set (pkt3 := k)
  end.
  destruct (options_run_wire OPTNUM_MOD os 0 (h0 :: h1 :: h2 :: h3 :: tokb) tail
              ltac:(lia) (wire_ok_fits os 0 Hok)) as (parsed & rd' & Hrun & Hparsed).
  cbv zeta in Hrun, Hparsed.
  change ((h0 :: h1 :: h2 :: h3 :: tokb) ++ wire_options 0 os ++ tail)
    with mem in Hrun, Hparsed.
  replace (Z.of_nat (length (h0 :: h1 :: h2 :: h3 :: tokb)))
    with (4 + tkl (hdr pkt3)) in Hrun
    by (subst pkt3; cbn [hdr set_numopts set_tok set_hdr tkl length]; lia).
  set (q := 4 + tkl (hdr pkt3) + Z.of_nat (length (wire_options 0 os))) in *.
  assert (q = 4 + Z.of_nat (length tokb) + Z.of_nat (length (wire_options 0 os)))
    as Hq by (subst q pkt3; reflexivity).
  assert (tail <> [] -> load_u8 mem q = Some 255) as Hmark.
  { intros Hne. destruct Htail as [->|(payb & -> & _)]; [congruence|].
    subst mem.
    change (h0 :: h1 :: h2 :: h3 :: tokb ++ wire_options 0 os ++ xff :: payb)
      with ([h0; h1; h2; h3] ++ tokb ++ wire_options 0 os ++ xff :: payb).
    rewrite !app_assoc.
    apply (load_u8_at _ (xff :: payb) 0%nat xff); [|reflexivity].
    rewrite !length_app. cbn [length]. lia. }
  rewrite (_parse_options_payload_run mem pkt3 (length os) parsed rd' q).
  2:{ subst pkt3. cbn [hdr set_numopts set_tok set_hdr tkl]. lia. }
  2:{ exact Hk. }
  2:{ exact Hrun. }
  2:{ destruct tail as [|x tail']; [left; cbn [length] in Hmem; lia|].
      right. apply Hmark. discriminate. }
  pose proof (options_run_length _ _ _ _ _ _ _ _ _ Hrun) as Hlen.
  eexists. split; [reflexivity|].
  split; [cbn [hdr set_payload set_numopts]; rewrite hdr_set_opts; reflexivity|].
  split; [cbn [tok set_payload set_numopts]; rewrite tok_set_opts; reflexivity|].
  split.
  { cbn [tok set_payload set_numopts]. rewrite tok_set_opts.
    subst pkt3. cbn [tok set_numopts set_tok len tkl].
    destruct tokb as [|t0 tokb'].
    - reflexivity.
    - unfold view_bytes. cbn [len p].
      replace (Z.of_nat (length (t0 :: tokb')) <=? 0) with false by blia.
      replace (Z.of_nat (length (t0 :: tokb')) =? 0) with false by blia.
      cbn [p].
      apply (load_bytes_app [h0; h1; h2; h3] (t0 :: tokb')). }
  split; [reflexivity|]. split.
  { replace (packet_opts _ (length os)) with parsed; [exact Hparsed|].
    rewrite <- Hlen. symmetry. apply (packet_opts_from parsed pkt3 0). }
  cbn [payload set_payload].
  destruct Htail as [->|(payb & -> & Hne)].
  - replace (q + 1 <? Z.of_nat (length mem)) with false
      by (cbn [length] in Hmem; lia).
    split; reflexivity.
  - replace (q + 1 <? Z.of_nat (length mem)) with true.
    2:{ cbn [length] in Hmem. destruct payb; [congruence|].
        cbn [length] in Hmem. lia. }
    cbn [tl len]. split; [cbn [length] in Hmem; lia|].
    replace (Z.of_nat (length mem) - (q + 1)) with (Z.of_nat (length payb))
      by (cbn [length] in Hmem; lia).
    subst mem.
    replace (h0 :: h1 :: h2 :: h3 :: tokb ++ wire_options 0 os ++ xff :: payb)
      with ((([h0; h1; h2; h3] ++ tokb) ++ wire_options 0 os ++ [xff]) ++ payb ++ [])
      by (rewrite app_nil_r, <- !app_assoc; reflexivity).
    apply view_bytes_app. rewrite !length_app. cbn [length]. lia.
Qed.

Lemma Forall2_firstn_both {A B : Type} (P : A -> B -> Prop) k :
  forall l l', Forall2 P l l' -> Forall2 P (firstn k l) (firstn k l').
Proof.
  induction k as [|k IH]; intros l l' H; [constructor|].
  destruct H; cbn [firstn]; constructor; auto.
Qed.

(** The datagram after the header and the token, with the wire form
    of the options [os] decoded. *)
Lemma coap_parse_wire_options h0 h1 h2 h3 tokb os post pkt :
  raw_ver abi (u8 h0) = 1 ->
  raw_tkl abi (u8 h0) = Z.of_nat (length tokb) ->
  (length tokb <= 8)%nat ->
  wire_fits 0 os ->
  let mem := h0 :: h1 :: h2 :: h3 :: tokb ++ wire_options 0 os ++ post in
  exists pkt3 parsed rd',
    hdr pkt3 = {| ver := 1; t := raw_t abi (u8 h0); tkl := Z.of_nat (length tokb);
                  code := u8 h1; id := raw_id abi (u8 h2) (u8 h3) |} /\
    coap_parse MAXOPT OPTNUM_MOD abi mem pkt 0 (Z.of_nat (length mem))
    = (do r <- _parse_options_payload MAXOPT OPTNUM_MOD mem pkt3 0
                 (Z.of_nat (length mem));
       Some r) /\
    options_run OPTNUM_MOD (length os) mem (Z.of_nat (length mem)) 0
                (4 + tkl (hdr pkt3))
    = Some (parsed, rd',
            4 + tkl (hdr pkt3) + Z.of_nat (length (wire_options 0 os))) /\
    Forall2 (parsed_as OPTNUM_MOD mem) parsed os.
Proof.
  intros Hver Htkl Htok8 Hok mem.
  assert (4 + Z.of_nat (length tokb) <= Z.of_nat (length mem)) as Hmem.
  { subst mem. cbn [length]. rewrite !length_app. lia. }
  subst mem. rewrite coap_parse_after_header; [|assumption|lia|lia].
  set (mem := h0 :: h1 :: h2 :: h3 :: tokb ++ wire_options 0 os ++ post) in *.
  cbn [tkl]. rewrite Hver, Htkl.
  match goal with
  | |- context [_parse_options_payload _ _ _ ?k _ _] => set (pkt3 := k)
  end.
  destruct (options_run_wire OPTNUM_MOD os 0 (h0 :: h1 :: h2 :: h3 :: tokb) post
              ltac:(lia) Hok) as (parsed & rd' & Hrun & Hparsed).
  cbv zeta in Hrun, Hparsed.
  change ((h0 :: h1 :: h2 :: h3 :: tokb) ++ wire_options 0 os ++ post)
    with mem in Hrun, Hparsed.
  replace (Z.of_nat (length (h0 :: h1 :: h2 :: h3 :: tokb)))
    with (4 + tkl (hdr pkt3)) in Hrun
    by (subst pkt3; cbn [hdr set_numopts set_tok set_hdr tkl length]; lia).
  exists pkt3, parsed, rd'.
  split; [reflexivity|]. split; [reflexivity|]. split; assumption.
Qed.

(** X21: of more than [MAXOPT] options on the wire, with numbers and
    value lengths below 2^16, [coap_parse] stores the first [MAXOPT] in
    order, sets [numopts] to [MAXOPT] and succeeds, whatever follows
    them in the datagram. *)
Theorem coap_parse_wire_truncated h0 h1 h2 h3 tokb os post pkt :
  raw_ver abi (u8 h0) = 1 ->
  raw_tkl abi (u8 h0) = Z.of_nat (length tokb) ->
  (length tokb <= 8)%nat ->
  wire_fits 0 os ->
  (MAXOPT < length os)%nat ->
  let mem := h0 :: h1 :: h2 :: h3 :: tokb ++ wire_options 0 os ++ post in
  exists pkt',
    coap_parse MAXOPT OPTNUM_MOD abi mem pkt 0 (Z.of_nat (length mem))
      = Some (COAP_SUCCESS, pkt') /\
    numopts pkt' = Z.of_nat MAXOPT /\
    Forall2 (parsed_as OPTNUM_MOD mem) (packet_opts pkt' MAXOPT) (firstn MAXOPT os).
Proof.
  intros Hver Htkl Htok8 Hok Hk. cbv zeta.
  pose proof (coap_parse_wire_options h0 h1 h2 h3 tokb os post pkt Hver Htkl Htok8 Hok)
    as H.
  cbv zeta in H. destruct H as (pkt3 & parsed & rd' & Hhdr & Hparse & Hrun & Hparsed).
  rewrite Hparse. clear Hparse.
  set (mem := h0 :: h1 :: h2 :: h3 :: tokb ++ wire_options 0 os ++ post) in *.
  assert (4 + tkl (hdr pkt3) <= Z.of_nat (length mem)) as Hmem.
  { rewrite Hhdr. subst mem. cbn [tkl length]. rewrite !length_app. lia. }
  pose proof (options_run_length _ _ _ _ _ _ _ _ _ Hrun) as Hlen.
  rewrite (_parse_options_payload_long_run MAXOPT OPTNUM_MOD mem pkt3 (length os)
             parsed rd' _ Hmem Hk Hrun).
  eexists. split; [reflexivity|]. split; [reflexivity|].
  replace (packet_opts _ MAXOPT) with (firstn MAXOPT parsed);
    [apply Forall2_firstn_both; exact Hparsed|].
  assert (length (firstn MAXOPT parsed) = MAXOPT) as Hl
    by (rewrite length_firstn; lia).
  symmetry. unfold packet_opts. cbn [opts set_payload set_numopts].
  etransitivity; [|apply (packet_opts_from (firstn MAXOPT parsed) pkt3 0)].
  rewrite Hl. reflexivity.
Qed.

(** X22: when the wire form of the options, with numbers and value
    lengths below 2^16, is followed by a payload marker as the last
    byte of the datagram, [coap_parse] succeeds and reports no
    payload: a null pointer and the length 0. *)
Theorem coap_parse_wire_bare_marker h0 h1 h2 h3 tokb os pkt :
  raw_ver abi (u8 h0) = 1 ->
  raw_tkl abi (u8 h0) = Z.of_nat (length tokb) ->
  (length tokb <= 8)%nat ->
  wire_fits 0 os ->
  let mem := h0 :: h1 :: h2 :: h3 :: tokb ++ wire_options 0 os ++ [xff] in
  exists pkt',
    coap_parse MAXOPT OPTNUM_MOD abi mem pkt 0 (Z.of_nat (length mem))
      = Some (COAP_SUCCESS, pkt') /\
    numopts pkt' = Z.of_nat (Nat.min (length os) MAXOPT) /\
    payload pkt' = {| p := None; len := 0 |}.
Proof.
  intros Hver Htkl Htok8 Hok. cbv zeta.
  pose proof (coap_parse_wire_options h0 h1 h2 h3 tokb os [xff] pkt Hver Htkl Htok8 Hok)
    as H.
  cbv zeta in H. destruct H as (pkt3 & parsed & rd' & Hhdr & Hparse & Hrun & Hparsed).
  rewrite Hparse. clear Hparse.
  set (mem := h0 :: h1 :: h2 :: h3 :: tokb ++ wire_options 0 os ++ [xff]) in *.
  assert (Z.of_nat (length mem)
          = 4 + tkl (hdr pkt3) + Z.of_nat (length (wire_options 0 os)) + 1) as Hmem.
  { rewrite Hhdr. subst mem. cbn [tkl length]. rewrite !length_app. cbn [length]. lia. }
  destruct (le_lt_dec (length os) MAXOPT) as [Hk|Hk].
  - rewrite (_parse_options_payload_run mem pkt3 (length os) parsed rd' _
               ltac:(lia) Hk Hrun).
    + match goal with
      | |- context [if ?c then _ else _] => replace c with false by lia
      end.
      eexists. split; [reflexivity|]. split; [|reflexivity].
      cbn [numopts set_payload set_numopts]. f_equal. lia.
    + right. subst mem.
      change (h0 :: h1 :: h2 :: h3 :: tokb ++ wire_options 0 os ++ [xff])
        with ([h0; h1; h2; h3] ++ tokb ++ wire_options 0 os ++ [xff]).
      rewrite !app_assoc.
      apply (load_u8_at _ [xff] 0%nat xff); [|reflexivity].
      rewrite Hhdr. cbn [tkl]. rewrite !length_app. cbn [length]. lia.
  - rewrite (_parse_options_payload_long_run MAXOPT OPTNUM_MOD mem pkt3 (length os)
               parsed rd' _ ltac:(lia) Hk Hrun).
    eexists. split; [reflexivity|]. split; [|reflexivity].
    cbn [numopts set_payload set_numopts]. f_equal. lia.
Qed.

End WirePacket.

Lemma uint32_small z : 0 <= z < 2 ^ 32 -> uint32 z = z.
Proof. intros. apply Z.mod_small. assumption. Qed.

Lemma lor_shiftl_4 hi lo :
  0 <= hi -> 0 <= lo < 16 -> Z.lor (Z.shiftl hi 4) lo = 16 * hi + lo.
Proof.
  intros Hhi Hlo.
  assert (Z.land (Z.shiftl hi 4) lo = 0) as Hdisj.
  { apply Z.bits_inj'. intros n Hn. rewrite Z.land_spec, Z.bits_0.
    destruct (Z.lt_ge_cases n 4).
    + rewrite Z.shiftl_spec_low by lia. reflexivity.
    + rewrite (Z.bits_above_log2 lo n); [apply andb_false_r|lia|].
      destruct (Z.eq_dec lo 0) as [->|]; [simpl; lia|].
      apply Z.log2_lt_pow2; [lia|]. apply Z.lt_le_trans with (2 ^ 4); [simpl; lia|].
      apply Z.pow_le_mono_r; lia. }
  rewrite <- Z.lxor_lor, <- Z.add_nocarry_lxor by exact Hdisj.
  rewrite Z.shiftl_mul_pow2 by lia. change (2 ^ 4) with 16. lia.
Qed.

Lemma header_byte_value dn ln :
  0 <= dn < 16 -> 0 <= ln < 16 ->
  Z.land 0xFF (Z.lor (Z.shiftl dn 4) ln) = 16 * dn + ln.
Proof.
  intros Hd Hl. rewrite lor_shiftl_4 by lia.
  change 255 with (Z.ones 8). rewrite Z.land_comm, Z.land_ones by lia.
  apply Z.mod_small. change (2 ^ 8) with 256. lia.
Qed.

Lemma store_bytes_at w tl pc bs m :
  pc = Z.of_nat (length w) ->
  store_bytes (w ++ tl) pc bs = Some m ->
  exists tl', m = (w ++ bs) ++ tl' /\ length m = length (w ++ tl).
Proof.
  intros -> H. unfold store_bytes in H.
  destruct ((Z.of_nat (length w) <? 0)
            || (Z.of_nat (length (w ++ tl)) <? Z.of_nat (length w) + Z.of_nat (length bs)))
           eqn:E; [discriminate|].
  apply orb_false_iff in E. destruct E as [_ E]. apply Z.ltb_ge in E.
  rewrite length_app in E.
  injection H as <-. rewrite Nat2Z.id.
  rewrite firstn_app, firstn_all, Nat.sub_diag. cbn [firstn]. rewrite app_nil_r.
  exists (skipn (length w + length bs) (w ++ tl)). split.
  - rewrite app_assoc. reflexivity.
  - rewrite !length_app, length_skipn, length_app. lia.
Qed.

Lemma store_at w tl pc b m :
  pc = Z.of_nat (length w) ->
  store (w ++ tl) pc b = Some m ->
  exists tl', m = (w ++ [b]) ++ tl' /\ length m = length (w ++ tl).
Proof. apply store_bytes_at. Qed.

Lemma load_bytes_length mem a n bs :
  load_bytes mem a n = Some bs -> Z.of_nat (length bs) = n.
Proof.
  unfold load_bytes.
  destruct ((a <? 0) || (n <? 0) || (Z.of_nat (length mem) <? a + n)) eqn:E;
    [discriminate|].
  apply orb_false_iff in E. destruct E as [E E3].
  apply orb_false_iff in E. destruct E as [E1 E2].
  apply Z.ltb_ge in E1, E2, E3.
  intros [= <-]. rewrite length_firstn, length_skipn. lia.
Qed.

Lemma view_bytes_length mem b bs :
  0 <= len b -> view_bytes mem b = Some bs -> Z.of_nat (length bs) = len b.
Proof.
  intros Hl. unfold view_bytes.
  destruct (len b <=? 0) eqn:E.
  - intros [= <-]. simpl. lia.
  - destruct (p b); [|discriminate]. apply load_bytes_length.
Qed.

Lemma view_bytes_eta mem b :
  view_bytes mem {| p := p b; len := len b |} = view_bytes mem b.
Proof. destruct b; reflexivity. Qed.

Lemma memcpy_at src w tl pc s n m :
  pc = Z.of_nat (length w) ->
  0 <= n ->
  memcpy src (w ++ tl) pc s n = Some m ->
  exists bs tl',
    view_bytes src {| p := s; len := n |} = Some bs /\
    Z.of_nat (length bs) = n /\
    m = (w ++ bs) ++ tl' /\ length m = length (w ++ tl).
Proof.
  intros Hpc Hn H. unfold memcpy in H.
  destruct (view_bytes src {| p := s; len := n |}) as [bs|] eqn:Hv; [|discriminate].
  destruct (store_bytes_at _ _ _ _ _ Hpc H) as (tl' & -> & Hlen).
  exists bs, tl'. split; [reflexivity|]. split; [|split; [reflexivity|exact Hlen]].
  apply (view_bytes_length src {| p := s; len := n |} bs Hn Hv).
Qed.


Section BuildWire.

(** One extension stage of the builder, for the delta and for lengths
    below 269. *)
Lemma build_extension_delta w tl pc d out2 pc2 :
  pc = Z.of_nat (length w) ->
  0 <= d <= 65535 + 269 ->
  (if _option_nibble d 0 =? 13 then
     do m <- store (w ++ tl) pc (byte_of_Z (d - 13)); Some (m, pc + 1)
   else if _option_nibble d 0 =? 14 then
     do m <- store (w ++ tl) pc (byte_of_Z (Z.shiftr (d - 269) 8));
     do m' <- store m (pc + 1) (byte_of_Z (Z.land 0xFF (d - 269)));
     Some (m', pc + 2)
   else Some (w ++ tl, pc)) = Some (out2, pc2) ->
  exists tl',
    out2 = (w ++ nibble_extension d) ++ tl' /\
    pc2 = Z.of_nat (length (w ++ nibble_extension d)) /\
    length out2 = length (w ++ tl).
Proof.
  intros Hpc Hd H.
  destruct (_option_nibble_cases d Hd)
    as [(Hc & Hn & He)|[(Hc & Hn & He)|(Hc & Hn & He)]]; rewrite Hn, He in *.
  - replace (d =? 13) with false in H by lia.
    replace (d =? 14) with false in H by lia.
    injection H as <- <-. exists tl. rewrite app_nil_r. auto.
  - cbn [Z.eqb Pos.eqb] in H.
    destruct (store (w ++ tl) pc (byte_of_Z (d - 13))) as [m|] eqn:Hs; [|discriminate].
    injection H as <- <-.
    destruct (store_at _ _ _ _ _ Hpc Hs) as (tl' & -> & Hlen).
    exists tl'. split; [reflexivity|]. split; [|exact Hlen].
    rewrite length_app. cbn [length]. lia.
  - cbn [Z.eqb Pos.eqb] in H.
    destruct (store (w ++ tl) pc (byte_of_Z (Z.shiftr (d - 269) 8))) as [m|] eqn:Hs;
      [|discriminate].
    destruct (store_at _ _ _ _ _ Hpc Hs) as (tl' & -> & Hlen).
    destruct (store ((w ++ [byte_of_Z (Z.shiftr (d - 269) 8)]) ++ tl') (pc + 1)
                    (byte_of_Z (Z.land 255 (d - 269)))) as [m'|] eqn:Hs'; [|discriminate].
    injection H as <- <-.
    assert (pc + 1 = Z.of_nat (length (w ++ [byte_of_Z (Z.shiftr (d - 269) 8)])))
      as Hpc' by (rewrite length_app; cbn [length]; lia).
    destruct (store_at _ _ _ _ _ Hpc' Hs') as (tl'' & -> & Hlen').
    exists tl''. split; [rewrite <- (app_assoc w); reflexivity|].
    split; [rewrite length_app; cbn [length]; lia|].
    rewrite Hlen'. exact Hlen.
Qed.

Lemma build_extension_length w tl pc l out3 pc3 :
  pc = Z.of_nat (length w) ->
  0 <= l < 269 ->
  (if _option_nibble l 0 =? 13 then
     do m <- store (w ++ tl) pc (byte_of_Z (l - 13)); Some (m, pc + 1)
   else if _option_nibble l 0 =? 14 then
     do m <- store (w ++ tl) pc (byte_of_Z (Z.shiftr l 8));
     do m' <- store m (pc + 1) (byte_of_Z (Z.land 0xFF (l - 269)));
     Some (m', pc + 2)
   else Some (w ++ tl, pc)) = Some (out3, pc3) ->
  exists tl',
    out3 = (w ++ nibble_extension l) ++ tl' /\
    pc3 = Z.of_nat (length (w ++ nibble_extension l)) /\
    length out3 = length (w ++ tl).
Proof.
  intros Hpc Hl H.
  destruct (_option_nibble_cases l ltac:(lia))
    as [(Hc & Hn & He)|[(Hc & Hn & He)|(Hc & Hn & He)]]; [| |lia];
    rewrite Hn, He in *.
  - replace (l =? 13) with false in H by lia.
    replace (l =? 14) with false in H by lia.
    injection H as <- <-. exists tl. rewrite app_nil_r. auto.
  - cbn [Z.eqb Pos.eqb] in H.
    destruct (store (w ++ tl) pc (byte_of_Z (l - 13))) as [m|] eqn:Hs; [|discriminate].
    injection H as <- <-.
    destruct (store_at _ _ _ _ _ Hpc Hs) as (tl' & -> & Hlen).
    exists tl'. split; [reflexivity|]. split; [|exact Hlen].
    rewrite length_app. cbn [length]. lia.
Qed.

Lemma _build_options_loop_wire src pkt cap todo :
  forall i rd w tl out' pc',
    0 <= rd <= 65535 ->
    (forall j, i <= j < i + Z.of_nat todo ->
       rd <= num (opts pkt j) <= 65535 /\ 0 <= len (buf (opts pkt j)) < 269) ->
    (forall j j', i <= j <= j' -> j' < i + Z.of_nat todo ->
       num (opts pkt j) <= num (opts pkt j')) ->
    _build_options_loop todo src pkt 0 cap (w ++ tl) i (Z.of_nat (length w)) rd
      = Some (COAP_SUCCESS, out', pc') ->
    exists os tl',
      out' = (w ++ wire_options rd os) ++ tl' /\
      pc' = Z.of_nat (length (w ++ wire_options rd os)) /\
      wire_ok rd os /\ resolves src pkt i os /\ length os = todo /\
      length out' = length (w ++ tl).
Proof.
  induction todo as [|todo IH]; intros i rd w tl out' pc' Hrd Hopts Hsorted H.
  - cbn [_build_options_loop] in H. injection H as <- <-.
    exists [], tl. cbn [wire_options wire_ok resolves]. rewrite app_nil_r.
    repeat split.
  - cbn [_build_options_loop] in H.
    destruct (Z.of_nat (length w) - 0 >? cap); [discriminate|].
    destruct (Hopts i ltac:(lia)) as [Hnum Hlen].
    set (o := opts pkt i) in *.
    rewrite (uint32_small (num o - rd)) in H by lia.
    rewrite (uint32_small (len (buf o))) in H by lia.
    assert (0 <= _option_nibble (num o - rd) 0 < 16) as Hdn
      by (destruct (_option_nibble_cases (num o - rd) ltac:(lia))
            as [(?&E&_)|[(?&E&_)|(?&E&_)]]; rewrite E; lia).
    assert (0 <= _option_nibble (len (buf o)) 0 < 16) as Hln
      by (destruct (_option_nibble_cases (len (buf o)) ltac:(lia))
            as [(?&E&_)|[(?&E&_)|(?&E&_)]]; rewrite E; lia).
    rewrite header_byte_value in H by assumption.
    clear Hdn Hln.
    match type of H with
    | context [store (w ++ tl) _ ?b] =>
      destruct (store (w ++ tl) (Z.of_nat (length w)) b) as [out1|] eqn:Hs1;
        [|discriminate];
      destruct (store_at _ _ _ _ _ eq_refl Hs1) as (tl1 & -> & Hlen1);
      set (hb := b) in *
    end.
    match type of H with
    | context [match ?e with Some r2 => _ | None => None end] =>
      destruct e as [[out2 pc2]|] eqn:Hs2; [|discriminate]
    end.
    apply build_extension_delta in Hs2;
      [|rewrite length_app; cbn [length]; lia|lia].
    destruct Hs2 as (tl2 & -> & -> & Hlen2).
    match type of H with
    | context [match ?e with Some r3 => _ | None => None end] =>
      destruct e as [[out3 pc3]|] eqn:Hs3; [|discriminate]
    end.
    apply build_extension_length in Hs3; [|reflexivity|lia].
    destruct Hs3 as (tl3 & -> & -> & Hlen3).
    match type of H with
    | context [match ?e with Some out4 => _ | None => None end] =>
      destruct e as [out4|] eqn:Hs4; [|discriminate]
    end.
    apply memcpy_at in Hs4; [|reflexivity|lia].
    destruct Hs4 as (v & tl4 & Hv & Hvlen & -> & Hlen4).
    rewrite (uint16_small (num o)) in H by lia.
    replace (Z.of_nat (length (((w ++ [hb]) ++ nibble_extension (num o - rd))
                                 ++ nibble_extension (len (buf o)))) + len (buf o))
      with (Z.of_nat (length ((((w ++ [hb]) ++ nibble_extension (num o - rd))
                                 ++ nibble_extension (len (buf o))) ++ v))) in H
      by (rewrite (length_app _ v); lia).
    apply IH in H; [|lia| |].
    2:{ intros j Hj. split; [split|].
        - apply Hsorted; lia.
        - apply (Hopts j); lia.
        - apply (Hopts j); lia. }
    2:{ intros j j' Hj Hj'. apply Hsorted; lia. }
    destruct H as (os & tl' & -> & -> & Hok & Hres & Hlos & Hlout).
    rewrite Hlen4, Hlen3, Hlen2, Hlen1 in Hlout.
    assert ((((w ++ [hb]) ++ nibble_extension (num o - rd))
               ++ nibble_extension (len (buf o))) ++ v
            = w ++ wire_option (num o - rd) v) as Hwire.
    { unfold wire_option. rewrite Hvlen. subst hb.
      rewrite <- !app_assoc. reflexivity. }
    rewrite Hwire in *.
    exists ((num o, v) :: os), tl'.
    cbn [wire_options wire_ok resolves length].
    split; [rewrite (app_assoc w); reflexivity|].
    split; [rewrite (app_assoc w); reflexivity|].
    split; [split; [lia|split; [lia|exact Hok]]|].
    split; [split; [reflexivity|split; [|exact Hres]]|].
    { rewrite <- Hv. symmetry. apply view_bytes_eta. }
    split; [congruence|].
    exact Hlout.
Qed.

End BuildWire.

Section RoundTrip.

Variable MAXOPT : nat.
Variable OPTNUM_MOD : Z.
Variable abi : abi_t.


Lemma build_result_inj (rc : coap_error_t) (a b : memory) (x y : Z) :
  Some (rc, a, x) = Some (rc, b, y) -> a = b /\ x = y.
Proof. intros H. split; congruence. Qed.

Lemma length_header_bytes h : length (header_bytes abi h) = 4%nat.
Proof. reflexivity. Qed.

Lemma coap_build_wire src out cap pkt out' n :
  encodable MAXOPT OPTNUM_MOD pkt ->
  coap_build abi src out 0 cap pkt = Some (COAP_SUCCESS, out', n) ->
  exists tokb os payb tl',
    let tail := if len (payload pkt) >? 0 then xff :: payb else [] in
    let dgram := header_bytes abi (hdr pkt) ++ tokb ++ wire_options 0 os ++ tail in
    out' = dgram ++ tl' /\
    n = Z.of_nat (length dgram) /\
    view_bytes src (tok pkt) = Some tokb /\
    wire_ok 0 os /\ resolves src pkt 0 os /\ length os = Z.to_nat (numopts pkt) /\
    view_bytes src (payload pkt) = Some payb.
Proof.
  intros (Hver & Ht & Htkl & Htok & Hcode & Hid & Hnum & Hopts & Hsorted & Hpay) H.
  unfold coap_build, sizeof_coap_raw_header_t in H.
  destruct (cap <? 4 + tkl (hdr pkt)); [discriminate|].
  rewrite (surjective_pairing (raw_id_bytes abi (id (hdr pkt)))) in H.
  fold (header_bytes abi (hdr pkt)) in H.
  destruct (store_bytes out 0 (header_bytes abi (hdr pkt))) as [out1|] eqn:Hs1;
    [|discriminate].
  apply (store_bytes_at [] out 0 _ _ eq_refl) in Hs1.
  destruct Hs1 as (tl1 & -> & _). cbn [app] in H.
  destruct ((tkl (hdr pkt) >? 0) && negb (tkl (hdr pkt) =? len (tok pkt)));
    [discriminate|].
  match type of H with
  | (match ?e with Some _ => _ | None => None end) = _ =>
    destruct e as [out2|] eqn:Hs2; [|discriminate]
  end.
  assert (exists tokb tl2,
            out2 = (header_bytes abi (hdr pkt) ++ tokb) ++ tl2 /\
            view_bytes src (tok pkt) = Some tokb /\
            Z.of_nat (length tokb) = tkl (hdr pkt)) as (tokb & tl2 & -> & Htokb & Htokl).
  { destruct (tkl (hdr pkt) >? 0) eqn:Hpos.
    - apply memcpy_at in Hs2; [|reflexivity|lia].
      destruct Hs2 as (tokb & tl2 & Hv & Hl & -> & _).
      exists tokb, tl2. split; [reflexivity|]. split; [|exact Hl].
      rewrite <- Htok in Hv. rewrite view_bytes_eta in Hv. exact Hv.
    - injection Hs2 as <-.
      exists [], tl1. rewrite app_nil_r. split; [reflexivity|].
      split; [|simpl; lia].
      unfold view_bytes. replace (len (tok pkt) <=? 0) with true by lia. reflexivity. }
  replace (0 + 4 + tkl (hdr pkt))
    with (Z.of_nat (length (header_bytes abi (hdr pkt) ++ tokb))) in H
    by (rewrite length_app; cbn [length header_bytes]; lia).
  destruct (_build_options_loop (Z.to_nat (numopts pkt)) src pkt 0 cap
              ((header_bytes abi (hdr pkt) ++ tokb) ++ tl2) 0
              (Z.of_nat (length (header_bytes abi (hdr pkt) ++ tokb))) 0)
    as [[[rc out3] p2]|] eqn:Hloop; [|discriminate].
  destruct rc; try discriminate. cbn [is_success negb] in H.
  apply _build_options_loop_wire in Hloop; [|lia| |].
  2:{ intros j Hj. destruct (Hopts j) as (? & ? & ?); lia. }
  2:{ intros j j' Hj Hj'. apply Hsorted; lia. }
  destruct Hloop as (os & tl3 & -> & -> & Hok & Hres & Hlos & _).
  destruct (len (payload pkt) >? 0) eqn:Hp.
  - destruct (cap <? 4 + 1 + len (payload pkt) + _); [discriminate|].
    match type of H with
    | context [store _ ?a xff] =>
      replace a
        with (Z.of_nat (length ((header_bytes abi (hdr pkt) ++ tokb) ++ wire_options 0 os)))
        in H by lia
    end.
    destruct (store _ _ xff) as [out4|] eqn:Hs4 in H; [|discriminate].
    apply store_at in Hs4; [|reflexivity].
    destruct Hs4 as (tl4 & -> & _).
    destruct (memcpy src _ _ (p (payload pkt)) (len (payload pkt)))
      as [out5|] eqn:Hs5 in H; [|discriminate].
    apply memcpy_at in Hs5;
      [|rewrite (length_app (_ ++ _) [xff]); cbn [length]; lia|lia].
    destruct Hs5 as (payb & tl5 & Hv & Hl & -> & _).
    apply build_result_inj in H. destruct H as [<- <-].
    exists tokb, os, payb, tl5. cbv zeta.
    split; [rewrite <- !app_assoc; reflexivity|].
    split; [rewrite !length_app, length_header_bytes;
            change (length (xff :: payb)) with (S (length payb)); lia|].
    split; [exact Htokb|]. split; [exact Hok|]. split; [exact Hres|].
    split; [exact Hlos|].
    rewrite view_bytes_eta in Hv. exact Hv.
  - apply build_result_inj in H. destruct H as [<- <-].
    exists tokb, os, [], tl3. cbv zeta.
    split; [rewrite app_nil_r, <- !app_assoc; reflexivity|].
    split; [rewrite app_nil_r, !length_app, length_header_bytes; lia|].
    split; [exact Htokb|]. split; [exact Hok|]. split; [exact Hres|].
    split; [exact Hlos|].
    unfold view_bytes. replace (len (payload pkt) <=? 0) with true by lia. reflexivity.
Qed.

Lemma parsed_resolved mem src pkt pkt' os :
  forall i0,
    Forall2 (parsed_as OPTNUM_MOD mem)
            (map (fun k => opts pkt' (i0 + Z.of_nat k)) (seq 0 (length os))) os ->
    resolves src pkt i0 os ->
    (forall j, i0 <= j < i0 + Z.of_nat (length os) ->
       0 <= num (opts pkt j) < OPTNUM_MOD /\ 0 <= len (buf (opts pkt j))) ->
    forall j, i0 <= j < i0 + Z.of_nat (length os) ->
      num (opts pkt' j) = num (opts pkt j) /\
      len (buf (opts pkt' j)) = len (buf (opts pkt j)) /\
      view_bytes mem (buf (opts pkt' j)) = view_bytes src (buf (opts pkt j)).
Proof.
  induction os as [|[n v] os IH]; intros i0 Hparsed Hres Hbounds j Hj.
  - cbn [length] in Hj. lia.
  - cbn [length seq map] in Hparsed. inversion Hparsed as [|o nv ps os' Ho Hrest]; subst.
    destruct Hres as (Hn & Hv & Hres).
    destruct (Z.eq_dec j i0) as [->|Hne].
    + destruct Ho as (Ho1 & Ho2 & Ho3). cbn [fst snd] in *.
      rewrite Z.add_0_r in Ho1, Ho2, Ho3.
      destruct (Hbounds i0 ltac:(cbn [length]; lia)) as [Hb1 Hb2].
      split; [|split].
      * rewrite Ho1, Hn. unfold optnum. apply Z.mod_small. lia.
      * rewrite Ho2. apply (view_bytes_length src _ _ Hb2 Hv).
      * rewrite Ho3, Hv. reflexivity.
    + apply (IH (i0 + 1)).
      * rewrite <- seq_shift, map_map in Hrest.
        erewrite map_ext; [exact Hrest|].
        intros k. cbv beta. f_equal. lia.
      * exact Hres.
      * intros j' Hj'. apply Hbounds. cbn [length]. lia.
      * cbn [length] in Hj. lia.
Qed.

(** X1: round trip on the part of the domain the builder encodes as
    the parser decodes: when every option value is shorter than 269 bytes,
    parsing what [coap_build] produced gives back the header, the token
    bytes, the option numbers and value bytes in order, and the payload
    bytes. *)
Theorem coap_parse_build_short_values src out cap pkt out' n pkt0 :
  encodable MAXOPT OPTNUM_MOD pkt ->
  coap_build abi src out 0 cap pkt = Some (COAP_SUCCESS, out', n) ->
  let dgram := firstn (Z.to_nat n) out' in
  exists pkt',
    coap_parse MAXOPT OPTNUM_MOD abi dgram pkt0 0 n = Some (COAP_SUCCESS, pkt') /\
    hdr pkt' = hdr pkt /\
    len (tok pkt') = len (tok pkt) /\
    view_bytes dgram (tok pkt') = view_bytes src (tok pkt) /\
    numopts pkt' = numopts pkt /\
    (forall i, 0 <= i < numopts pkt ->
       num (opts pkt' i) = num (opts pkt i) /\
       len (buf (opts pkt' i)) = len (buf (opts pkt i)) /\
       view_bytes dgram (buf (opts pkt' i)) = view_bytes src (buf (opts pkt i))) /\
    len (payload pkt') = len (payload pkt) /\
    view_bytes dgram (payload pkt') = view_bytes src (payload pkt).
Proof.
  intros Henc Hbuild dgram.
  destruct (coap_build_wire _ _ _ _ _ _ Henc Hbuild)
    as (tokb & os & payb & tl' & Hout & Hn & Htokb & Hok & Hres & Hlos & Hpayb).
  cbv zeta in Hout, Hn.
  destruct Henc as (Hver & Ht & Htkl & Htok & Hcode & Hid & Hnum & Hopts & Hsorted & Hpay).
  set (tail := if len (payload pkt) >? 0 then xff :: payb else []) in *.
  assert (dgram = header_bytes abi (hdr pkt) ++ tokb ++ wire_options 0 os ++ tail) as Hd.
  { subst dgram. rewrite Hout, Hn, Nat2Z.id.
    rewrite firstn_app, firstn_all, Nat.sub_diag. cbn [firstn]. apply app_nil_r. }
  assert (Z.of_nat (length tokb) = tkl (hdr pkt)) as Htokl.
  { rewrite <- Htok. apply (view_bytes_length src (tok pkt) tokb); [lia|exact Htokb]. }
  assert (Z.of_nat (length payb) = len (payload pkt)) as Hpayl
    by (apply (view_bytes_length src _ _ Hpay Hpayb)).
  destruct (raw_header_roundtrip abi (ver (hdr pkt)) (t (hdr pkt)) (tkl (hdr pkt)))
    as (Hrv & Hrt & Hrl); [lia|lia|lia|].
  pose proof (raw_id_roundtrip abi (id (hdr pkt)) Hid) as Hrid.
  rewrite Hn, Hd.
  set (b0 := byte_of_Z (raw_byte0 abi (ver (hdr pkt)) (t (hdr pkt)) (tkl (hdr pkt)))) in *.
  set (b1 := byte_of_Z (code (hdr pkt))).
  set (b2 := byte_of_Z (fst (raw_id_bytes abi (id (hdr pkt))))) in *.
  set (b3 := byte_of_Z (snd (raw_id_bytes abi (id (hdr pkt))))) in *.
  change (header_bytes abi (hdr pkt) ++ tokb ++ wire_options 0 os ++ tail)
    with (b0 :: b1 :: b2 :: b3 :: tokb ++ wire_options 0 os ++ tail).
  destruct (coap_parse_wire MAXOPT OPTNUM_MOD abi b0 b1 b2 b3 tokb os tail pkt0)
    as (pkt' & Hparse & Hh & Htl & Htv & Hno & Hpo & Hpl & Hpv).
  { rewrite Hrv. exact Hver. }
  { rewrite Hrl. lia. }
  { lia. }
  { exact Hok. }
  { lia. }
  { subst tail. destruct (len (payload pkt) >? 0) eqn:Hp; [right|left; reflexivity].
    exists payb. split; [reflexivity|]. intros ->. cbn [length] in Hpayl. lia. }
  cbv zeta in Hparse, Htv, Hpo, Hpv.
  set (mem := b0 :: b1 :: b2 :: b3 :: tokb ++ wire_options 0 os ++ tail) in *.
  exists pkt'. split; [exact Hparse|].
  split.
  { rewrite Hh, Hrt, Htokl, Hrid. subst b1. rewrite u8_byte_of_Z, uint8_small by lia.
    rewrite <- Hver. destruct (hdr pkt); reflexivity. }
  split; [lia|]. split; [rewrite Htv, Htokb; reflexivity|].
  split; [lia|]. split.
  { intros i Hi.
    apply (parsed_resolved mem src pkt pkt' os 0).
    - exact Hpo.
    - exact Hres.
    - intros j Hj. destruct (Hopts j) as (? & ? & ?); lia.
    - lia. }
  assert (length (tl tail) = length payb) as Htl'.
  { subst tail. destruct (len (payload pkt) >? 0) eqn:Hp; [reflexivity|].
    cbn [tl length]. lia. }
  split; [lia|].
  rewrite Hpv, Hpayb. f_equal.
  subst tail. destruct (len (payload pkt) >? 0) eqn:Hp; [reflexivity|].
  destruct payb; [reflexivity|]. cbn [length] in Hpayl. lia.
Qed.

End RoundTrip.

(** ** The length extension the builder emits for long values *)

Lemma build_extension_length_long w tl pc l out3 pc3 :
  pc = Z.of_nat (length w) ->
  269 <= l <= 65535 + 269 ->
  (if _option_nibble l 0 =? 13 then
     do m <- store (w ++ tl) pc (byte_of_Z (l - 13)); Some (m, pc + 1)
   else if _option_nibble l 0 =? 14 then
     do m <- store (w ++ tl) pc (byte_of_Z (Z.shiftr l 8));
     do m' <- store m (pc + 1) (byte_of_Z (Z.land 0xFF (l - 269)));
     Some (m', pc + 2)
   else Some (w ++ tl, pc)) = Some (out3, pc3) ->
  exists tl',
    out3 = (w ++ [byte_of_Z (Z.shiftr l 8); byte_of_Z (Z.land 0xFF (l - 269))]) ++ tl' /\
    pc3 = pc + 2.
Proof.
  intros Hpc Hl H.
  destruct (_option_nibble_cases l ltac:(lia))
    as [(Hc & Hn & He)|[(Hc & Hn & He)|(Hc & Hn & He)]]; [lia|lia|].
  rewrite Hn in H. cbn [Z.eqb Pos.eqb] in H.
  destruct (store (w ++ tl) pc (byte_of_Z (Z.shiftr l 8))) as [m|] eqn:Hs;
    [|discriminate].
  destruct (store_at _ _ _ _ _ Hpc Hs) as (tl' & -> & Hlen).
  destruct (store ((w ++ [byte_of_Z (Z.shiftr l 8)]) ++ tl') (pc + 1)
                  (byte_of_Z (Z.land 255 (l - 269)))) as [m'|] eqn:Hs'; [|discriminate].
  assert (pc + 1 = Z.of_nat (length (w ++ [byte_of_Z (Z.shiftr l 8)])))
    as Hpc' by (rewrite length_app; cbn [length]; lia).
  destruct (store_at _ _ _ _ _ Hpc' Hs') as (tl'' & -> & Hlen').
  injection H as <- <-.
  exists tl''. split; [|reflexivity].
  rewrite <- (app_assoc w). reflexivity.
Qed.

(** The two bytes [L >> 8] and [(L - 269) & 0xFF] never decode to [L]. *)
Lemma length_extension_mismatch l :
  269 <= l <= 65535 + 269 ->
  let hi := u8 (byte_of_Z (Z.shiftr l 8)) in
  let lo := u8 (byte_of_Z (Z.land 0xFF (l - 269))) in
  uint16 (Z.lor (Z.shiftl hi 8) lo + 269) <> l /\
  hi <> uint8 (Z.shiftr (l - 269) 8).
Proof.
  intros Hl hi lo. subst hi lo. rewrite !u8_byte_of_Z.
  rewrite !Z.shiftr_div_pow2 by lia. change (2 ^ 8) with 256.
  change 255 with (Z.ones 8). rewrite Z.land_comm, Z.land_ones by lia.
  change (2 ^ 8) with 256.
  unfold uint8, uint16. change (2 ^ 8) with 256. change (2 ^ 16) with 65536.
  rewrite (Z.mod_mod (l - 269) 256) by lia.
  pose proof (Z.mod_pos_bound (l / 256) 256 ltac:(lia)).
  pose proof (Z.mod_pos_bound (l - 269) 256 ltac:(lia)).
  rewrite lor_shiftl_8 by lia.
  split; Z.div_mod_to_equations; lia.
Qed.

(** X4: for every option whose value length [L] lies in 269 .. 65535+269,
    one turn of the builder's loop emits, after the header byte and
    the delta extension, the bytes [L >> 8] and [(L - 269) & 0xFF]; the
    first is not [(L - 269) >> 8], and the parser's
    [((hi << 8) | lo) + 269] does not give [L] back. *)
Theorem _build_options_loop_long_value src pkt cap i rd w tl out' pc' :
  0 <= num (opts pkt i) - rd <= 65535 + 269 ->
  269 <= len (buf (opts pkt i)) <= 65535 + 269 ->
  _build_options_loop 1 src pkt 0 cap (w ++ tl) i (Z.of_nat (length w)) rd
    = Some (COAP_SUCCESS, out', pc') ->
  let L := len (buf (opts pkt i)) in
  let hi := byte_of_Z (Z.shiftr L 8) in
  let lo := byte_of_Z (Z.land 0xFF (L - 269)) in
  exists hb v tl',
    out' = (w ++ hb :: nibble_extension (num (opts pkt i) - rd) ++ [hi; lo] ++ v) ++ tl' /\
    view_bytes src (buf (opts pkt i)) = Some v /\
    u8 hi <> uint8 (Z.shiftr (L - 269) 8) /\
    uint16 (Z.lor (Z.shiftl (u8 hi) 8) (u8 lo) + 269) <> L.
Proof.
  intros Hd Hl H L hi lo.
  cbn [_build_options_loop] in H.
  destruct (Z.of_nat (length w) - 0 >? cap); [discriminate|].
  set (o := opts pkt i) in *.
  rewrite (uint32_small (num o - rd)) in H by lia.
  rewrite (uint32_small (len (buf o))) in H by lia.
  match type of H with
  | context [store (w ++ tl) _ ?b] =>
    destruct (store (w ++ tl) (Z.of_nat (length w)) b) as [out1|] eqn:Hs1;
      [|discriminate];
    destruct (store_at _ _ _ _ _ eq_refl Hs1) as (tl1 & -> & Hlen1);
    set (hb := b) in *
  end.
  match type of H with
  | context [match ?e with Some r2 => _ | None => None end] =>
    destruct e as [[out2 pc2]|] eqn:Hs2; [|discriminate]
  end.
  apply build_extension_delta in Hs2;
    [|rewrite length_app; cbn [length]; lia|lia].
  destruct Hs2 as (tl2 & -> & -> & Hlen2).
  match type of H with
  | context [match ?e with Some r3 => _ | None => None end] =>
    destruct e as [[out3 pc3]|] eqn:Hs3; [|discriminate]
  end.
  apply build_extension_length_long in Hs3; [|reflexivity|lia].
  destruct Hs3 as (tl3 & -> & ->).
  match type of H with
  | context [match ?e with Some out4 => _ | None => None end] =>
    destruct e as [out4|] eqn:Hs4; [|discriminate]
  end.
  apply memcpy_at in Hs4; [|rewrite (length_app _ [_; _]); cbn [length]; lia|lia].
  destruct Hs4 as (v & tl4 & Hv & Hvlen & -> & Hlen4).
  apply build_result_inj in H. destruct H as [<- _].
  destruct (length_extension_mismatch L Hl) as [Hne Hhi].
  exists hb, v, tl4. split; [|split; [|split]].
  - rewrite <- !app_assoc. cbn [app]. rewrite <- ?app_assoc. reflexivity.
  - rewrite <- Hv. symmetry. apply view_bytes_eta.
  - exact Hhi.
  - exact Hne.
Qed.

(** ** Option numbers when the accumulator does not overflow *)

Section SortedOptions.

Variable MAXOPT : nat.
Variable OPTNUM_MOD : Z.
Variable abi : abi_t.

Lemma wire_delta_range mem pc wd :
  wire_delta mem pc = Some wd -> 0 <= wd <= 65535 + 269.
Proof.
  unfold wire_delta.
  destruct (load_u8 mem pc) as [b0|] eqn:Hb0; [|discriminate].
  destruct (load_u8_some _ _ _ Hb0) as [_ Hr0].
  assert (0 <= b0 / 16 < 16)
    by (split; [apply Z.div_pos; lia | apply Z.div_lt_upper_bound; lia]).
  destruct (b0 / 16 =? 13).
  - destruct (load_u8 mem (pc + 1)) as [e|] eqn:He; [|discriminate].
    destruct (load_u8_some _ _ _ He) as [_ Hr]. intros E; assert (Hwd := f_equal (fun r => match r with Some x => x | None => 0 end) E);
      cbv beta iota in Hwd; lia.
  - destruct (b0 / 16 =? 14).
    + destruct (load_u8 mem (pc + 1)) as [e1|] eqn:He1; [|discriminate].
      destruct (load_u8 mem (pc + 2)) as [e2|] eqn:He2; [|discriminate].
      destruct (load_u8_some _ _ _ He1) as [_ Hr1].
      destruct (load_u8_some _ _ _ He2) as [_ Hr2]. intros E; assert (Hwd := f_equal (fun r => match r with Some x => x | None => 0 end) E);
      cbv beta iota in Hwd; lia.
    + intros E; assert (Hwd := f_equal (fun r => match r with Some x => x | None => 0 end) E);
      cbv beta iota in Hwd; lia.
Qed.

(** What a successful [_parse_option] stores, in terms of the encoded delta. *)
Lemma _parse_option_delta mem o rd pc n o' rd' pc' :
  _parse_option OPTNUM_MOD mem o rd pc n = Some (COAP_SUCCESS, o', rd', pc') ->
  exists wd,
    wire_delta mem pc = Some wd /\
    num o' = optnum OPTNUM_MOD (uint16 wd + rd) /\
    rd' = uint16 (rd + uint16 wd).
Proof.
  intros H. unfold _parse_option in H. cbv zeta in H.
  destruct (n <? 1); [discriminate|].
  unfold wire_delta.
  destruct (load_u8 mem pc) as [b0|] eqn:Hb0; [|discriminate].
  destruct (load_u8_some _ _ _ Hb0) as [_ Hr0].
  assert (0 <= b0 / 16 < 16)
    by (split; [apply Z.div_pos; lia | apply Z.div_lt_upper_bound; lia]).
  rewrite nibble_high in H by lia.
  rewrite (uint16_small (b0 / 16)) in H by lia.
  destruct (b0 / 16 =? 13).
  - destruct (n <? uint8 (1 + 1)); [discriminate|].
    destruct (load_u8 mem (pc + 1)) as [e|] eqn:He; [|discriminate].
    exists (e + 13). split; [reflexivity|].
    repeat first [ split_if_in H | split_load ]; try discriminate H;
      injection H as <- <- <-; split; reflexivity.
  - destruct (b0 / 16 =? 14).
    + destruct (n <? uint8 (1 + 2)); [discriminate|].
      destruct (load_u8 mem (pc + 1)) as [e1|] eqn:He1; [|discriminate].
      destruct (load_u8 mem (pc + 2)) as [e2|] eqn:He2; [|discriminate].
      destruct (load_u8_some _ _ _ He1) as [_ Hr1].
      destruct (load_u8_some _ _ _ He2) as [_ Hr2].
      rewrite (lor_shiftl_8 e1 e2) in H by lia.
      exists (256 * e1 + e2 + 269). split; [reflexivity|].
      repeat first [ split_if_in H | split_load ]; try discriminate H;
        injection H as <- <- <-; split; reflexivity.
    + destruct (b0 / 16 =? 15); [discriminate|].
      exists (b0 / 16). split; [reflexivity|].
      rewrite (uint16_small (b0 / 16)) by lia.
      repeat first [ split_if_in H | split_load ]; try discriminate H;
        injection H as <- <- <-; split; reflexivity.
Qed.

Lemma run_delta_sum_nonneg mem end_ slots :
  forall d pc, 0 <= run_delta_sum OPTNUM_MOD slots mem end_ d pc.
Proof.
  induction slots as [|slots IH]; intros d pc; cbn [run_delta_sum]; [lia|].
  destruct (pc <? end_); [|lia].
  destruct (load_u8 mem pc) as [b|]; [|lia].
  destruct (wire_delta mem pc) as [wd|] eqn:Hwd; [|lia].
  destruct (_parse_option OPTNUM_MOD mem no_option d pc (end_ - pc))
    as [[[[rc o] d'] pc']|]; [|lia].
  destruct rc; try lia.
  destruct (b =? 255); [lia|].
  pose proof (wire_delta_range _ _ _ Hwd). specialize (IH d' pc'). lia.
Qed.

Lemma _parse_options_loop_sorted mem end_ slots :
  forall pkt idx d pc pkt' idx' pc',
    _parse_options_loop OPTNUM_MOD slots mem end_ pkt idx d pc
      = Some (COAP_SUCCESS, pkt', idx', pc') ->
    0 <= d ->
    d + run_delta_sum OPTNUM_MOD slots mem end_ d pc <= 65535 ->
    d + run_delta_sum OPTNUM_MOD slots mem end_ d pc < OPTNUM_MOD ->
    idx <= idx' /\
    (forall j, j < idx -> opts pkt' j = opts pkt j) /\
    (forall j, idx <= j < idx' -> d <= num (opts pkt' j)) /\
    (forall i j, idx <= i <= j -> j < idx' ->
       num (opts pkt' i) <= num (opts pkt' j)).
Proof.
  induction slots as [|slots IH]; intros pkt idx d pc pkt' idx' pc' H Hd Hsum HM.
  - cbn [_parse_options_loop] in H. injection H as <- <- <-.
    repeat split; intros; lia || reflexivity.
  - cbn [_parse_options_loop run_delta_sum] in H, Hsum, HM.
    destruct (pc <? end_).
    2:{ injection H as <- <- <-. repeat split; intros; lia || reflexivity. }
    destruct (load_u8 mem pc) as [b|]; [|discriminate].
    destruct (b =? 255) eqn:Hb; cbn [negb] in H.
    { injection H as <- <- <-. repeat split; intros; lia || reflexivity. }
    destruct (_parse_option OPTNUM_MOD mem (opts pkt idx) d pc (end_ - pc))
      as [[[[rc o] d1] pc1]|] eqn:Hpo; [|discriminate].
    destruct rc; cbn [is_success negb] in H; try discriminate.
    rewrite (_parse_option_success_slot _ _ _ no_option _ _ _ _ _ _ Hpo) in Hsum, HM.
    destruct (_parse_option_delta _ _ _ _ _ _ _ _ Hpo) as (wd & Hwd & Hnum & Hd1).
    rewrite Hwd in Hsum, HM.
    pose proof (wire_delta_range _ _ _ Hwd) as Hwr.
    pose proof (run_delta_sum_nonneg mem end_ slots d1 pc1) as Hnn.
    rewrite (uint16_small wd) in Hnum, Hd1 by lia.
    rewrite (uint16_small (d + wd)) in Hd1 by lia.
    unfold optnum in Hnum. rewrite Z.mod_small in Hnum by lia.
    subst d1.
    destruct (IH _ _ _ _ _ _ _ H ltac:(lia) ltac:(lia) ltac:(lia))
      as (Hidx & Hsame & Hlow & Hsorted).
    assert (opts pkt' idx = o) as Hat.
    { rewrite Hsame by lia. cbn [opts set_opt]. rewrite Z.eqb_refl. reflexivity. }
    split; [lia|]. split; [|split].
    + intros j Hj. rewrite Hsame by lia. cbn [opts set_opt].
      replace (j =? idx) with false by lia. reflexivity.
    + intros j Hj. destruct (Z.eq_dec j idx) as [->|Hne].
      * rewrite Hat. lia.
      * specialize (Hlow j ltac:(lia)). lia.
    + intros i j Hij Hj. destruct (Z.eq_dec i idx) as [->|Hne].
      * rewrite Hat. destruct (Z.eq_dec j idx) as [->|Hne'].
        -- rewrite Hat. lia.
        -- specialize (Hlow j ltac:(lia)). lia.
      * apply Hsorted; lia.
Qed.

Lemma _parse_options_loop_hdr mem end_ slots :
  forall pkt idx d pc rc pkt' idx' pc',
    _parse_options_loop OPTNUM_MOD slots mem end_ pkt idx d pc
      = Some (rc, pkt', idx', pc') ->
    hdr pkt' = hdr pkt.
Proof.
  induction slots as [|slots IH]; intros pkt idx d pc rc pkt' idx' pc' H;
    cbn [_parse_options_loop] in H.
  - congruence.
  - destruct (pc <? end_); [|congruence].
    destruct (load_u8 mem pc) as [b|]; [|discriminate].
    destruct (negb (b =? 255)); [|congruence].
    destruct (_parse_option OPTNUM_MOD mem (opts pkt idx) d pc (end_ - pc))
      as [[[[rc1 o] d1] pc1]|]; [|discriminate].
    destruct (negb (is_success rc1)).
    + injection H as <- <- <- <-. reflexivity.
    + apply IH in H. exact H.
Qed.

(** X11: for every datagram [coap_parse] accepts, if the encoded deltas of
    the options it decodes add up to at most 65535 and to less than
    the modulus of the field [num], the option numbers it stores are
    non-decreasing. *)
Theorem coap_parse_sorted_without_overflow mem pkt pkt' :
  let n := Z.of_nat (length mem) in
  coap_parse MAXOPT OPTNUM_MOD abi mem pkt 0 n = Some (COAP_SUCCESS, pkt') ->
  run_delta_sum OPTNUM_MOD MAXOPT mem n 0 (4 + tkl (hdr pkt')) <= 65535 ->
  run_delta_sum OPTNUM_MOD MAXOPT mem n 0 (4 + tkl (hdr pkt')) < OPTNUM_MOD ->
  forall i j, 0 <= i <= j -> j < numopts pkt' ->
    num (opts pkt' i) <= num (opts pkt' j).
Proof.
  intros n H Hsum HM.
  unfold coap_parse in H.
  destruct (_parse_header abi mem (hdr pkt) 0 n) as [[rc1 h]|]; [|discriminate].
  destruct rc1; cbn [is_success negb] in H; try discriminate.
  unfold _parse_token, sizeof_coap_raw_header_t in H. cbn [hdr set_hdr] in H.
  destruct ((4 + tkl h >? n) || (tkl h >? 8)); cbn [is_success negb] in H;
    [discriminate|].
  unfold _parse_options_payload, sizeof_coap_raw_header_t in H.
  cbn [hdr set_numopts set_tok set_hdr] in H. rewrite !Z.add_0_l in H.
  destruct (4 + tkl h >? n); [discriminate|].
  match type of H with
  | context [_parse_options_loop _ _ _ _ ?k _ _ _] => set (pkt3 := k) in *
  end.
  destruct (_parse_options_loop OPTNUM_MOD MAXOPT mem n pkt3 0 0 (4 + tkl h))
    as [[[[rc pkt4] idx] p1]|] eqn:Hloop; [|discriminate].
  destruct rc; cbn [is_success negb] in H; try discriminate.
  pose proof (_parse_options_loop_hdr _ _ _ _ _ _ _ _ _ _ _ Hloop) as Hh4.
  assert (hdr pkt' = h /\ numopts pkt' = idx /\ opts pkt' = opts pkt4)
    as (Hh & Hno & Hopts).
  { destruct (if p1 + 1 <? n then option_map (fun b => b =? 255) (load_u8 mem p1)
              else Some false) as [m|]; [|discriminate].
    destruct m; injection H as <-; cbn [hdr numopts opts set_payload set_numopts];
      rewrite Hh4; repeat split. }
  rewrite Hh in Hsum, HM. rewrite Hno, Hopts.
  destruct (_parse_options_loop_sorted _ _ _ _ _ _ _ _ _ _ Hloop (Z.le_refl 0)
              ltac:(lia) ltac:(lia)) as (_ & _ & _ & Hsorted).
  intros i j Hij Hj. apply Hsorted; lia.
Qed.

End SortedOptions.

(** ** The parser on the test vectors *)

(** C8, counterexample: on a little-endian target the parsed id of
    [40 01 00 01] is not 0x0001, and on a big-endian target the datagram
    is not accepted at all. *)
Lemma minimal_get_id_is_not_1 :
  ~ (exists pkt',
       coap_parse 16 (2 ^ 16) LittleEndian minimal_get blank_packet 0 4
         = Some (COAP_SUCCESS, pkt') /\
       id (hdr pkt') = 0x0001) /\
  ~ (exists pkt',
       coap_parse 16 (2 ^ 16) BigEndian minimal_get blank_packet 0 4
         = Some (COAP_SUCCESS, pkt')).
Proof.
  split.
  - intros (pkt' & Hparse & Hid).
    vm_compute in Hparse. injection Hparse as <-.
    vm_compute in Hid. discriminate Hid.
  - intros (pkt' & Hparse).
    vm_compute in Hparse. discriminate Hparse.
Qed.

Lemma coap_parse_wire_truncated_witness :
  exists pkt',
    coap_parse 2 (2 ^ 16) LittleEndian three_options blank_packet 0 12
      = Some (COAP_SUCCESS, pkt') /\
    numopts pkt' = 2 /\
    Forall2 (parsed_as (2 ^ 16) three_options) (packet_opts pkt' 2)
            [(11, [x61]); (11, [x62])].
Proof.
  apply (coap_parse_wire_truncated 2 (2 ^ 16) LittleEndian x40 x01 x00 x07 []
           [(11, [x61]); (11, [x62]); (12, [x28])] [xff; x5a] blank_packet).
  - reflexivity.
  - reflexivity.
  - cbn [length]. lia.
  - cbn [wire_fits length]. lia.
  - cbn [length]. lia.
Defined.

Lemma coap_parse_wire_bare_marker_witness :
  exists pkt',
    coap_parse 16 (2 ^ 16) LittleEndian bare_marker blank_packet 0 7
      = Some (COAP_SUCCESS, pkt') /\
    numopts pkt' = 1 /\
    payload pkt' = {| p := None; len := 0 |}.
Proof.
  apply (coap_parse_wire_bare_marker 16 (2 ^ 16) LittleEndian x40 x01 x00 x08 []
           [(11, [x61])] blank_packet).
  - reflexivity.
  - reflexivity.
  - cbn [length]. lia.
  - cbn [wire_fits length]. lia.
Defined.

Lemma length_long_value : Z.of_nat (length long_value) = 65536.
Proof. unfold long_value. rewrite length_app, repeat_length. cbn [length]. lia. Qed.

Lemma length_marker_value : Z.of_nat (length marker_value) = 65536.
Proof. unfold marker_value. rewrite length_app, repeat_length. cbn [length]. lia. Qed.

(** The wire form of an option with the number 0 and a value of 65536
    bytes. *)
Lemma wire_option_65536 value :
  Z.of_nat (length value) = 65536 ->
  wire_option 0 value = [x0e; xfe; xf3] ++ value.
Proof. intros H. unfold wire_option. rewrite H. reflexivity. Qed.

(** The parser on a datagram whose first option announces 65536 value
    bytes: the length is reduced to 0 and the first value byte is read
    as the next option header. *)
Lemma coap_parse_wrapped_length_41 rest :
  exists pkt',
    coap_parse 2 (2 ^ 16) LittleEndian
               ([x40; x01; x00; x01; x0e; xfe; xf3; x41; x00; x00] ++ rest)
               blank_packet 0 65545
      = Some (COAP_SUCCESS, pkt') /\
    numopts pkt' = 2 /\
    packet_opts pkt' 2 = [ {| num := 0; buf := {| p := Some 7; len := 0 |} |};
                           {| num := 4; buf := {| p := Some 8; len := 1 |} |} ].
Proof.
  eexists. split; [vm_compute; reflexivity|]. split; reflexivity.
Qed.

Lemma coap_parse_wrapped_length_f0 rest :
  option_map fst
    (coap_parse 16 (2 ^ 16) LittleEndian
                ([x40; x01; x00; x01; x0e; xfe; xf3; xf0] ++ rest) blank_packet 0 65544)
  = Some COAP_ERR_OPTION_DELTA_INVALID.
Proof. vm_compute. reflexivity. Qed.

(** C9, the code at the failing input: the datagram is a header
    followed by the wire form of three options, the first with a value
    of 65536 bytes, and [MAXOPT] is 2.  [coap_parse] succeeds with
    [numopts] = 2, but what it stores are not the first two options
    (number 0 with the 65536 bytes at address 7, number 1 with no
    value): the first is stored with the length 0 and the second slot
    holds an option decoded from the value bytes [41 00], number 4
    with one byte. *)
Theorem coap_parse_long_value_options :
  long_value_options
  = [x40; x01; x00; x01] ++ wire_options 0 [(0, long_value); (1, []); (2, [])] /\
  Z.of_nat (length long_value_options) = 65545 /\
  exists pkt',
    coap_parse 2 (2 ^ 16) LittleEndian long_value_options blank_packet 0 65545
      = Some (COAP_SUCCESS, pkt') /\
    numopts pkt' = 2 /\
    packet_opts pkt' 2 = [ {| num := 0; buf := {| p := Some 7; len := 0 |} |};
                           {| num := 4; buf := {| p := Some 8; len := 1 |} |} ] /\
    ~ Forall2 (parsed_as (2 ^ 16) long_value_options) (packet_opts pkt' 2)
              [(0, long_value); (1, [])].
Proof.
  split; [|split].
  - cbn [wire_options]. change (0 - 0) with 0.
    rewrite (wire_option_65536 long_value length_long_value).
    change (wire_option (1 - 0) [] ++ wire_option (2 - 1) [] ++ []) with [x10; x10].
    unfold long_value_options. rewrite <- !app_assoc. reflexivity.
  - unfold long_value_options. rewrite !length_app, !Nat2Z.inj_add, length_long_value.
    reflexivity.
  - destruct (coap_parse_wrapped_length_41 (repeat x00 (Z.to_nat 65533) ++ [x10; x10]))
      as (pkt' & Hparse & Hnum & Hopts).
    exists pkt'. split; [exact Hparse|]. split; [exact Hnum|]. split; [exact Hopts|].
    rewrite Hopts. intros H.
    inversion H as [|o nv os nvs (_ & Hlen & _) _]; subst.
    cbn [len buf snd] in Hlen. rewrite length_long_value in Hlen. discriminate Hlen.
Qed.

(** C10, the code at the failing input: the datagram is a header
    followed by the wire form of one option with a value of 65536 bytes
    and a payload marker as the last byte.  [coap_parse] does not
    succeed: it reads the first value byte [F0] as an option header and
    returns [COAP_ERR_OPTION_DELTA_INVALID]. *)
Theorem coap_parse_long_value_marker :
  long_value_marker
  = [x40; x01; x00; x01] ++ wire_options 0 [(0, marker_value)] ++ [xff] /\
  Z.of_nat (length long_value_marker) = 65544 /\
  option_map fst
    (coap_parse 16 (2 ^ 16) LittleEndian long_value_marker blank_packet 0 65544)
  = Some COAP_ERR_OPTION_DELTA_INVALID.
Proof.
  split; [|split].
  - cbn [wire_options]. change (0 - 0) with 0.
    rewrite (wire_option_65536 marker_value length_marker_value).
    unfold long_value_marker. rewrite app_nil_r, <- !app_assoc. reflexivity.
  - unfold long_value_marker. rewrite !length_app, !Nat2Z.inj_add, length_marker_value.
    reflexivity.
  - exact (coap_parse_wrapped_length_f0 (repeat x00 (Z.to_nat 65535) ++ [xff])).
Qed.

(** C5, the code at the failing input: [coap_parse] accepts a datagram
    whose three option deltas are 65535+269, 65535 and 0, and the
    numbers it stores decrease, whichever of the three widths the field
    [num] has. *)
Theorem coap_parse_wrapping_deltas_unsorted :
  (exists pkt',
     coap_parse 16 (2 ^ 8) LittleEndian wrapping_deltas blank_packet 0 11
       = Some (COAP_SUCCESS, pkt') /\
     option_numbers pkt' = [12; 11; 11]) /\
  (exists pkt',
     coap_parse 16 (2 ^ 16) LittleEndian wrapping_deltas blank_packet 0 11
       = Some (COAP_SUCCESS, pkt') /\
     option_numbers pkt' = [268; 267; 267]) /\
  (exists pkt',
     coap_parse 16 (2 ^ 32) LittleEndian wrapping_deltas blank_packet 0 11
       = Some (COAP_SUCCESS, pkt') /\
     option_numbers pkt' = [268; 65803; 267]).
Proof.
  repeat split; eexists; (split; [vm_compute; reflexivity|]); vm_compute; reflexivity.
Qed.

Lemma coap_parse_sorted_without_overflow_witness :
  num (opts sample_parsed 0) <= num (opts sample_parsed 1).
Proof.
  apply (coap_parse_sorted_without_overflow 16 (2 ^ 16) LittleEndian
           sample_datagram blank_packet sample_parsed).
  - vm_compute. reflexivity.
  - vm_compute. discriminate.
  - vm_compute. reflexivity.
  - lia.
  - vm_compute. reflexivity.
Defined.

(** ** The builder on the test vectors *)

Lemma sample_packet_encodable : encodable 16 (2 ^ 16) sample_packet.
Proof.
  unfold encodable. cbn [hdr tok numopts payload sample_packet ver t tkl code id len].
  repeat split; try lia.
  - assert (i = 0 \/ i = 1) as [-> | ->] by lia; cbn; lia.
  - assert (i = 0 \/ i = 1) as [-> | ->] by lia; cbn; lia.
  - assert (i = 0 \/ i = 1) as [-> | ->] by lia; cbn; lia.
  - assert (i = 0 \/ i = 1) as [-> | ->] by lia; cbn; lia.
  - assert (i = 0 \/ i = 1) as [-> | ->] by lia; cbn; lia.
  - intros i j Hi Hj.
    assert (i = 0 \/ i = 1) as [-> | ->] by lia;
      (assert (j = 0 \/ j = 1) as [-> | ->] by lia); cbn; lia.
Defined.

Lemma coap_parse_build_short_values_witness :
  exists pkt',
    coap_parse 16 (2 ^ 16) LittleEndian
               [x41; x01; x00; x04; xab; xb1; x61; x01; x62; xff; x5a]
               blank_packet 0 11 = Some (COAP_SUCCESS, pkt') /\
    hdr pkt' = hdr sample_packet /\
    numopts pkt' = 2 /\
    view_bytes [x41; x01; x00; x04; xab; xb1; x61; x01; x62; xff; x5a] (payload pkt')
      = Some [x5a].
Proof.
  destruct (coap_parse_build_short_values 16 (2 ^ 16) LittleEndian sample_source
              (repeat x00 16) 16 sample_packet
              ([x41; x01; x00; x04; xab; xb1; x61; x01; x62; xff; x5a]
                 ++ repeat x00 5) 11 blank_packet sample_packet_encodable eq_refl)
    as (pkt' & Hparse & Hhdr & _ & _ & Hnum & _ & _ & Hpay).
  exists pkt'. repeat split; assumption.
Defined.


(** C4, the code at the failing input: with a capacity of 4 bytes and a
    packet that carries one option, [coap_build] reports success, has
    written the option at offsets 4 and 5, beyond the capacity, and
    sets [*buflen] to 6. *)
Theorem coap_build_writes_past_capacity :
  coap_build LittleEndian [x61] (repeat x00 8) 0 4 one_option_packet
  = Some (COAP_SUCCESS, [x40; x01; x01; x00; xb1; x61; x00; x00], 6).
Proof. vm_compute. reflexivity. Qed.

(** C2, the code at the failing input: for a value of 269 bytes
    [coap_build] emits the extension bytes [01 00], the first being
    [L >> 8] and not [(L - 269) >> 8] = 0; [_parse_option], run on the
    bytes written, reconstructs the length 525, not 269. *)
Theorem coap_build_length_extension_269 :
  exists out n,
    coap_build LittleEndian (repeat x41 269) (repeat x00 600) 0 600 long_option_packet
      = Some (COAP_SUCCESS, out, n) /\
    firstn 3 (skipn 4 out) = [xbe; byte_of_Z (Z.shiftr 269 8); x00] /\
    byte_of_Z (Z.shiftr 269 8) <> byte_of_Z (Z.shiftr (269 - 269) 8) /\
    _parse_option (2 ^ 16) out no_option 0 4 596
      = Some (COAP_SUCCESS,
              {| num := 11; buf := {| p := Some 7; len := 525 |} |}, 11, 532).
Proof.
  do 2 eexists. split; [vm_compute; reflexivity|].
  split; [reflexivity|]. split; [discriminate|].
  vm_compute. reflexivity.
Qed.

(** C1, the code at the failing input: a packet within the encodable
    ranges whose single option has a value of 269 bytes is built
    without error, and [coap_parse] rejects the bytes produced. *)
Theorem coap_parse_of_build_long_option :
  exists out n,
    coap_build LittleEndian (repeat x41 269) (repeat x00 300) 0 300 long_option_packet
      = Some (COAP_SUCCESS, out, n) /\
    n = 276 /\
    option_map fst (coap_parse 16 (2 ^ 16) LittleEndian (firstn (Z.to_nat n) out)
                               blank_packet 0 n)
      = Some COAP_ERR_OPTION_TOO_BIG.
Proof.
  do 2 eexists. split; [vm_compute; reflexivity|].
  split; [reflexivity|]. vm_compute. reflexivity.
Qed.

(** ** Request dispatch *)

Section DispatcherProperties.

Variable OPTNUM_MOD : Z.
Variable COAP_CONTENTTYPE_NONE : Z.
Variable int_of_error : coap_error_t -> Z.

Lemma bytes_eqb_true a b : bytes_eqb a b = true <-> a = b.
Proof.
  unfold bytes_eqb. destruct (list_eq_dec Byte.byte_eq_dec a b); split;
    intros; congruence.
Qed.

Lemma store_bytes_in_bounds mem a bs :
  0 <= a -> a + Z.of_nat (length bs) <= Z.of_nat (length mem) ->
  exists mem', store_bytes mem a bs = Some mem' /\ length mem' = length mem.
Proof.
  intros Ha Hfit. unfold store_bytes.
  destruct ((a <? 0) || (Z.of_nat (length mem) <? a + Z.of_nat (length bs))) eqn:E.
  { apply orb_true_iff in E. lia. }
  eexists. split; [reflexivity|].
  rewrite !length_app, length_firstn, length_skipn. lia.
Qed.

(** *** Which endpoints the loop accepts *)

Lemma _match_segments_all mem inpkt opt ep todo :
  forall i,
    0 <= i ->
    (forall j, i <= j < i + Z.of_nat todo ->
       exists s, nth_error (elems (path ep)) (Z.to_nat j) = Some s /\
                 len (buf (opts inpkt (opt + j))) = strlen s /\
                 view_bytes mem (buf (opts inpkt (opt + j))) = Some s) ->
    _match_segments todo mem inpkt opt ep i = Some (i + Z.of_nat todo).
Proof.
  induction todo as [|todo IH]; intros i Hi Hall.
  - simpl. f_equal. lia.
  - cbn [_match_segments].
    destruct (Hall i) as (s & Hs & Hlen & Hview); [lia|].
    rewrite Hs, Hlen, Z.eqb_refl, Hview. cbn [negb].
    replace (bytes_eqb s s) with true by (symmetry; apply bytes_eqb_true; reflexivity).
    cbn [negb]. rewrite IH; [f_equal; lia|lia|].
    intros j Hj. apply Hall. lia.
Qed.

Lemma _match_segments_full mem inpkt opt ep todo :
  forall i r,
    0 <= i ->
    _match_segments todo mem inpkt opt ep i = Some r ->
    i <= r <= i + Z.of_nat todo /\
    (r = i + Z.of_nat todo ->
     forall j, i <= j < i + Z.of_nat todo ->
       exists s, nth_error (elems (path ep)) (Z.to_nat j) = Some s /\
                 len (buf (opts inpkt (opt + j))) = strlen s /\
                 view_bytes mem (buf (opts inpkt (opt + j))) = Some s).
Proof.
  induction todo as [|todo IH]; intros i r Hi Hm.
  - simpl in Hm. injection Hm as <-. split; [lia|]. intros _ j Hj. lia.
  - cbn [_match_segments] in Hm.
    destruct (nth_error (elems (path ep)) (Z.to_nat i)) as [s|] eqn:Hs; [|discriminate].
    destruct (len (buf (opts inpkt (opt + i))) =? strlen s) eqn:Hlen; cbn [negb] in Hm.
    2:{ injection Hm as <-. split; [lia|]. intros Hr. lia. }
    destruct (view_bytes mem (buf (opts inpkt (opt + i)))) as [bs|] eqn:Hview;
      [|discriminate].
    destruct (bytes_eqb s bs) eqn:Heq; cbn [negb] in Hm.
    2:{ injection Hm as <-. split; [lia|]. intros Hr. lia. }
    apply bytes_eqb_true in Heq. subst bs.
    assert (0 <= i + 1) as Hi1 by lia.
    destruct (IH _ _ Hi1 Hm) as [Hrange Hall].
    split; [lia|]. intros Hr j Hj.
    destruct (Z.eq_dec j i) as [->|Hne].
    + exists s. split; [assumption|]. split; [lia|assumption].
    + apply Hall; lia.
Qed.

(** The test in the endpoint loop accepts exactly the endpoints that
    serve the request. *)
Lemma _endpoint_matches_true_iff mem inpkt opt count_ ep :
  0 <= count_ ->
  _endpoint_matches mem inpkt opt count_ ep = Some true <->
  endpoint_serves mem inpkt opt count_ ep.
Proof.
  intros Hc. unfold _endpoint_matches, endpoint_serves. split.
  - destruct ((method ep =? code (hdr inpkt)) && (count_ =? count (path ep))) eqn:E;
      [|discriminate].
    apply andb_true_iff in E. destruct E as [Em Ec].
    destruct (_match_segments (Z.to_nat count_) mem inpkt opt ep 0) as [r|] eqn:Hm;
      [|discriminate].
    intros [= Hr]. apply Z.eqb_eq in Hr.
    destruct (_match_segments_full _ _ _ _ _ _ _ (Z.le_refl 0) Hm) as [_ Hall].
    split; [lia|]. split; [lia|].
    intros i Hi. apply Hall; lia.
  - intros (Hm & Hcount & Hall).
    replace ((method ep =? code (hdr inpkt)) && (count_ =? count (path ep)))
      with true by (symmetry; apply andb_true_iff; split; apply Z.eqb_eq; lia).
    rewrite _match_segments_all; [|lia|].
    + f_equal. apply Z.eqb_eq. lia.
    + intros j Hj. apply Hall. lia.
Qed.

Lemma _dispatch_first_match mem scratch inpkt outpkt opt count_ pre ep post h :
  Forall (fun e => handler e <> None /\
                   _endpoint_matches mem inpkt opt count_ e = Some false) pre ->
  handler ep = Some h ->
  _endpoint_matches mem inpkt opt count_ ep = Some true ->
  _dispatch (pre ++ ep :: post) mem scratch inpkt outpkt opt count_ =
  do r <- h mem scratch inpkt outpkt (id (hdr inpkt)); Some (Some r).
Proof.
  intros Hpre Hh Hm.
  induction Hpre as [|e pre [He1 He2] _ IH]; cbn [app _dispatch].
  - rewrite Hh, Hm. reflexivity.
  - destruct (handler e); [|congruence]. rewrite He2. exact IH.
Qed.

(** *** The synthesized response *)

Lemma coap_make_response_ok mem scratch pkt content content_len msgid tk rspcode ctype a :
  p scratch = Some a -> 2 <= len scratch ->
  0 <= a -> a + len scratch <= Z.of_nat (length mem) ->
  exists mem' pkt',
    coap_make_response OPTNUM_MOD mem scratch pkt content content_len msgid
                       (Some tk) rspcode ctype
    = Some (COAP_SUCCESS, mem', pkt') /\
    hdr pkt' = {| ver := 1; t := COAP_TYPE_ACK; tkl := uint8 (len tk);
                  code := uint8 rspcode; id := uint16 msgid |} /\
    tok pkt' = tk /\
    numopts pkt' = 1 /\
    opts pkt' 0 = {| num := optnum OPTNUM_MOD COAP_OPTION_CONTENT_FORMAT;
                     buf := {| p := Some a; len := 2 |} |} /\
    payload pkt' = {| p := content; len := content_len |}.
Proof.
  intros Hp Hlen Ha Hfit. unfold coap_make_response.
  replace (len scratch <? 2) with false by lia. rewrite Hp.
  unfold store.
  destruct (store_bytes_in_bounds mem a
              [byte_of_Z (Z.shiftr (Z.land (uint16 ctype) 65280) 8)])
    as (mem1 & Hs1 & Hl1); [lia|cbn [length]; lia|].
  rewrite Hs1.
  destruct (store_bytes_in_bounds mem1 (a + 1)
              [byte_of_Z (Z.land (uint16 ctype) 255)])
    as (mem2 & Hs2 & Hl2); [lia|cbn [length]; lia|].
  rewrite Hs2.
  do 2 eexists. split; [reflexivity|].
  repeat split.
Qed.

(** X16: with a scratch buffer shorter than two bytes
    [coap_make_response] returns [COAP_ERR_BUFFER_TOO_SMALL] without
    writing to the memory and leaves the packet half filled: the
    header, the token and the option count are set and the option
    points to the scratch buffer, the length of the option and the
    payload view are those the packet had before. *)
Theorem coap_make_response_small_scratch mem scratch pkt content content_len msgid tok_
      rspcode ctype :
  len scratch < 2 ->
  exists pkt',
    coap_make_response OPTNUM_MOD mem scratch pkt content content_len msgid
                       tok_ rspcode ctype
    = Some (COAP_ERR_BUFFER_TOO_SMALL, mem, pkt') /\
    hdr pkt' = {| ver := 1; t := COAP_TYPE_ACK;
                  tkl := match tok_ with Some tk => uint8 (len tk) | None => 0 end;
                  code := uint8 rspcode; id := uint16 msgid |} /\
    tok pkt' = match tok_ with Some tk => tk | None => tok pkt end /\
    numopts pkt' = 1 /\
    opts pkt' 0 = {| num := optnum OPTNUM_MOD COAP_OPTION_CONTENT_FORMAT;
                     buf := {| p := p scratch; len := len (buf (opts pkt 0)) |} |} /\
    payload pkt' = payload pkt.
Proof.
  intros Hlen. unfold coap_make_response.
  replace (len scratch <? 2) with true by lia.
  eexists. split; [reflexivity|]. destruct tok_; repeat split.
Qed.
End DispatcherProperties.

(** ** The status codes of the header and token stage *)

Section ParserStatus.

Variable MAXOPT : nat.
Variable OPTNUM_MOD : Z.
Variable abi : abi_t.

(** X5: on a memory that holds exactly the datagram, [coap_parse]
    returns [COAP_ERR_HEADER_TOO_SHORT] exactly for datagrams shorter
    than four bytes, [COAP_ERR_VERSION_NOT_1] exactly when there are
    four bytes and the version field is not 1, and
    [COAP_ERR_TOKEN_TOO_SHORT] exactly when the version is 1 and the
    token length field is above 8 or runs past the datagram. *)
Theorem coap_parse_header_status (mem : memory) (pkt : coap_packet_t) :
  let n := Z.of_nat (length mem) in
  exists rc pkt',
    coap_parse MAXOPT OPTNUM_MOD abi mem pkt 0 n = Some (rc, pkt') /\
    (rc = COAP_ERR_HEADER_TOO_SHORT <-> n < 4) /\
    (rc = COAP_ERR_VERSION_NOT_1 <->
       4 <= n /\ exists b0, load_u8 mem 0 = Some b0 /\ raw_ver abi b0 <> 1) /\
    (rc = COAP_ERR_TOKEN_TOO_SHORT <->
       4 <= n /\ exists b0, load_u8 mem 0 = Some b0 /\ raw_ver abi b0 = 1 /\
                  (8 < raw_tkl abi b0 \/ n < 4 + raw_tkl abi b0)).
Proof.
  intros n. subst n.
  destruct (Z.of_nat (length mem) <? 4) eqn:Hshort.
  { unfold coap_parse, _parse_header, sizeof_coap_raw_header_t. rewrite Hshort.
    cbn [is_success negb]. do 2 eexists. split; [reflexivity|].
    split; [split; [lia|reflexivity]|].
    split; (split; [discriminate|lia]). }
  assert (4 <= Z.of_nat (length mem)) as Hn by lia.
  destruct mem as [|b0 [|b1 [|b2 [|b3 rest]]]]; try (cbn [length] in Hn; lia).
  set (mem := b0 :: b1 :: b2 :: b3 :: rest) in *.
  assert (load_u8 mem 0 = Some (u8 b0)) as Hb0 by reflexivity.
  destruct (Z.eq_dec (raw_ver abi (u8 b0)) 1) as [Hver|Hver].
  2:{ unfold coap_parse, _parse_header, sizeof_coap_raw_header_t. rewrite Hshort, Hb0.
      change (load_u8 mem (0 + 1)) with (Some (u8 b1)).
      change (load_u8 mem (0 + 2)) with (Some (u8 b2)).
      change (load_u8 mem (0 + 3)) with (Some (u8 b3)).
      cbv zeta iota beta. cbn [ver].
      replace (raw_ver abi (u8 b0) =? 1) with false by lia.
      cbn [negb is_success]. cbv iota.
      do 2 eexists. split; [reflexivity|].
      split; [split; [discriminate|lia]|].
      split.
      - split; [intros _|reflexivity]. split; [lia|]. exists (u8 b0). auto.
      - split; [discriminate|]. intros (_ & b & Hb & Hv & _). congruence. }
  destruct ((8 <? raw_tkl abi (u8 b0)) || (Z.of_nat (length mem) <? 4 + raw_tkl abi (u8 b0)))
    eqn:Htok.
  { unfold coap_parse, _parse_header, sizeof_coap_raw_header_t. rewrite Hshort, Hb0.
    change (load_u8 mem (0 + 1)) with (Some (u8 b1)).
    change (load_u8 mem (0 + 2)) with (Some (u8 b2)).
    change (load_u8 mem (0 + 3)) with (Some (u8 b3)).
    cbv zeta iota beta. cbn [ver]. rewrite Hver.
    change (negb (1 =? 1)) with false. cbv iota. cbn [is_success negb]. cbv iota.
    unfold _parse_token, sizeof_coap_raw_header_t. cbn [hdr set_hdr tkl].
    replace ((4 + raw_tkl abi (u8 b0) >? Z.of_nat (length mem)) || (raw_tkl abi (u8 b0) >? 8))
      with true
      by (symmetry; apply orb_true_iff; apply orb_true_iff in Htok; lia).
    cbn [is_success negb]. cbv iota.
    do 2 eexists. split; [reflexivity|].
    split; [split; [discriminate|lia]|].
    split.
    - split; [discriminate|]. intros (_ & b & Hb & Hv). congruence.
    - split; [intros _|reflexivity]. split; [lia|]. exists (u8 b0).
      apply orb_true_iff in Htok. repeat split; auto; lia. }
  apply orb_false_iff in Htok.
  subst mem. rewrite (coap_parse_after_header MAXOPT OPTNUM_MOD abi) by lia.
  set (mem := b0 :: b1 :: b2 :: b3 :: rest) in *.
  match goal with
  | |- context [_parse_options_payload _ _ _ ?k _ _] =>
    destruct (_parse_options_payload_in_bounds MAXOPT OPTNUM_MOD mem k)
      as (rc & pkt' & Hp & Hrc)
  end.
  { cbn [hdr set_numopts set_tok set_hdr tkl]. apply raw_tkl_nonneg. }
  rewrite Hp. exists rc, pkt'. split; [reflexivity|].
  assert (rc <> COAP_ERR_HEADER_TOO_SHORT /\ rc <> COAP_ERR_VERSION_NOT_1 /\
          rc <> COAP_ERR_TOKEN_TOO_SHORT) as (N1 & N2 & N3).
  { repeat split; intros ->;
      repeat (destruct Hrc as [Hrc|Hrc]; try discriminate Hrc). }
  split; [split; [tauto|lia]|].
  split; (split; [tauto|]); intros (_ & b & Hb & Hv); rewrite Hb0 in Hb;
    injection Hb as <-; [tauto|lia].
Qed.

End ParserStatus.

(** ** The status codes of one option *)


Ltac note_uint16_all :=
  repeat match goal with
  | H : context [uint16 ?x] |- _ =>
    lazymatch goal with
    | _ : 0 <= uint16 x < 65536 |- _ => fail
    | _ => pose proof (uint16_range x)
    end
  | |- context [uint16 ?x] =>
    lazymatch goal with
    | _ : 0 <= uint16 x < 65536 |- _ => fail
    | _ => pose proof (uint16_range x)
    end
  end.



Section OptionStatus.

Variable OPTNUM_MOD : Z.


End OptionStatus.

(** ** The views of a parsed packet *)

Section ParsedViews.

Variable MAXOPT : nat.
Variable OPTNUM_MOD : Z.
Variable abi : abi_t.

Lemma parse_success_inj (o1 o2 : coap_option_t) (r1 r2 c1 c2 : Z) :
  Some (COAP_SUCCESS, o1, r1, c1) = Some (COAP_SUCCESS, o2, r2, c2) ->
  o1 = o2 /\ r1 = r2 /\ c1 = c2.
Proof. intros H. repeat split; congruence. Qed.

(** The value view of an option [_parse_option] accepts starts after the
    option's first byte and ends where the cursor is left, inside the
    window. *)
Lemma _parse_option_success_view mem o rd pc n o' rd' pc' :
  _parse_option OPTNUM_MOD mem o rd pc n = Some (COAP_SUCCESS, o', rd', pc') ->
  exists a,
    p (buf o') = Some a /\ pc < a /\ 0 <= len (buf o') /\
    a + len (buf o') = pc' /\ pc' <= pc + n.
Proof.
  unfold _parse_option. cbv zeta. intros H.
  destruct (n <? 1); [discriminate|].
  destruct (load_u8 mem pc) as [b0|] eqn:Hb0; [|discriminate].
  destruct (load_u8_some _ _ _ Hb0) as [_ Hr0].
  rewrite nibble_low in H.
  pose proof (Z.mod_pos_bound b0 16 ltac:(lia)).
  rewrite (uint16_small (b0 mod 16)) in H by lia.
  repeat first [ split_if_in H | split_load ]; try discriminate H;
    apply parse_success_inj in H; destruct H as (<- & <- & <-); cbn [p buf len];
    (eexists; split; [reflexivity|]); note_uint16_all; lia.
Qed.

Lemma _parse_options_loop_views mem end_ slots :
  forall pkt idx d pc pkt' idx' pc',
    _parse_options_loop OPTNUM_MOD slots mem end_ pkt idx d pc
      = Some (COAP_SUCCESS, pkt', idx', pc') ->
    idx <= idx' <= idx + Z.of_nat slots /\
    pc <= pc' /\ (pc <= end_ -> pc' <= end_) /\
    tok pkt' = tok pkt /\
    (forall j, j < idx -> opts pkt' j = opts pkt j) /\
    (forall j, idx <= j < idx' ->
       exists a, p (buf (opts pkt' j)) = Some a /\ pc < a /\
                 0 <= len (buf (opts pkt' j)) /\
                 a + len (buf (opts pkt' j)) <= pc') /\
    (forall i j, idx <= i < j -> j < idx' ->
       exists a b, p (buf (opts pkt' i)) = Some a /\
                   p (buf (opts pkt' j)) = Some b /\
                   a + len (buf (opts pkt' i)) < b).
Proof.
  induction slots as [|slots IH]; intros pkt idx d pc pkt' idx' pc' H.
  - cbn [_parse_options_loop] in H. injection H as <- <- <-.
    repeat split; intros; lia || reflexivity.
  - cbn [_parse_options_loop] in H.
    destruct (pc <? end_) eqn:Hlt.
    2:{ injection H as <- <- <-. repeat split; intros; lia || reflexivity. }
    destruct (load_u8 mem pc) as [b|]; [|discriminate].
    destruct (b =? 255) eqn:Hb; cbn [negb] in H.
    { injection H as <- <- <-. repeat split; intros; lia || reflexivity. }
    destruct (_parse_option OPTNUM_MOD mem (opts pkt idx) d pc (end_ - pc))
      as [[[[rc o] d1] pc1]|] eqn:Hpo; [|discriminate].
    destruct rc; cbn [is_success negb] in H; try discriminate.
    destruct (_parse_option_success_view _ _ _ _ _ _ _ _ Hpo)
      as (a & Ha & Hlo & Hlen & Hend & Hin).
    destruct (IH _ _ _ _ _ _ _ H)
      as (Hidx & Hpc & Hle & Htok & Hsame & Hview & Hord).
    assert (opts pkt' idx = o) as Hat.
    { rewrite Hsame by lia. cbn [opts set_opt]. rewrite Z.eqb_refl. reflexivity. }
    split; [lia|]. split; [lia|]. split; [lia|]. split; [exact Htok|].
    split; [|split].
    + intros j Hj. rewrite Hsame by lia. cbn [opts set_opt].
      replace (j =? idx) with false by lia. reflexivity.
    + intros j Hj. destruct (Z.eq_dec j idx) as [->|Hne].
      * rewrite Hat. exists a. repeat split; try assumption; lia.
      * destruct (Hview j ltac:(lia)) as (a' & Ha' & ? & ? & ?).
        exists a'. repeat split; try assumption; lia.
    + intros i j Hij Hj. destruct (Z.eq_dec i idx) as [->|Hne].
      * destruct (Hview j ltac:(lia)) as (b' & Hb' & ? & ? & ?).
        rewrite Hat. exists a, b'. repeat split; try assumption; lia.
      * apply Hord; lia.
Qed.




End ParsedViews.

(** ** What the parser writes *)

Section ParserFrame.

Variable MAXOPT : nat.
Variable OPTNUM_MOD : Z.
Variable abi : abi_t.

(** The option loop writes option slots only. *)
Lemma _parse_options_loop_frame mem end_ slots :
  forall pkt idx d pc rc pkt' idx' pc',
    _parse_options_loop OPTNUM_MOD slots mem end_ pkt idx d pc
      = Some (rc, pkt', idx', pc') ->
    hdr pkt' = hdr pkt /\ tok pkt' = tok pkt /\
    numopts pkt' = numopts pkt /\ payload pkt' = payload pkt.
Proof.
  induction slots as [|slots IH]; intros pkt idx d pc rc pkt' idx' pc' H;
    cbn [_parse_options_loop] in H.
  - injection H as <- <- <- <-. auto.
  - destruct (pc <? end_); [|injection H as <- <- <- <-; auto].
    destruct (load_u8 mem pc) as [b|]; [|discriminate].
    destruct (negb (b =? 255)); [|injection H as <- <- <- <-; auto].
    destruct (_parse_option OPTNUM_MOD mem (opts pkt idx) d pc (end_ - pc))
      as [[[[rc1 o] d1] pc1]|]; [|discriminate].
    destruct (negb (is_success rc1)).
    + injection H as <- <- <- <-. auto.
    + apply IH in H. exact H.
Qed.

(** A successful run of the option loop stores the same options
    whatever the packet held before. *)
Lemma _parse_options_loop_agree mem end_ slots :
  forall pkt1 pkt2 idx d pc r1 idx' pc',
    _parse_options_loop OPTNUM_MOD slots mem end_ pkt1 idx d pc
      = Some (COAP_SUCCESS, r1, idx', pc') ->
    exists r2,
      _parse_options_loop OPTNUM_MOD slots mem end_ pkt2 idx d pc
        = Some (COAP_SUCCESS, r2, idx', pc') /\
      idx <= idx' /\
      (forall i, i < idx -> opts r1 i = opts pkt1 i /\ opts r2 i = opts pkt2 i) /\
      (forall i, idx <= i < idx' -> opts r2 i = opts r1 i).
Proof.
  induction slots as [|slots IH]; intros pkt1 pkt2 idx d pc r1 idx' pc' H;
    cbn [_parse_options_loop] in H |- *.
  - injection H as <- <- <-. exists pkt2. split; [reflexivity|].
    split; [lia|]. split; intros; [auto|lia].
  - destruct (pc <? end_).
    2:{ injection H as <- <- <-. exists pkt2. split; [reflexivity|].
        split; [lia|]. split; intros; [auto|lia]. }
    destruct (load_u8 mem pc) as [b|]; [|discriminate].
    destruct (negb (b =? 255)).
    2:{ injection H as <- <- <-. exists pkt2. split; [reflexivity|].
        split; [lia|]. split; intros; [auto|lia]. }
    destruct (_parse_option OPTNUM_MOD mem (opts pkt1 idx) d pc (end_ - pc))
      as [[[[rc o] d1] pc1]|] eqn:Hpo; [|discriminate].
    destruct rc; cbn [is_success negb] in H; try discriminate.
    rewrite (_parse_option_success_slot _ _ _ (opts pkt2 idx) _ _ _ _ _ _ Hpo).
    cbn [is_success negb].
    destruct (IH _ (set_opt pkt2 idx o) _ _ _ _ _ _ H) as (r2 & Hr2 & Hidx & Hlow & Hsame).
    exists r2. split; [exact Hr2|]. split; [lia|]. split.
    + intros i Hi. destruct (Hlow i ltac:(lia)) as [H1 H2].
      rewrite H1, H2. cbn [opts set_opt].
      replace (i =? idx) with false by lia. auto.
    + intros i Hi. destruct (Z.eq_dec i idx) as [->|Hne]; [|apply Hsame; lia].
      destruct (Hlow idx ltac:(lia)) as [H1 H2]. rewrite H1, H2.
      cbn [opts set_opt]. rewrite Z.eqb_refl. reflexivity.
Qed.

Lemma _parse_header_success_any mem h1 h2 buf_ buflen h :
  _parse_header abi mem h1 buf_ buflen = Some (COAP_SUCCESS, h) ->
  _parse_header abi mem h2 buf_ buflen = Some (COAP_SUCCESS, h).
Proof.
  unfold _parse_header. intros H.
  destruct (buflen <? sizeof_coap_raw_header_t); [discriminate|].
  repeat split_load; try discriminate. exact H.
Qed.

(** X9: a successful parse overwrites everything it reports: the
    header, the token, the option count, the options below the count
    and the payload of the result are the same whatever the packet
    structure held before the call. *)
Theorem coap_parse_no_stale_data mem buf_ buflen pkt1 pkt2 r1 :
  coap_parse MAXOPT OPTNUM_MOD abi mem pkt1 buf_ buflen = Some (COAP_SUCCESS, r1) ->
  exists r2,
    coap_parse MAXOPT OPTNUM_MOD abi mem pkt2 buf_ buflen = Some (COAP_SUCCESS, r2) /\
    hdr r2 = hdr r1 /\ tok r2 = tok r1 /\ numopts r2 = numopts r1 /\
    payload r2 = payload r1 /\
    forall i, 0 <= i < numopts r1 -> opts r2 i = opts r1 i.
Proof.
  unfold coap_parse. intros H.
  destruct (_parse_header abi mem (hdr pkt1) buf_ buflen) as [[rc1 h]|] eqn:Hh;
    [|discriminate].
  destruct rc1; cbn [is_success negb] in H; try discriminate.
  rewrite (_parse_header_success_any _ _ (hdr pkt2) _ _ _ Hh).
  cbn [is_success negb].
  unfold _parse_token in H |- *. cbn [hdr set_hdr] in H |- *.
  destruct ((sizeof_coap_raw_header_t + tkl h >? buflen) || (tkl h >? 8));
    cbn [is_success negb] in H |- *; [discriminate|].
  unfold _parse_options_payload in H |- *.
  cbn [hdr set_numopts set_tok set_hdr] in H |- *.
  destruct (buf_ + sizeof_coap_raw_header_t + tkl h >? buf_ + buflen); [discriminate|].
  match type of H with
  | context [_parse_options_loop _ _ _ _ ?k _ _ _] => set (p1 := k) in *
  end.
  match goal with
  | |- context [_parse_options_loop _ _ _ _ ?k 0 _ _] => set (p2 := k) in *
  end.
  destruct (_parse_options_loop OPTNUM_MOD MAXOPT mem (buf_ + buflen) p1 0 0
              (buf_ + sizeof_coap_raw_header_t + tkl h))
    as [[[[rc q1] idx] pc]|] eqn:Hloop; [|discriminate].
  destruct rc; cbn [is_success negb] in H; try discriminate.
  destruct (_parse_options_loop_agree _ _ _ _ p2 _ _ _ _ _ _ Hloop)
    as (q2 & Hq2 & _ & _ & Hsame).
  rewrite Hq2. cbn [is_success negb].
  destruct (_parse_options_loop_frame _ _ _ _ _ _ _ _ _ _ _ Hloop) as (F1 & F2 & _ & _).
  destruct (_parse_options_loop_frame _ _ _ _ _ _ _ _ _ _ _ Hq2) as (G1 & G2 & _ & _).
  destruct (if pc + 1 <? buf_ + buflen
            then option_map (fun b => b =? 255) (load_u8 mem pc)
            else Some false) as [m|]; [|discriminate].
  destruct m; injection H as <-; (eexists; split; [reflexivity|]);
    cbn [hdr tok numopts opts payload set_payload set_numopts];
    rewrite F1, F2, G1, G2; subst p1 p2;
    cbn [hdr tok set_numopts set_tok set_hdr]; repeat split; try reflexivity;
    intros i Hi; apply Hsame; lia.
Qed.

(** X10: when [coap_parse] fails at an option, the option count of
    the packet is [MAXOPT], however many options were decoded before
    the one in error. *)
Theorem coap_parse_option_error_numopts mem buf_ buflen pkt rc pkt' :
  coap_parse MAXOPT OPTNUM_MOD abi mem pkt buf_ buflen = Some (rc, pkt') ->
  rc = COAP_ERR_OPTION_TOO_SHORT_FOR_HEADER \/ rc = COAP_ERR_OPTION_DELTA_INVALID \/
  rc = COAP_ERR_OPTION_LEN_INVALID \/ rc = COAP_ERR_OPTION_TOO_BIG \/
  rc = COAP_ERR_OPTION_OVERRUNS_PACKET ->
  numopts pkt' = Z.of_nat MAXOPT.
Proof.
  unfold coap_parse. intros H Hrc.
  destruct (_parse_header abi mem (hdr pkt) buf_ buflen) as [[rc1 h]|] eqn:Hh;
    [|discriminate].
  assert (rc1 = COAP_SUCCESS \/ rc1 = COAP_ERR_HEADER_TOO_SHORT \/
          rc1 = COAP_ERR_VERSION_NOT_1) as Hrc1.
  { unfold _parse_header in Hh.
    destruct (buflen <? sizeof_coap_raw_header_t); [injection Hh as <- _; tauto|].
    repeat split_load; try discriminate. cbv zeta in Hh.
    split_if_in Hh; injection Hh as <- _; tauto. }
  destruct (negb (is_success rc1)) eqn:Hs1.
  { injection H as <- _. destruct Hrc1 as [->|[->| ->]]; [discriminate Hs1| |];
      repeat (destruct Hrc as [Hrc|Hrc]; try discriminate Hrc). }
  unfold _parse_token in H. cbn [hdr set_hdr] in H.
  destruct ((sizeof_coap_raw_header_t + tkl h >? buflen) || (tkl h >? 8));
    cbn [is_success negb] in H.
  { injection H as <- _. repeat (destruct Hrc as [Hrc|Hrc]; try discriminate Hrc). }
  unfold _parse_options_payload in H.
  cbn [hdr set_numopts set_tok set_hdr] in H.
  destruct (buf_ + sizeof_coap_raw_header_t + tkl h >? buf_ + buflen).
  { cbn [is_success negb] in H. injection H as _ <-. reflexivity. }
  match type of H with
  | context [_parse_options_loop _ _ _ _ ?k _ _ _] => set (p1 := k) in *
  end.
  destruct (_parse_options_loop OPTNUM_MOD MAXOPT mem (buf_ + buflen) p1 0 0
              (buf_ + sizeof_coap_raw_header_t + tkl h))
    as [[[[rc2 q1] idx] pc]|] eqn:Hloop; [|discriminate].
  destruct (_parse_options_loop_frame _ _ _ _ _ _ _ _ _ _ _ Hloop) as (_ & _ & F3 & _).
  destruct (negb (is_success rc2)) eqn:Hs2.
  { cbn [is_success negb] in H. rewrite Hs2 in H. injection H as _ <-.
    rewrite F3. reflexivity. }
  destruct (if pc + 1 <? buf_ + buflen
            then option_map (fun b => b =? 255) (load_u8 mem pc)
            else Some false) as [m|]; [|discriminate].
  destruct m; cbn [is_success negb] in H; injection H as <- _;
    repeat (destruct Hrc as [Hrc|Hrc]; try discriminate Hrc).
Qed.

End ParserFrame.

(** ** Option lookup *)

Lemma uint8_add_l a b : uint8 (uint8 a + b) = uint8 (a + b).
Proof. unfold uint8. apply Z.add_mod_idemp_l. lia. Qed.

(** Inside the block: the pointer is kept and the counter goes up by
    one for every further option with the number, until the first
    option with another number or the end of the array. *)
Lemma _find_options_loop_block pkt num_ todo :
  forall i f c0,
    0 <= c0 < 256 ->
    exists k,
      _find_options_loop todo pkt num_ i (Some f) c0 = (Some f, uint8 (c0 + k)) /\
      0 <= k <= Z.of_nat todo /\
      (forall j, i <= j < i + k -> num (opts pkt j) = num_) /\
      (k < Z.of_nat todo -> num (opts pkt (i + k)) <> num_).
Proof.
  induction todo as [|todo IH]; intros i f c0 Hc0; cbn [_find_options_loop].
  - exists 0. rewrite Z.add_0_r, uint8_small by lia.
    split; [reflexivity|]. split; [lia|]. split; intros; lia.
  - destruct (num (opts pkt i) =? num_) eqn:E.
    + destruct (IH (i + 1) f (uint8 (c0 + 1))) as (k & Hk & Hr & Hall & Hstop).
      { apply Z.mod_pos_bound. reflexivity. }
      exists (k + 1). rewrite Hk, uint8_add_l.
      split; [do 2 f_equal; lia|]. split; [lia|]. split.
      * intros j Hj. destruct (Z.eq_dec j i) as [->|Hne]; [lia|apply Hall; lia].
      * intros Hlt. replace (i + (k + 1)) with (i + 1 + k) by lia. apply Hstop. lia.
    + exists 0. rewrite Z.add_0_r, uint8_small by lia.
      assert (num (opts pkt (i + 0)) <> num_) by (rewrite Z.add_0_r; lia).
      destruct (num (opts pkt i) >? num_);
        (split; [reflexivity|]); (split; [lia|]); (split; [intros; lia|auto]).
Qed.

(** Before the block: options with a smaller number are passed over;
    the first option with a larger number ends the search. *)
Lemma _find_options_loop_search pkt num_ todo :
  forall i,
    (_find_options_loop todo pkt num_ i None 0 = (None, 0) /\
     exists m, i <= m <= i + Z.of_nat todo /\
               (forall j, i <= j < m -> num (opts pkt j) < num_) /\
               (m < i + Z.of_nat todo -> num_ < num (opts pkt m))) \/
    (exists f k,
       _find_options_loop todo pkt num_ i None 0 = (Some f, uint8 k) /\
       i <= f /\ 1 <= k /\ f + k <= i + Z.of_nat todo /\
       (forall j, i <= j < f -> num (opts pkt j) < num_) /\
       (forall j, f <= j < f + k -> num (opts pkt j) = num_) /\
       (f + k < i + Z.of_nat todo -> num (opts pkt (f + k)) <> num_)).
Proof.
  induction todo as [|todo IH]; intros i; cbn [_find_options_loop].
  - left. split; [reflexivity|]. exists i. split; [lia|]. split; intros; lia.
  - destruct (num (opts pkt i) =? num_) eqn:E.
    + right.
      destruct (_find_options_loop_block pkt num_ todo (i + 1) i (uint8 (0 + 1)))
        as (k & Hk & Hr & Hall & Hstop).
      { apply Z.mod_pos_bound. reflexivity. }
      exists i, (k + 1). rewrite Hk, uint8_add_l.
      split; [do 2 f_equal; lia|]. split; [lia|]. split; [lia|]. split; [lia|].
      split; [intros; lia|]. split.
      * intros j Hj. destruct (Z.eq_dec j i) as [->|Hne]; [lia|apply Hall; lia].
      * intros Hlt. replace (i + (k + 1)) with (i + 1 + k) by lia. apply Hstop. lia.
    + destruct (num (opts pkt i) >? num_) eqn:G.
      * left. split; [reflexivity|]. exists i. split; [lia|].
        split; intros; lia.
      * destruct (IH (i + 1)) as [(Hr & m & Hm & Hlow & Hhigh)|
                                  (f & k & Hr & Hf & Hk & Hfit & Hlow & Hall & Hstop)].
        -- left. split; [exact Hr|]. exists m. split; [lia|]. split.
           ++ intros j Hj. destruct (Z.eq_dec j i) as [->|Hne]; [lia|apply Hlow; lia].
           ++ intros Hlt. apply Hhigh. lia.
        -- right. exists f, k. split; [exact Hr|].
           split; [lia|]. split; [lia|]. split; [lia|]. split.
           ++ intros j Hj. destruct (Z.eq_dec j i) as [->|Hne]; [lia|apply Hlow; lia].
           ++ split; [exact Hall|]. intros Hlt. apply Hstop. lia.
Qed.

(** X12: when no option of the packet has the number, the lookup
    returns the null pointer and the count 0. *)
Theorem _find_options_absent pkt num_ :
  (forall i, 0 <= i < numopts pkt -> num (opts pkt i) <> num_) ->
  _find_options pkt num_ = (None, 0).
Proof.
  intros Habs. unfold _find_options.
  destruct (_find_options_loop_search pkt num_ (Z.to_nat (numopts pkt)) 0)
    as [(Hr & _)|(f & k & _ & Hf & Hk & Hfit & _ & Hall & _)]; [exact Hr|].
  exfalso. apply (Habs f); [lia|]. apply Hall. lia.
Qed.

(** X13: whatever the order of the options, a pointer the lookup
    returns designates the first option with the number, every option
    before it has a smaller number, and the count is the length,
    reduced to eight bits, of the unbroken block of options with the
    number that starts there. *)
Theorem _find_options_found pkt num_ f c :
  _find_options pkt num_ = (Some f, c) ->
  exists k,
    c = uint8 k /\ 1 <= k /\ 0 <= f /\ f + k <= numopts pkt /\
    (forall j, 0 <= j < f -> num (opts pkt j) < num_) /\
    (forall j, f <= j < f + k -> num (opts pkt j) = num_) /\
    (f + k < numopts pkt -> num (opts pkt (f + k)) <> num_).
Proof.
  unfold _find_options. intros H.
  destruct (_find_options_loop_search pkt num_ (Z.to_nat (numopts pkt)) 0)
    as [(Hr & _)|(f' & k & Hr & Hf & Hk & Hfit & Hlow & Hall & Hstop)];
    rewrite Hr in H; [discriminate|].
  injection H as <- <-. exists k.
  split; [reflexivity|]. split; [lia|]. split; [lia|]. split; [lia|].
  split; [exact Hlow|]. split; [exact Hall|]. intros Hlt. apply Hstop. lia.
Qed.

(** X14: on a packet whose option numbers do not decrease the lookup
    finds every option with the number: they are exactly the options
    of the returned block, and the null pointer means there is none. *)
Theorem _find_options_sorted pkt num_ :
  (forall i j, 0 <= i <= j -> j < numopts pkt ->
     num (opts pkt i) <= num (opts pkt j)) ->
  match _find_options pkt num_ with
  | (Some f, c) =>
    exists k, c = uint8 k /\ 1 <= k /\
      forall i, 0 <= i < numopts pkt ->
        (num (opts pkt i) = num_ <-> f <= i < f + k)
  | (None, c) =>
    c = 0 /\ forall i, 0 <= i < numopts pkt -> num (opts pkt i) <> num_
  end.
Proof.
  intros Hsorted. unfold _find_options.
  destruct (_find_options_loop_search pkt num_ (Z.to_nat (numopts pkt)) 0)
    as [(Hr & m & Hm & Hlow & Hhigh)|(f & k & Hr & Hf & Hk & Hfit & Hlow & Hall & Hstop)];
    rewrite Hr.
  - split; [reflexivity|]. intros i Hi.
    destruct (Z.lt_ge_cases i m) as [Hlt|Hge].
    + specialize (Hlow i ltac:(lia)). lia.
    + specialize (Hhigh ltac:(lia)).
      specialize (Hsorted m i ltac:(lia) ltac:(lia)). lia.
  - exists k. split; [reflexivity|]. split; [lia|].
    intros i Hi. split.
    + intros Hnum.
      destruct (Z.lt_ge_cases i f) as [Hlt|Hge].
      { specialize (Hlow i ltac:(lia)). lia. }
      destruct (Z.lt_ge_cases i (f + k)) as [Hin|Hout]; [lia|].
      exfalso. apply Hstop; [lia|].
      pose proof (Hsorted (f + k - 1) (f + k) ltac:(lia) ltac:(lia)) as H1.
      pose proof (Hsorted (f + k) i ltac:(lia) ltac:(lia)) as H2.
      rewrite (Hall (f + k - 1)) in H1 by lia. lia.
    + intros Hin. apply Hall. lia.
Qed.

(** ** Dispatch on the path of the request *)

Lemma filter_none {A : Type} (P : A -> bool) l :
  (forall x, In x l -> P x = false) -> filter P l = [].
Proof.
  induction l as [|x l IH]; intros H; [reflexivity|].
  cbn [filter]. rewrite (H x (or_introl eq_refl)). apply IH.
  intros y Hy. apply H. right. exact Hy.
Qed.

Lemma filter_all {A : Type} (P : A -> bool) l :
  (forall x, In x l -> P x = true) -> filter P l = l.
Proof.
  induction l as [|x l IH]; intros H; [reflexivity|].
  cbn [filter]. rewrite (H x (or_introl eq_refl)). f_equal. apply IH.
  intros y Hy. apply H. right. exact Hy.
Qed.

Lemma map_seq_shift {A : Type} (g : nat -> A) k :
  forall a, map g (seq a k) = map (fun j => g (a + j)%nat) (seq 0 k).
Proof.
  induction k as [|k IH]; intros a; [reflexivity|].
  cbn [seq map]. rewrite Nat.add_0_r. f_equal.
  rewrite (IH (S a)), <- (seq_shift k 0), map_map.
  apply map_ext. intros j. f_equal. lia.
Qed.

(** Filtering an indexed list whose accepted entries are those of the
    indices [a .. a+k-1] leaves that block. *)
Lemma filter_map_seq_block {A : Type} (g : nat -> A) (P : A -> bool) (a k n : nat) :
  (a + k <= n)%nat ->
  (forall i, (i < n)%nat -> P (g i) = true <-> (a <= i < a + k)%nat) ->
  filter P (map g (seq 0 n)) = map (fun j => g (a + j)%nat) (seq 0 k).
Proof.
  intros Hfit Hiff.
  replace n with (a + (k + (n - a - k)))%nat by lia.
  rewrite !seq_app, !map_app, !filter_app. cbn [Nat.add].
  rewrite (filter_none P (map g (seq 0 a))).
  2:{ intros x Hx. apply in_map_iff in Hx. destruct Hx as (i & <- & Hi).
      apply in_seq in Hi. destruct (P (g i)) eqn:E; [|reflexivity].
      apply Hiff in E; lia. }
  rewrite (filter_none P (map g (seq (a + k) (n - a - k)))).
  2:{ intros x Hx. apply in_map_iff in Hx. destruct Hx as (i & <- & Hi).
      apply in_seq in Hi. destruct (P (g i)) eqn:E; [|reflexivity].
      apply Hiff in E; lia. }
  rewrite (filter_all P (map g (seq a k))).
  2:{ intros x Hx. apply in_map_iff in Hx. destruct Hx as (i & <- & Hi).
      apply in_seq in Hi. apply Hiff; lia. }
  cbn [app]. rewrite app_nil_r. apply map_seq_shift.
Qed.

(** On a packet whose option numbers do not decrease, [_find_options]
    returns the URI-Path options of the packet: the null pointer when
    there is none, and otherwise the index of the first together with
    their number, reduced to eight bits. *)
Lemma _find_options_uri_path pkt :
  options_sorted pkt ->
  (uri_path_options pkt = [] /\
   _find_options pkt COAP_OPTION_URI_PATH = (None, 0)) \/
  (exists f k,
     0 <= f /\ (0 < k)%nat /\
     _find_options pkt COAP_OPTION_URI_PATH = (Some f, uint8 (Z.of_nat k)) /\
     uri_path_options pkt = map (fun j => opts pkt (f + Z.of_nat j)) (seq 0 k)).
Proof.
  intros Hsorted. unfold _find_options, uri_path_options, packet_opts.
  destruct (_find_options_loop_search pkt COAP_OPTION_URI_PATH
              (Z.to_nat (numopts pkt)) 0)
    as [(Hr & m & Hm & Hlow & Hhigh)|(f & k & Hr & Hf & Hk & Hfit & Hlow & Hall & Hstop)].
  - left. split; [|exact Hr].
    apply filter_none. intros x Hx.
    apply in_map_iff in Hx. destruct Hx as (i & <- & Hi). apply in_seq in Hi.
    apply Z.eqb_neq.
    destruct (Z.lt_ge_cases (Z.of_nat i) m) as [Hlt|Hge].
    + specialize (Hlow (Z.of_nat i) ltac:(lia)). lia.
    + specialize (Hhigh ltac:(lia)).
      specialize (Hsorted m (Z.of_nat i) ltac:(lia) ltac:(lia)). lia.
  - right. exists f, (Z.to_nat k). split; [lia|]. split; [lia|].
    rewrite Z2Nat.id by lia. split; [exact Hr|].
    rewrite (filter_map_seq_block (fun i => opts pkt (Z.of_nat i)) _
               (Z.to_nat f) (Z.to_nat k) (Z.to_nat (numopts pkt))).
    + apply map_ext. intros j. f_equal. lia.
    + lia.
    + intros i Hi. rewrite Z.eqb_eq. split.
      * intros Hnum.
        destruct (Z.lt_ge_cases (Z.of_nat i) f) as [Hlt|Hge].
        { specialize (Hlow (Z.of_nat i) ltac:(lia)). lia. }
        destruct (Z.lt_ge_cases (Z.of_nat i) (f + k)) as [Hin|Hout]; [lia|].
        exfalso. apply Hstop; [lia|].
        pose proof (Hsorted (f + k - 1) (f + k) ltac:(lia) ltac:(lia)) as H1.
        pose proof (Hsorted (f + k) (Z.of_nat i) ltac:(lia) ltac:(lia)) as H2.
        rewrite (Hall (f + k - 1)) in H1 by lia. lia.
      * intros Hin. apply Hall. lia.
Qed.

(** The segments of the request's path, read through the options of
    the run. *)
Lemma Forall2_map_seq {A B : Type} (R : A -> B -> Prop) (g : nat -> A) k :
  forall s l,
    Forall2 R (map g (seq s k)) l ->
    length l = k /\
    forall j, (j < k)%nat -> exists b, nth_error l j = Some b /\ R (g (s + j)%nat) b.
Proof.
  induction k as [|k IH]; intros s l H.
  - inversion H. split; [reflexivity|]. intros j Hj. lia.
  - cbn [seq map] in H. inversion H as [|a b l1 l2 Hab Hrest]; subst.
    destruct (IH _ _ Hrest) as [Hlen Hnth].
    split; [cbn [length]; lia|]. intros [|j] Hj.
    + exists b. rewrite Nat.add_0_r. split; [reflexivity|exact Hab].
    + destruct (Hnth j ltac:(lia)) as (b' & Hb' & HR).
      exists b'. split; [exact Hb'|].
      replace (s + S j)%nat with (S s + j)%nat by lia. exact HR.
Qed.

Section RequestPath.

Variable mem : memory.
Variable inpkt : coap_packet_t.
Variable segs : list (list byte).
Variable f : Z.
Variable k : nat.

Hypothesis Hf : 0 <= f.
Hypothesis Hrun :
  uri_path_options inpkt = map (fun j => opts inpkt (f + Z.of_nat j)) (seq 0 k).
Hypothesis Hpath : request_path mem inpkt segs.

Lemma request_path_length : length segs = k.
Proof.
  unfold request_path in Hpath. rewrite Hrun in Hpath.
  apply (Forall2_map_seq _ _ _ _ _ Hpath).
Qed.

Lemma request_path_segment j :
  0 <= j < Z.of_nat k ->
  exists s, nth_error segs (Z.to_nat j) = Some s /\
            len (buf (opts inpkt (f + j))) = strlen s /\
            view_bytes mem (buf (opts inpkt (f + j))) = Some s.
Proof.
  intros Hj. unfold request_path in Hpath. rewrite Hrun in Hpath.
  destruct (Forall2_map_seq _ _ _ _ _ Hpath) as [_ Hnth].
  destruct (Hnth (Z.to_nat j) ltac:(lia)) as (s & Hs & Hlen & Hview).
  cbn [Nat.add] in Hlen, Hview. rewrite Z2Nat.id in Hlen, Hview by lia.
  exists s. auto.
Qed.

(** An endpoint that matches the request is one the code's comparison
    accepts. *)
Lemma endpoint_matches_serves ep :
  endpoint_matches_request inpkt segs ep ->
  endpoint_serves mem inpkt f (Z.of_nat k) ep.
Proof.
  intros (Hm & Hc & He). pose proof request_path_length as Hlen.
  split; [exact Hm|]. split; [lia|].
  intros i Hi. destruct (request_path_segment i Hi) as (s & Hs & Hl & Hv).
  exists s. rewrite He. auto.
Qed.

(** And conversely, for an endpoint whose path lists [count] segments. *)
Lemma endpoint_serves_matches ep :
  path_ok ep ->
  endpoint_serves mem inpkt f (Z.of_nat k) ep ->
  endpoint_matches_request inpkt segs ep.
Proof.
  intros [Hcount _] (Hm & Hc & Hall). pose proof request_path_length as Hlen.
  split; [exact Hm|]. split; [lia|].
  apply nth_error_ext. intros n.
  destruct (Nat.lt_ge_cases n k) as [Hlt|Hge].
  - destruct (Hall (Z.of_nat n) ltac:(lia)) as (s & Hs & _ & Hv).
    destruct (request_path_segment (Z.of_nat n) ltac:(lia)) as (s' & Hs' & _ & Hv').
    rewrite Nat2Z.id in Hs, Hs'. congruence.
  - transitivity (@None (list byte)); [|symmetry]; apply nth_error_None; lia.
Qed.

(** The comparison of an endpoint with the request runs to its end. *)
Lemma _match_segments_some ep todo :
  forall i,
    0 <= i ->
    i + Z.of_nat todo <= Z.of_nat k ->
    Z.of_nat k <= Z.of_nat (length (elems (path ep))) ->
    exists r, _match_segments todo mem inpkt f ep i = Some r.
Proof.
  induction todo as [|todo IH]; intros i Hi Hfit Helems; cbn [_match_segments].
  - eexists. reflexivity.
  - destruct (nth_error (elems (path ep)) (Z.to_nat i)) as [s|] eqn:Hs.
    2:{ apply nth_error_None in Hs. lia. }
    destruct (negb (len (buf (opts inpkt (f + i))) =? strlen s));
      [eexists; reflexivity|].
    destruct (request_path_segment i ltac:(lia)) as (s' & _ & _ & Hv).
    rewrite Hv.
    destruct (negb (bytes_eqb s s')); [eexists; reflexivity|].
    apply IH; lia.
Qed.

(** An endpoint that does not match the request is passed over. *)
Lemma _endpoint_matches_false ep :
  path_ok ep ->
  ~ endpoint_matches_request inpkt segs ep ->
  _endpoint_matches mem inpkt f (Z.of_nat k) ep = Some false.
Proof.
  intros Hok Hno.
  destruct (_endpoint_matches mem inpkt f (Z.of_nat k) ep) as [[|]|] eqn:E.
  - exfalso. apply Hno. apply (endpoint_serves_matches _ Hok).
    apply _endpoint_matches_true_iff; [lia|exact E].
  - reflexivity.
  - exfalso. unfold _endpoint_matches in E.
    destruct ((method ep =? code (hdr inpkt)) && (Z.of_nat k =? count (path ep)))
      eqn:T; [|discriminate].
    apply andb_true_iff in T. destruct T as [_ T]. apply Z.eqb_eq in T.
    destruct Hok as [Hcount _].
    destruct (_match_segments_some ep (Z.to_nat (Z.of_nat k)) 0) as [r Hr];
      [lia|lia|lia|].
    rewrite Hr in E. discriminate.
Qed.

Lemma _endpoint_matches_true ep :
  endpoint_matches_request inpkt segs ep ->
  _endpoint_matches mem inpkt f (Z.of_nat k) ep = Some true.
Proof.
  intros Hm. apply _endpoint_matches_true_iff; [lia|].
  apply endpoint_matches_serves. exact Hm.
Qed.

Lemma _dispatch_table_no_match scratch outpkt endpoints :
  Forall path_ok (table_entries endpoints) ->
  Forall (fun ep => ~ endpoint_matches_request inpkt segs ep)
         (table_entries endpoints) ->
  _dispatch endpoints mem scratch inpkt outpkt f (Z.of_nat k) = Some None.
Proof.
  induction endpoints as [|ep rest IH]; cbn [table_entries _dispatch];
    intros Hok Hno; [reflexivity|].
  destruct (handler ep); [|reflexivity].
  inversion Hok; subst. inversion Hno; subst.
  rewrite _endpoint_matches_false by assumption. apply IH; assumption.
Qed.

End RequestPath.

(** *** The path of a parsed request *)

(** A view that lies inside the memory can be read. *)
Lemma view_bytes_in_bounds mem a l :
  0 <= a -> 0 <= l -> a + l <= Z.of_nat (length mem) ->
  exists s, view_bytes mem {| p := Some a; len := l |} = Some s /\ l = strlen s.
Proof.
  intros Ha Hl Hfit. unfold view_bytes. cbn [len p].
  destruct (l <=? 0) eqn:E.
  - exists []. split; [reflexivity|]. cbn. lia.
  - unfold load_bytes.
    replace ((a <? 0) || (l <? 0) || (Z.of_nat (length mem) <? a + l)) with false.
    2:{ symmetry. rewrite !orb_false_iff. repeat split; apply Z.ltb_ge; lia. }
    eexists. split; [reflexivity|].
    unfold strlen. rewrite length_firstn, length_skipn. lia.
Qed.

Lemma Forall2_filter_map {A B : Type} (R : A -> B -> Prop) (P : A -> bool) l :
  (forall x, In x l -> exists y, R x y) ->
  exists l', Forall2 R (filter P l) l'.
Proof.
  induction l as [|x l IH]; intros H; cbn [filter].
  - exists []. constructor.
  - destruct IH as [l' Hl']; [intros y Hy; apply H; right; exact Hy|].
    destruct (P x); [|exists l'; exact Hl'].
    destruct (H x (or_introl eq_refl)) as [y Hy].
    exists (y :: l'). constructor; assumption.
Qed.

Section ParsedRequest.

Variable MAXOPT : nat.
Variable OPTNUM_MOD : Z.
Variable abi : abi_t.

Lemma raw_id_range b2 b3 :
  0 <= b2 < 256 -> 0 <= b3 < 256 -> 0 <= raw_id abi b2 b3 < 65536.
Proof. unfold raw_id. destruct abi; lia. Qed.

(** A request [coap_parse] returns for a datagram at the start of the
    memory has a path, whose segments are the values of its URI-Path
    options, and an id below 2^16. *)
Lemma coap_parse_request_path mem pkt n inpkt :
  n <= Z.of_nat (length mem) ->
  coap_parse MAXOPT OPTNUM_MOD abi mem pkt 0 n = Some (COAP_SUCCESS, inpkt) ->
  0 <= id (hdr inpkt) < 65536 /\
  exists segs, request_path mem inpkt segs.
Proof.
  intros Hn H. unfold coap_parse in H.
  destruct (_parse_header abi mem (hdr pkt) 0 n) as [[rc1 h]|] eqn:Hh; [|discriminate].
  destruct rc1; cbn [is_success negb] in H; try discriminate.
  assert (0 <= id h < 65536 /\ 0 <= tkl h) as [Hid Htkl].
  { unfold _parse_header in Hh.
    destruct (n <? sizeof_coap_raw_header_t); [discriminate|].
    destruct (load_u8 mem 0) as [b0|] eqn:E0; [|discriminate].
    destruct (load_u8 mem (0 + 1)) as [b1|]; [|discriminate].
    destruct (load_u8 mem (0 + 2)) as [b2|] eqn:E2; [|discriminate].
    destruct (load_u8 mem (0 + 3)) as [b3|] eqn:E3; [|discriminate].
    cbv zeta in Hh. split_if_in Hh; [discriminate|].
    injection Hh as <-. cbn [id tkl].
    apply load_u8_some in E0, E2, E3.
    split; [apply raw_id_range; lia|].
    unfold raw_tkl. destruct abi; [apply Z.mod_pos_bound; lia|apply Z.div_pos; lia]. }
  unfold _parse_token, sizeof_coap_raw_header_t in H. cbn [hdr set_hdr] in H.
  destruct ((4 + tkl h >? n) || (tkl h >? 8)) eqn:Htok; cbn [is_success negb] in H;
    [discriminate|].
  apply orb_false_iff in Htok. destruct Htok as [Hfit _].
  assert (4 + tkl h <= n) as Hfit' by lia. clear Hfit.
  unfold _parse_options_payload, sizeof_coap_raw_header_t in H.
  cbn [hdr set_numopts set_tok set_hdr] in H. rewrite !Z.add_0_l in H.
  destruct (4 + tkl h >? n); [discriminate|].
  match type of H with
  | context [_parse_options_loop _ _ _ _ ?k _ _ _] => set (pkt3 := k) in *
  end.
  destruct (_parse_options_loop OPTNUM_MOD MAXOPT mem n pkt3 0 0 (4 + tkl h))
    as [[[[rc pkt4] idx] p1]|] eqn:Hloop; [|discriminate].
  destruct rc; cbn [is_success negb] in H; try discriminate.
  pose proof (_parse_options_loop_hdr _ _ _ _ _ _ _ _ _ _ _ _ Hloop) as Hh4.
  destruct (_parse_options_loop_views _ _ _ _ _ _ _ _ _ _ _ Hloop)
    as (Hidx & Hpc & Hend & _ & _ & Hviews & _).
  specialize (Hend Hfit').
  assert (hdr inpkt = h /\ numopts inpkt = idx /\ opts inpkt = opts pkt4)
    as (Hhdr & Hnum & Hopts).
  { destruct (p1 + 1 <? n).
    - destruct (load_u8 mem p1) as [b|]; [|discriminate]. cbn [option_map] in H.
      destruct (b =? 255); injection H as <-;
        cbn [hdr numopts opts set_payload set_numopts]; rewrite Hh4;
        subst pkt3; cbn [hdr set_numopts set_tok set_hdr]; auto.
    - injection H as <-.
      cbn [hdr numopts opts set_payload set_numopts]; rewrite Hh4;
        subst pkt3; cbn [hdr set_numopts set_tok set_hdr]; auto. }
  rewrite Hhdr. split; [exact Hid|].
  unfold request_path, uri_path_options, packet_opts.
  apply Forall2_filter_map. intros o Ho.
  apply in_map_iff in Ho. destruct Ho as (i & <- & Hi). apply in_seq in Hi.
  rewrite Hopts.
  destruct (Hviews (Z.of_nat i) ltac:(lia)) as (a & Ha & Hlow & Hlen & Hhigh).
  destruct (view_bytes_in_bounds mem a (len (buf (opts pkt4 (Z.of_nat i)))))
    as (s & Hs & Hl); [lia|lia|lia|].
  exists s. split; [exact Hl|].
  destruct (buf (opts pkt4 (Z.of_nat i))) as [p0 l0]. cbn [p len] in *.
  subst p0. exact Hs.
Qed.

End ParsedRequest.

Section Dispatch.

Variable OPTNUM_MOD : Z.
Variable COAP_CONTENTTYPE_NONE : Z.
Variable int_of_error : coap_error_t -> Z.

(** C6 as amended: for a table with well-formed paths and a request
    whose option numbers do not decrease and whose path, the values of
    all its URI-Path options, has fewer than 256 segments, when no
    entry of the table matches (equal method code, equal segment count,
    byte-equal segments) and the scratch buffer holds at least two
    bytes, [coap_handle_request] fills the output packet as an ACK with
    code 0x84 (4.04), the id and the token of the request, and an empty
    payload. *)
Theorem coap_handle_request_not_found endpoints mem scratch inpkt outpkt segs a :
  options_sorted inpkt ->
  request_path mem inpkt segs ->
  Z.of_nat (length segs) < 256 ->
  Forall path_ok (table_entries endpoints) ->
  Forall (fun ep => ~ endpoint_matches_request inpkt segs ep)
         (table_entries endpoints) ->
  p scratch = Some a -> 2 <= len scratch ->
  0 <= a -> a + len scratch <= Z.of_nat (length mem) ->
  0 <= id (hdr inpkt) < 65536 ->
  exists mem' outpkt',
    coap_handle_request OPTNUM_MOD COAP_CONTENTTYPE_NONE int_of_error
                        endpoints mem scratch inpkt outpkt
    = Some (int_of_error COAP_SUCCESS, mem', scratch, outpkt') /\
    t (hdr outpkt') = COAP_TYPE_ACK /\
    code (hdr outpkt') = 0x84 /\
    id (hdr outpkt') = id (hdr inpkt) /\
    tok outpkt' = tok inpkt /\
    payload outpkt' = {| p := None; len := 0 |}.
Proof.
  intros Hsorted Hpath Hfew Hok Hnone Hp Hlen Ha Hfit Hid.
  unfold coap_handle_request.
  assert (match fst (_find_options inpkt COAP_OPTION_URI_PATH) with
          | Some first =>
            _dispatch endpoints mem scratch inpkt outpkt first
                      (snd (_find_options inpkt COAP_OPTION_URI_PATH))
          | None => Some None
          end = Some None) as Hd.
  { destruct (_find_options_uri_path inpkt Hsorted)
      as [(_ & ->)|(f & k & Hf & Hk & -> & Hrun)]; [reflexivity|].
    cbn [fst snd].
    pose proof (request_path_length mem inpkt segs f k Hrun Hpath) as Hl.
    rewrite uint8_small by lia.
    apply (_dispatch_table_no_match mem inpkt segs f k Hrun Hpath); assumption. }
  destruct (_find_options inpkt COAP_OPTION_URI_PATH) as [opt count_].
  cbn [fst snd] in Hd. rewrite Hd.
  destruct (coap_make_response_ok OPTNUM_MOD mem scratch outpkt None 0 (id (hdr inpkt))
              (tok inpkt) COAP_RSPCODE_NOT_FOUND COAP_CONTENTTYPE_NONE a
              Hp Hlen Ha Hfit)
    as (mem' & pkt' & Hr & Hhdr & Htok & _ & _ & Hpay).
  rewrite Hr. exists mem', pkt'. split; [reflexivity|].
  rewrite Hhdr, Htok, Hpay. cbn [t code id].
  repeat split. apply uint16_small. exact Hid.
Qed.

(** C7 as amended: for a request whose option numbers do not
    decrease and whose path, the values of all its URI-Path options,
    has at least one and fewer than 256 segments, the handler of the
    first entry in table order that matches the request (equal method
    code, equal segment count, byte-equal segments) is invoked, the
    entries before it having well-formed paths, whatever follows it in
    the table, and what it returns is what [coap_handle_request]
    returns. *)
Theorem coap_handle_request_first_match pre ep post h mem scratch inpkt outpkt segs :
  options_sorted inpkt ->
  request_path mem inpkt segs ->
  segs <> [] ->
  Z.of_nat (length segs) < 256 ->
  Forall (fun e => handler e <> None /\ path_ok e /\
                   ~ endpoint_matches_request inpkt segs e) pre ->
  handler ep = Some h ->
  endpoint_matches_request inpkt segs ep ->
  coap_handle_request OPTNUM_MOD COAP_CONTENTTYPE_NONE int_of_error
                      (pre ++ ep :: post) mem scratch inpkt outpkt
  = h mem scratch inpkt outpkt (id (hdr inpkt)).
Proof.
  intros Hsorted Hpath Hsome Hfew Hpre Hh Hmatch. unfold coap_handle_request.
  destruct (_find_options_uri_path inpkt Hsorted)
    as [(Hnil & _)|(f & k & Hf & Hk & -> & Hrun)].
  { exfalso. apply Hsome. unfold request_path in Hpath. rewrite Hnil in Hpath.
    inversion Hpath. reflexivity. }
  pose proof (request_path_length mem inpkt segs f k Hrun Hpath) as Hl.
  rewrite uint8_small by lia.
  rewrite (_dispatch_first_match mem scratch inpkt outpkt f (Z.of_nat k) pre ep post h).
  - destruct (h mem scratch inpkt outpkt (id (hdr inpkt))); reflexivity.
  - eapply Forall_impl; [|exact Hpre].
    intros e (He & Hok & Hno). split; [exact He|].
    apply (_endpoint_matches_false mem inpkt segs f k Hrun Hpath); assumption.
  - exact Hh.
  - apply (_endpoint_matches_true mem inpkt segs f k Hrun Hpath). exact Hmatch.
Qed.

End Dispatch.


(** ** The dispatcher on the test vectors *)

Lemma get_a_packet_path : request_path get_a get_a_packet [[x61]].
Proof.
  unfold request_path.
  assert (uri_path_options get_a_packet = [mk_option 11 (mk_buffer (Some 5) 1)]) as ->
    by (vm_compute; reflexivity).
  repeat constructor.
Qed.

Lemma get_a_packet_sorted : options_sorted get_a_packet.
Proof.
  intros i j Hi Hj. change (numopts get_a_packet) with 1 in Hj.
  assert (i = 0) as -> by lia. assert (j = 0) as -> by lia. lia.
Qed.

Lemma other_endpoints_paths : Forall path_ok other_endpoints.
Proof.
  repeat constructor; cbn [In]; intros H;
    repeat (destruct H as [H|H]; try discriminate H); exact H.
Qed.

Lemma other_endpoints_no_match :
  Forall (fun ep => ~ endpoint_matches_request get_a_packet [[x61]] ep) other_endpoints.
Proof.
  repeat constructor; intros (Hm & Hc & He); vm_compute in Hm, Hc, He;
    first [discriminate Hm|discriminate He].
Qed.

Lemma coap_handle_request_not_found_witness :
  exists mem' outpkt',
    coap_handle_request (2 ^ 16) (-1) status_values other_endpoints get_a
                        {| p := Some 6; len := 2 |} get_a_packet stale_packet
    = Some (status_values COAP_SUCCESS, mem', {| p := Some 6; len := 2 |}, outpkt') /\
    t (hdr outpkt') = COAP_TYPE_ACK /\
    code (hdr outpkt') = 0x84 /\
    id (hdr outpkt') = id (hdr get_a_packet) /\
    tok outpkt' = tok get_a_packet /\
    payload outpkt' = {| p := None; len := 0 |}.
Proof.
  apply (coap_handle_request_not_found (2 ^ 16) (-1) status_values other_endpoints
           get_a {| p := Some 6; len := 2 |} get_a_packet stale_packet [[x61]] 6).
  - exact get_a_packet_sorted.
  - exact get_a_packet_path.
  - cbn [length]. lia.
  - exact other_endpoints_paths.
  - exact other_endpoints_no_match.
  - reflexivity.
  - cbn [len]. lia.
  - lia.
  - cbn [len get_a length]. lia.
  - split; vm_compute; [discriminate|reflexivity].
Defined.

Lemma coap_handle_request_first_match_witness :
  coap_handle_request (2 ^ 16) (-1) status_values
                      (other_endpoints ++ a_endpoints) get_a
                      {| p := Some 6; len := 2 |} get_a_packet blank_packet
  = content_handler 7 get_a {| p := Some 6; len := 2 |} get_a_packet blank_packet
                    (id (hdr get_a_packet)).
Proof.
  apply (coap_handle_request_first_match (2 ^ 16) (-1) status_values
           other_endpoints
           (mk_endpoint 1 (Some (content_handler 7)) (mk_path 1 [[x61]]) 0)
           [mk_endpoint 1 (Some (content_handler 8)) (mk_path 1 [[x61]]) 0]
           (content_handler 7) get_a {| p := Some 6; len := 2 |}
           get_a_packet blank_packet [[x61]]).
  - exact get_a_packet_sorted.
  - exact get_a_packet_path.
  - discriminate.
  - cbn [length]. lia.
  - apply Forall_forall. intros e He.
    split; [|split].
    + cbn [In other_endpoints] in He.
      repeat (destruct He as [<-|He]; [discriminate|]). contradiction.
    + exact (proj1 (Forall_forall _ _) other_endpoints_paths e He).
    + exact (proj1 (Forall_forall _ _) other_endpoints_no_match e He).
  - reflexivity.
  - repeat split.
Defined.

Lemma split_path_packet_path : request_path split_path split_path_packet [[x61]; [x62]].
Proof.
  unfold request_path.
  assert (uri_path_options split_path_packet
          = [mk_option 11 (mk_buffer (Some 5) 1); mk_option 11 (mk_buffer (Some 10) 1)])
    as -> by (vm_compute; reflexivity).
  repeat constructor.
Qed.

Lemma late_path_packet_path : request_path late_path late_path_packet [[x61]].
Proof.
  unfold request_path.
  assert (uri_path_options late_path_packet = [mk_option 11 (mk_buffer (Some 8) 1)])
    as -> by (vm_compute; reflexivity).
  repeat constructor.
Qed.

Lemma many_segments_packet_path :
  request_path many_segments many_segments_packet (repeat [x61] 256).
Proof.
  unfold request_path. vm_compute. repeat constructor.
Qed.

(** C6, counterexample: three requests that no endpoint of the table
    matches and for which the output is not the 4.04 response of the
    claim.  With a scratch buffer of one byte the output packet keeps
    the payload view it had before the call.  On the parsed datagram
    [split_path] the URI-Path options "a" and "b" are separated by an
    option whose number has wrapped around, and the handler for /a runs.
    On a request with 256 path segments the eight-bit count is 0 and the
    handler for the root path runs. *)
Lemma no_match_without_not_found :
  (request_path get_a get_a_packet [[x61]] /\
   Forall (fun ep => ~ endpoint_matches_request get_a_packet [[x61]] ep) root_endpoints /\
   ~ (exists rc mem' scratch' outpkt',
        coap_handle_request (2 ^ 16) (-1) status_values root_endpoints get_a
                            {| p := Some 6; len := 1 |} get_a_packet stale_packet
        = Some (rc, mem', scratch', outpkt') /\
        len (payload outpkt') = 0)) /\
  (request_path split_path split_path_packet [[x61]; [x62]] /\
   Forall (fun ep => ~ endpoint_matches_request split_path_packet [[x61]; [x62]] ep)
          a_endpoints /\
   ~ (exists rc mem' scratch' outpkt',
        coap_handle_request (2 ^ 16) (-1) status_values a_endpoints split_path
                            {| p := Some 11; len := 2 |} split_path_packet stale_packet
        = Some (rc, mem', scratch', outpkt') /\
        code (hdr outpkt') = 0x84)) /\
  (request_path many_segments many_segments_packet (repeat [x61] 256) /\
   Forall (fun ep => ~ endpoint_matches_request many_segments_packet
                                                 (repeat [x61] 256) ep)
          root_endpoints /\
   ~ (exists rc mem' scratch' outpkt',
        coap_handle_request (2 ^ 16) (-1) status_values root_endpoints many_segments
                            {| p := Some 516; len := 2 |} many_segments_packet
                            stale_packet
        = Some (rc, mem', scratch', outpkt') /\
        code (hdr outpkt') = 0x84)).
Proof.
  split; [|split].
  - split; [exact get_a_packet_path|]. split.
    + repeat constructor; intros (_ & Hc & _); discriminate Hc.
    + intros (rc & mem' & scratch' & outpkt' & H & Hpay).
      vm_compute in H. injection H as <- <- <- <-.
      vm_compute in Hpay. discriminate Hpay.
  - split; [exact split_path_packet_path|]. split.
    + repeat constructor; intros (_ & Hc & _); discriminate Hc.
    + intros (rc & mem' & scratch' & outpkt' & H & Hcode).
      vm_compute in H. injection H as <- <- <- <-.
      vm_compute in Hcode. discriminate Hcode.
  - split; [exact many_segments_packet_path|]. split.
    + repeat constructor; intros (_ & Hc & _); vm_compute in Hc; discriminate Hc.
    + intros (rc & mem' & scratch' & outpkt' & H & Hcode).
      vm_compute in H. injection H as <- <- <- <-.
      vm_compute in Hcode. discriminate Hcode.
Qed.

(** C7, counterexample: three requests that both endpoints of the
    table match (method, segment count and segments) and for which the
    handler of the first is not invoked; each call answers 4.04 and
    returns [COAP_SUCCESS].  The first request has no URI-Path option
    and the endpoints are for the root path.  On the parsed datagram
    [late_path] the URI-Path option "a" follows an option with a larger
    number.  The third request has 256 path segments. *)
Lemma first_match_not_invoked :
  (request_path minimal_get_memory minimal_get_packet [] /\
   Forall (endpoint_matches_request minimal_get_packet []) root_endpoints /\
   coap_handle_request (2 ^ 16) (-1) status_values root_endpoints minimal_get_memory
                       {| p := Some 4; len := 2 |} minimal_get_packet blank_packet
   <> content_handler 7 minimal_get_memory {| p := Some 4; len := 2 |}
                      minimal_get_packet blank_packet (id (hdr minimal_get_packet))) /\
  (request_path late_path late_path_packet [[x61]] /\
   Forall (endpoint_matches_request late_path_packet [[x61]]) a_endpoints /\
   coap_handle_request (2 ^ 16) (-1) status_values a_endpoints late_path
                       {| p := Some 9; len := 2 |} late_path_packet blank_packet
   <> content_handler 7 late_path {| p := Some 9; len := 2 |}
                      late_path_packet blank_packet (id (hdr late_path_packet))) /\
  (request_path many_segments many_segments_packet (repeat [x61] 256) /\
   Forall (endpoint_matches_request many_segments_packet (repeat [x61] 256))
          long_path_endpoints /\
   coap_handle_request (2 ^ 16) (-1) status_values long_path_endpoints many_segments
                       {| p := Some 516; len := 2 |} many_segments_packet blank_packet
   <> content_handler 7 many_segments {| p := Some 516; len := 2 |}
                      many_segments_packet blank_packet (id (hdr many_segments_packet))).
Proof.
  split; [|split].
  - split; [constructor|]. split.
    + repeat constructor.
    + intros H. vm_compute in H. discriminate H.
  - split; [exact late_path_packet_path|]. split.
    + repeat constructor.
    + intros H. vm_compute in H. discriminate H.
  - split; [exact many_segments_packet_path|]. split.
    + repeat constructor; vm_compute; reflexivity.
    + intros H. vm_compute in H. discriminate H.
Qed.

(** ** The builder on a buffer with enough room *)

Lemma skipn_app_length {A : Type} (w tl : list A) k :
  skipn (length w + k) (w ++ tl) = skipn k tl.
Proof.
  rewrite skipn_app. rewrite skipn_all2 by lia. cbn [app].
  f_equal. lia.
Qed.

Lemma store_bytes_prefix w tl pc bs :
  pc = Z.of_nat (length w) ->
  (length bs <= length tl)%nat ->
  store_bytes (w ++ tl) pc bs = Some ((w ++ bs) ++ skipn (length bs) tl).
Proof.
  intros -> Hfit. unfold store_bytes.
  replace ((Z.of_nat (length w) <? 0)
           || (Z.of_nat (length (w ++ tl)) <? Z.of_nat (length w) + Z.of_nat (length bs)))
    with false
    by (symmetry; apply orb_false_iff; split; apply Z.ltb_ge; rewrite ?length_app; lia).
  rewrite Nat2Z.id, firstn_app, firstn_all, Nat.sub_diag. cbn [firstn].
  rewrite app_nil_r, skipn_app_length, app_assoc. reflexivity.
Qed.

Lemma skipn_skipn_add {A : Type} (a b : nat) (l : list A) :
  skipn a (skipn b l) = skipn (b + a) l.
Proof. rewrite skipn_skipn. f_equal. lia. Qed.

Lemma length_skipn_le {A : Type} (k : nat) (l : list A) n :
  (k + n <= length l)%nat -> (n <= length (skipn k l))%nat.
Proof. rewrite length_skipn. lia. Qed.

Lemma build_extension_forward w tl pc d hi :
  pc = Z.of_nat (length w) ->
  0 <= d <= 65535 + 269 ->
  (d < 269 \/ hi = byte_of_Z (Z.shiftr (d - 269) 8)) ->
  (length (nibble_extension d) <= length tl)%nat ->
  (if _option_nibble d 0 =? 13 then
     do m <- store (w ++ tl) pc (byte_of_Z (d - 13)); Some (m, pc + 1)
   else if _option_nibble d 0 =? 14 then
     do m <- store (w ++ tl) pc hi;
     do m' <- store m (pc + 1) (byte_of_Z (Z.land 0xFF (d - 269)));
     Some (m', pc + 2)
   else Some (w ++ tl, pc))
  = Some ((w ++ nibble_extension d) ++ skipn (length (nibble_extension d)) tl,
          pc + Z.of_nat (length (nibble_extension d))).
Proof.
  intros Hpc Hd Hhi Hfit.
  destruct (_option_nibble_cases d Hd)
    as [(Hc & Hn & He)|[(Hc & Hn & He)|(Hc & Hn & He)]]; rewrite Hn, He in *.
  - replace (d =? 13) with false by lia. replace (d =? 14) with false by lia.
    cbn [length skipn]. rewrite app_nil_r, Z.add_0_r. reflexivity.
  - cbn [Z.eqb Pos.eqb]. unfold store.
    rewrite (store_bytes_prefix w tl pc _ Hpc Hfit). reflexivity.
  - cbn [Z.eqb Pos.eqb]. unfold store. destruct Hhi as [Hlt| ->]; [lia|].
    cbn [length] in Hfit.
    rewrite (store_bytes_prefix w tl pc [_] Hpc) by (cbn [length]; lia).
    rewrite (store_bytes_prefix (w ++ [_]) (skipn 1 tl) (pc + 1) [_]).
    + rewrite skipn_skipn_add. rewrite <- (app_assoc w). reflexivity.
    + rewrite length_app. cbn [length]. lia.
    + rewrite length_skipn. cbn [length]. lia.
Qed.

Lemma view_bytes_some_length src b v :
  0 <= len b -> view_bytes src b = Some v -> Z.of_nat (length v) = len b.
Proof. apply view_bytes_length. Qed.

(** One turn of the option loop on a buffer that has room for the
    option. *)
Lemma _build_options_loop_step src pkt cap todo i rd w tl v :
  Z.of_nat (length w) <= cap ->
  0 <= num (opts pkt i) - rd <= 65535 ->
  0 <= len (buf (opts pkt i)) < 269 ->
  view_bytes src (buf (opts pkt i)) = Some v ->
  (length (wire_option (num (opts pkt i) - rd) v) <= length tl)%nat ->
  _build_options_loop (S todo) src pkt 0 cap (w ++ tl) i (Z.of_nat (length w)) rd
  = _build_options_loop todo src pkt 0 cap
      ((w ++ wire_option (num (opts pkt i) - rd) v)
         ++ skipn (length (wire_option (num (opts pkt i) - rd) v)) tl)
      (i + 1) (Z.of_nat (length (w ++ wire_option (num (opts pkt i) - rd) v)))
      (uint16 (num (opts pkt i))).
Proof.
  intros Hcap Hd Hl Hv Hfit.
  cbn [_build_options_loop].
  replace (Z.of_nat (length w) - 0 >? cap) with false by lia.
  set (o := opts pkt i) in *.
  pose proof (view_bytes_length src _ _ (proj1 Hl) Hv) as Hvl.
  rewrite (uint32_small (num o - rd)) by lia.
  rewrite (uint32_small (len (buf o))) by lia.
  set (d := num o - rd) in *. set (l := len (buf o)) in *.
  assert (0 <= _option_nibble d 0 < 16) as Hdn
    by (destruct (_option_nibble_cases d ltac:(lia))
          as [(?&E&_)|[(?&E&_)|(?&E&_)]]; rewrite E; lia).
  assert (0 <= _option_nibble l 0 < 16) as Hln
    by (destruct (_option_nibble_cases l ltac:(lia))
          as [(?&E&_)|[(?&E&_)|(?&E&_)]]; rewrite E; lia).
  rewrite header_byte_value by assumption.
  unfold wire_option in *. rewrite Hvl in *.
  set (hb := byte_of_Z (16 * _option_nibble d 0 + _option_nibble l 0)) in *.
  cbn [length] in Hfit. rewrite !length_app in Hfit.
  unfold store at 1.
  rewrite (store_bytes_prefix w tl _ [hb] eq_refl) by (cbn [length]; lia).
  rewrite (build_extension_forward (w ++ [hb]) (skipn 1 tl) _ d
             (byte_of_Z (Z.shiftr (d - 269) 8)));
    [ |rewrite length_app; cbn [length]; lia|lia|right; reflexivity
      |rewrite length_skipn; cbn [length]; lia].
  rewrite skipn_skipn_add.
  rewrite (build_extension_forward _ _ _ l (byte_of_Z (Z.shiftr l 8)));
    [ |rewrite !length_app; cbn [length]; lia|lia|left; lia
      |rewrite length_skipn; cbn [length]; lia].
  rewrite skipn_skipn_add.
  unfold memcpy. rewrite view_bytes_eta, Hv.
  rewrite (store_bytes_prefix _ _ _ v);
    [ |rewrite !length_app; cbn [length]; lia|rewrite length_skipn; cbn [length]; lia].
  rewrite skipn_skipn_add.
  f_equal.
  - rewrite <- !app_assoc. cbn [app]. rewrite <- !app_assoc.
    repeat apply f_equal. f_equal. cbn [length]. rewrite !length_app. lia.
  - cbn [length]. rewrite !length_app. cbn [length]. rewrite !length_app. lia.
Qed.

Lemma _build_options_loop_forward src pkt cap os :
  forall i rd w tl,
    0 <= rd <= 65535 ->
    wire_ok rd os -> resolves src pkt i os ->
    (forall j, i <= j < i + Z.of_nat (length os) -> 0 <= len (buf (opts pkt j))) ->
    Z.of_nat (length w) + Z.of_nat (length (wire_options rd os)) <= cap ->
    (length (wire_options rd os) <= length tl)%nat ->
    _build_options_loop (length os) src pkt 0 cap (w ++ tl) i (Z.of_nat (length w)) rd
    = Some (COAP_SUCCESS,
            (w ++ wire_options rd os) ++ skipn (length (wire_options rd os)) tl,
            Z.of_nat (length (w ++ wire_options rd os))).
Proof.
  induction os as [|[n v] os IH]; intros i rd w tl Hrd Hok Hres Hlen Hcap Hfit.
  - cbn [length _build_options_loop wire_options skipn]. rewrite app_nil_r. reflexivity.
  - cbn [wire_ok] in Hok. destruct Hok as (Hn & Hvl & Hok).
    cbn [resolves] in Hres. destruct Hres as (-> & Hv & Hres).
    cbn [wire_options] in Hcap, Hfit |- *. rewrite length_app in Hcap, Hfit.
    cbn [length].
    assert (len (buf (opts pkt i)) = Z.of_nat (length v)) as Hl.
    { symmetry. apply (view_bytes_length src); [|exact Hv].
      apply Hlen. cbn [length]. lia. }
    rewrite (_build_options_loop_step src pkt cap (length os) i rd w tl v);
      [ |lia|lia|lia|exact Hv|lia].
    rewrite (uint16_small (num (opts pkt i))) by lia.
    rewrite IH; [ |lia|exact Hok|exact Hres| |rewrite length_app; lia
                  |rewrite length_skipn; lia].
    + rewrite skipn_skipn_add, <- !app_assoc, !length_app. reflexivity.
    + intros j Hj. apply Hlen. cbn [length]. lia.
Qed.

Section BuildForward.

Variable MAXOPT : nat.
Variable OPTNUM_MOD : Z.
Variable abi : abi_t.

Lemma build_ok_eq (m1 m2 : memory) (n1 n2 : Z) :
  m1 = m2 -> n1 = n2 -> Some (COAP_SUCCESS, m1, n1) = Some (COAP_SUCCESS, m2, n2).
Proof. intros -> ->. reflexivity. Qed.

Lemma app_skipn_eq (a b out : list byte) (x y : nat) :
  a = b -> x = y -> a ++ skipn x out = b ++ skipn y out.
Proof. intros -> ->. reflexivity. Qed.

Lemma resolves_wire_ok src pkt os :
  forall i rd,
    resolves src pkt i os ->
    (forall j, i <= j < i + Z.of_nat (length os) ->
       rd <= num (opts pkt j) <= 65535 /\ 0 <= len (buf (opts pkt j)) < 269) ->
    (forall j j', i <= j <= j' -> j' < i + Z.of_nat (length os) ->
       num (opts pkt j) <= num (opts pkt j')) ->
    wire_ok rd os.
Proof.
  induction os as [|[n v] os IH]; intros i rd Hres Hopts Hsorted; cbn [wire_ok];
    [exact I|].
  cbn [resolves] in Hres. destruct Hres as (-> & Hv & Hres).
  destruct (Hopts i ltac:(cbn [length]; lia)) as [Hnum Hlen].
  split; [exact Hnum|]. split.
  - rewrite (view_bytes_length src _ _ (proj1 Hlen) Hv). lia.
  - apply (IH (i + 1)); [exact Hres| |].
    + intros j Hj. destruct (Hopts j ltac:(cbn [length]; lia)) as [Hn Hl].
      split; [|exact Hl]. split; [|lia].
      apply Hsorted; cbn [length]; lia.
    + intros j j' Hj Hj'. apply Hsorted; cbn [length]; lia.
Qed.

Lemma coap_build_forward src out cap pkt tokb os payb :
  len (tok pkt) = tkl (hdr pkt) -> 0 <= tkl (hdr pkt) ->
  0 <= len (payload pkt) ->
  view_bytes src (tok pkt) = Some tokb ->
  wire_ok 0 os -> resolves src pkt 0 os -> length os = Z.to_nat (numopts pkt) ->
  (forall j, 0 <= j < 0 + Z.of_nat (length os) -> 0 <= len (buf (opts pkt j))) ->
  view_bytes src (payload pkt) = Some payb ->
  let tail := if len (payload pkt) >? 0 then xff :: payb else [] in
  let dgram := header_bytes abi (hdr pkt) ++ tokb ++ wire_options 0 os ++ tail in
  Z.of_nat (length dgram) <= cap ->
  (length dgram <= length out)%nat ->
  coap_build abi src out 0 cap pkt
  = Some (COAP_SUCCESS, dgram ++ skipn (length dgram) out, Z.of_nat (length dgram)).
Proof.
  intros Htok Htkl Hpay Htokb Hok Hres Hlos Hlens Hpayb tail dgram Hcap Hout.
  assert (Z.of_nat (length tokb) = tkl (hdr pkt)) as Htokl.
  { rewrite <- Htok. apply (view_bytes_length src (tok pkt) tokb); [lia|exact Htokb]. }
  assert (Z.of_nat (length payb) = len (payload pkt)) as Hpayl
    by (apply (view_bytes_length src _ _ Hpay Hpayb)).
  assert (length dgram
          = (4 + length tokb + length (wire_options 0 os) + length tail)%nat) as Hdl.
  { subst dgram. rewrite !length_app. cbn [length header_bytes]. lia. }
  unfold coap_build, sizeof_coap_raw_header_t.
  replace (cap <? 4 + tkl (hdr pkt)) with false by lia.
  rewrite (surjective_pairing (raw_id_bytes abi (id (hdr pkt)))).
  fold (header_bytes abi (hdr pkt)).
  pose proof (store_bytes_prefix [] out 0 (header_bytes abi (hdr pkt)) eq_refl) as Hs.
  cbn [app] in Hs. rewrite Hs by (cbn [length header_bytes]; lia). clear Hs.
  replace ((tkl (hdr pkt) >? 0) && negb (tkl (hdr pkt) =? len (tok pkt)))
    with false by (rewrite Htok, Z.eqb_refl; cbn [negb]; symmetry; apply andb_false_r).
  set (hb := header_bytes abi (hdr pkt)) in *.
  match goal with
  | |- context [if tkl (hdr pkt) >? 0 then ?a else ?b] =>
    assert ((if tkl (hdr pkt) >? 0 then a else b)
            = Some ((hb ++ tokb) ++ skipn (length hb + length tokb) out)) as ->
  end.
  { destruct (tkl (hdr pkt) >? 0) eqn:Hpos.
    - unfold memcpy. rewrite <- Htok, view_bytes_eta, Htokb.
      rewrite (store_bytes_prefix hb _ _ tokb);
        [rewrite skipn_skipn_add; reflexivity|reflexivity|].
      rewrite length_skipn. subst hb. cbn [length header_bytes]. lia.
    - assert (tokb = []) as -> by (destruct tokb; [reflexivity|cbn [length] in Htokl; lia]).
      rewrite app_nil_r, Nat.add_0_r. reflexivity. }
  replace (0 + 4 + tkl (hdr pkt)) with (Z.of_nat (length (hb ++ tokb)))
    by (rewrite length_app; subst hb; cbn [length header_bytes]; lia).
  rewrite <- Hlos.
  rewrite (_build_options_loop_forward src pkt cap os 0 0 (hb ++ tokb));
    [ |lia|exact Hok|exact Hres|exact Hlens| |].
  2:{ rewrite length_app. subst hb. cbn [length header_bytes]. lia. }
  2:{ rewrite length_skipn. subst hb. cbn [length header_bytes]. lia. }
  cbn [is_success negb]. rewrite skipn_skipn_add.
  subst tail. destruct (len (payload pkt) >? 0) eqn:Hp.
  - replace (cap <? 4 + 1 + len (payload pkt) + _) with false.
    2:{ symmetry. apply Z.ltb_ge. cbn [length] in Hdl.
        rewrite !length_app. subst hb. cbn [length header_bytes]. lia. }
    unfold store.
    rewrite (store_bytes_prefix ((hb ++ tokb) ++ wire_options 0 os) _ _ [xff]).
    2:{ rewrite !length_app. subst hb. cbn [length header_bytes]. lia. }
    2:{ rewrite length_skipn. cbn [length] in Hdl |- *. subst hb.
        cbn [length header_bytes]. lia. }
    rewrite skipn_skipn_add.
    unfold memcpy. rewrite view_bytes_eta, Hpayb.
    rewrite (store_bytes_prefix _ _ _ payb).
    2:{ rewrite !length_app. subst hb. cbn [length header_bytes]. lia. }
    2:{ rewrite length_skipn. cbn [length] in Hdl |- *. subst hb.
        cbn [length header_bytes]. lia. }
    rewrite skipn_skipn_add.
    apply build_ok_eq; [apply app_skipn_eq|].
    + subst dgram. rewrite <- !app_assoc. cbn [app]. reflexivity.
    + rewrite Hdl. cbn [length]. subst hb. cbn [length header_bytes]. lia.
    + rewrite Hdl, !length_app. cbn [length]. subst hb. cbn [length header_bytes]. lia.
  - apply build_ok_eq; [apply app_skipn_eq|].
    + subst dgram. rewrite app_nil_r, <- !app_assoc. reflexivity.
    + rewrite Hdl. cbn [length]. subst hb. cbn [length header_bytes]. lia.
    + rewrite Hdl, !length_app. cbn [length]. subst hb. cbn [length header_bytes]. lia.
Qed.

(** X2: when the packet can be encoded, its views resolve in the
    source memory and the buffer has room for the datagram,
    [coap_build] succeeds, writes the datagram at the start of the
    buffer, reports its length in [*buflen] and leaves the rest of the
    buffer as it was. *)
Theorem coap_build_enough_room src out cap pkt tokb os payb :
  encodable MAXOPT OPTNUM_MOD pkt ->
  view_bytes src (tok pkt) = Some tokb ->
  resolves src pkt 0 os -> length os = Z.to_nat (numopts pkt) ->
  view_bytes src (payload pkt) = Some payb ->
  let tail := if len (payload pkt) >? 0 then xff :: payb else [] in
  let dgram := header_bytes abi (hdr pkt) ++ tokb ++ wire_options 0 os ++ tail in
  Z.of_nat (length dgram) <= cap ->
  (length dgram <= length out)%nat ->
  coap_build abi src out 0 cap pkt
  = Some (COAP_SUCCESS, dgram ++ skipn (length dgram) out, Z.of_nat (length dgram)).
Proof.
  intros (Hver & Ht & Htkl & Htok & Hcode & Hid & Hnum & Hopts & Hsorted & Hpay)
         Htokb Hres Hlos Hpayb tail dgram Hcap Hout.
  apply coap_build_forward; try assumption; try lia.
  - apply (resolves_wire_ok src pkt os 0 0 Hres).
    + intros j Hj. destruct (Hopts j) as (? & ? & ?); lia.
    + intros j j' Hj Hj'. apply Hsorted; lia.
  - intros j Hj. destruct (Hopts j) as (? & ? & ?); lia.
Qed.

End BuildForward.

Section BuildCapacity.

Variable abi : abi_t.

(** X3: with a payload, a datagram [coap_build] reports as built is
    never longer than the capacity passed in [*buflen]. *)
Theorem coap_build_payload_fits src out buf_ cap pkt out' n :
  coap_build abi src out buf_ cap pkt = Some (COAP_SUCCESS, out', n) ->
  0 < len (payload pkt) ->
  n <= cap.
Proof.
  unfold coap_build. intros H Hpay.
  destruct (cap <? sizeof_coap_raw_header_t + tkl (hdr pkt)); [discriminate|].
  destruct (raw_id_bytes abi (id (hdr pkt))) as [i0 i1].
  destruct (store_bytes out buf_ _) as [out1|]; [|discriminate].
  destruct ((tkl (hdr pkt) >? 0) && negb (tkl (hdr pkt) =? len (tok pkt)));
    [discriminate|].
  match type of H with
  | (match ?e with Some _ => _ | None => None end) = _ =>
    destruct e as [out2|]; [|discriminate]
  end.
  destruct (_build_options_loop _ _ _ _ _ _ _ _ _) as [[[rc out3] p2]|]; [|discriminate].
  destruct rc; cbn [is_success negb] in H; try discriminate.
  replace (len (payload pkt) >? 0) with true in H by lia.
  destruct (cap <? sizeof_coap_raw_header_t + 1 + len (payload pkt)
                   + (p2 - buf_ - sizeof_coap_raw_header_t)) eqn:Hcap;
    [discriminate|].
  destruct (store out3 _ xff) as [out4|]; [|discriminate].
  destruct (memcpy src out4 _ _ _) as [out5|]; [|discriminate].
  apply build_result_inj in H. destruct H as [_ <-].
  unfold sizeof_coap_raw_header_t in *. lia.
Qed.

End BuildCapacity.

(** ** The response [coap_make_response] fills in *)

Lemma content_type_bytes x :
  0 <= x < 65536 ->
  Z.shiftr (Z.land x 0xFF00) 8 = x / 256 /\ Z.land x 0x00FF = x mod 256.
Proof.
  intros Hx. split.
  - rewrite Z.shiftr_land. change (Z.shiftr 65280 8) with (Z.ones 8).
    rewrite Z.land_ones, Z.shiftr_div_pow2 by lia. change (2 ^ 8) with 256.
    apply Z.mod_small. split; [apply Z.div_pos; lia|apply Z.div_lt_upper_bound; lia].
  - change 255 with (Z.ones 8). rewrite Z.land_ones by lia. reflexivity.
Qed.

Lemma firstn_skipn_length {A : Type} (l : list A) (a : nat) :
  (a <= length l)%nat -> length (firstn a l) = a.
Proof. intros H. rewrite length_firstn. lia. Qed.

(** The two stores into the scratch buffer. *)
Lemma scratch_stores mem a (b0 b1 : byte) :
  0 <= a -> a + 2 <= Z.of_nat (length mem) ->
  (do mem1 <- store mem a b0; store mem1 (a + 1) b1)
  = Some (firstn (Z.to_nat a) mem ++ [b0; b1] ++ skipn (Z.to_nat a + 2) mem).
Proof.
  intros Ha Hfit.
  set (w := firstn (Z.to_nat a) mem). set (tl := skipn (Z.to_nat a) mem).
  assert (mem = w ++ tl) as Hmem by (symmetry; apply firstn_skipn).
  assert (length w = Z.to_nat a) as Hw by (apply firstn_skipn_length; lia).
  assert (2 <= length tl)%nat as Htl by (subst tl; rewrite length_skipn; lia).
  rewrite Hmem at 1. unfold store.
  rewrite (store_bytes_prefix w tl a [b0]) by (cbn [length]; lia).
  cbn [length]. cbv beta iota.
  rewrite (store_bytes_prefix (w ++ [b0]) (skipn 1 tl) (a + 1) [b1]).
  - cbn [length]. f_equal. rewrite <- !app_assoc. cbn [app].
    repeat apply f_equal. subst tl. rewrite !skipn_skipn. f_equal. lia.
  - rewrite length_app. cbn [length]. lia.
  - rewrite length_skipn. cbn [length]. lia.
Qed.

Lemma view_scratch mem a (b0 b1 : byte) :
  0 <= a -> a + 2 <= Z.of_nat (length mem) ->
  view_bytes (firstn (Z.to_nat a) mem ++ [b0; b1] ++ skipn (Z.to_nat a + 2) mem)
             {| p := Some a; len := 2 |} = Some [b0; b1].
Proof.
  intros Ha Hfit.
  apply (view_bytes_app (firstn (Z.to_nat a) mem) [b0; b1]).
  rewrite firstn_skipn_length by lia. lia.
Qed.

Section Response.

Variable MAXOPT : nat.
Variable OPTNUM_MOD : Z.
Variable abi : abi_t.

(** X15: with a scratch buffer of at least two bytes
    [coap_make_response] succeeds.  The response is an ACK with the given code and id, the
    token (when one is given), the payload view, and one Content-Format
    option whose value is the content type in network byte order,
    written to the first two bytes of the scratch buffer; no other byte
    of the memory changes. *)
Theorem coap_make_response_content_format mem scratch pkt content content_len msgid
        tok_ rspcode ctype a :
  p scratch = Some a -> 2 <= len scratch ->
  0 <= a -> a + len scratch <= Z.of_nat (length mem) ->
  let hi := byte_of_Z (uint16 ctype / 256) in
  let lo := byte_of_Z (uint16 ctype mod 256) in
  let mem' := firstn (Z.to_nat a) mem ++ [hi; lo] ++ skipn (Z.to_nat a + 2) mem in
  exists pkt',
    coap_make_response OPTNUM_MOD mem scratch pkt content content_len msgid
                       tok_ rspcode ctype
    = Some (COAP_SUCCESS, mem', pkt') /\
    hdr pkt' = {| ver := 1; t := COAP_TYPE_ACK;
                  tkl := match tok_ with Some tk => uint8 (len tk) | None => 0 end;
                  code := uint8 rspcode; id := uint16 msgid |} /\
    tok pkt' = match tok_ with Some tk => tk | None => tok pkt end /\
    numopts pkt' = 1 /\
    opts pkt' 0 = {| num := optnum OPTNUM_MOD COAP_OPTION_CONTENT_FORMAT;
                     buf := {| p := Some a; len := 2 |} |} /\
    view_bytes mem' (buf (opts pkt' 0)) = Some [hi; lo] /\
    256 * u8 hi + u8 lo = uint16 ctype /\
    payload pkt' = {| p := content; len := content_len |}.
Proof.
  intros Hp Hlen Ha Hfit hi lo mem'.
  pose proof (uint16_range ctype) as Hct.
  destruct (content_type_bytes (uint16 ctype) Hct) as [Hhi Hlo].
  unfold coap_make_response.
  replace (len scratch <? 2) with false by lia. rewrite Hp.
  rewrite Hhi, Hlo. fold hi lo.
  match goal with
  | |- context [store mem a hi] =>
    pose proof (scratch_stores mem a hi lo Ha ltac:(lia)) as Hst
  end.
  destruct (store mem a hi) as [mem1|]; [|discriminate].
  rewrite Hst. fold mem'.
  eexists. split; [reflexivity|].
  split; [destruct tok_; reflexivity|].
  split; [destruct tok_; reflexivity|].
  split; [destruct tok_; reflexivity|].
  split; [destruct tok_; reflexivity|].
  split.
  { cbn [payload opts set_payload set_opt buf]. cbn [Z.eqb].
    apply view_scratch; lia. }
  split; [|destruct tok_; reflexivity].
  subst hi lo. rewrite !u8_byte_of_Z.
  pose proof (Z.mod_pos_bound (uint16 ctype) 256 ltac:(lia)).
  assert (0 <= uint16 ctype / 256 < 256)
    by (split; [apply Z.div_pos; lia|apply Z.div_lt_upper_bound; lia]).
  rewrite !uint8_small by lia.
  rewrite (Z.div_mod (uint16 ctype) 256) at 3 by lia. reflexivity.
Qed.

(** X17: the datagram of a response: [coap_build] applied to the packet
    [coap_make_response] fills in gives the header of an ACK with the
    code and the id, the token, the option byte [C2] (Content-Format,
    two bytes) with the content type in network byte order, and the
    payload after its marker. *)
Theorem coap_build_of_make_response mem scratch pkt content content_len msgid tk
        rspcode ctype a out cap tokb payb :
  (1 <= MAXOPT)%nat -> COAP_OPTION_CONTENT_FORMAT < OPTNUM_MOD ->
  p scratch = Some a -> 2 <= len scratch ->
  0 <= a -> a + len scratch <= Z.of_nat (length mem) ->
  0 <= len tk <= 8 -> 0 <= content_len ->
  let hi := byte_of_Z (uint16 ctype / 256) in
  let lo := byte_of_Z (uint16 ctype mod 256) in
  let mem' := firstn (Z.to_nat a) mem ++ [hi; lo] ++ skipn (Z.to_nat a + 2) mem in
  view_bytes mem' tk = Some tokb ->
  view_bytes mem' {| p := content; len := content_len |} = Some payb ->
  let h := {| ver := 1; t := COAP_TYPE_ACK; tkl := len tk;
              code := uint8 rspcode; id := uint16 msgid |} in
  let dgram := header_bytes abi h ++ tokb ++ [xc2; hi; lo]
                 ++ (if content_len >? 0 then xff :: payb else []) in
  Z.of_nat (length dgram) <= cap -> (length dgram <= length out)%nat ->
  exists pkt',
    coap_make_response OPTNUM_MOD mem scratch pkt content content_len msgid
                       (Some tk) rspcode ctype
    = Some (COAP_SUCCESS, mem', pkt') /\
    coap_build abi mem' out 0 cap pkt'
    = Some (COAP_SUCCESS, dgram ++ skipn (length dgram) out, Z.of_nat (length dgram)).
Proof.
  intros Hmax Hmod Hp Hlen Ha Hfit Htk Hcl hi lo mem' Htokb Hpayb h dgram Hcap Hout.
  pose proof (uint16_range ctype) as Hct.
  destruct (content_type_bytes (uint16 ctype) Hct) as [Hhi Hlo].
  unfold coap_make_response.
  replace (len scratch <? 2) with false by lia. rewrite Hp.
  rewrite Hhi, Hlo. fold hi lo.
  pose proof (scratch_stores mem a hi lo Ha ltac:(lia)) as Hst.
  destruct (store mem a hi) as [mem1|]; [|discriminate].
  rewrite Hst. fold mem'.
  eexists. split; [reflexivity|].
  match goal with |- coap_build _ _ _ _ _ ?k = _ => set (pkt' := k) end.
  assert (hdr pkt' = h) as Hh.
  { subst pkt' h. cbn [hdr set_payload set_opt set_tok set_hdr set_numopts ver t code id].
    rewrite uint8_small by lia. reflexivity. }
  assert (opts pkt' 0 = {| num := COAP_OPTION_CONTENT_FORMAT;
                           buf := {| p := Some a; len := 2 |} |}) as Ho.
  { subst pkt'. cbn [opts set_payload set_opt]. cbn [Z.eqb num buf p].
    unfold optnum. rewrite Z.mod_small by (unfold COAP_OPTION_CONTENT_FORMAT in *; lia).
    reflexivity. }
  pose proof (view_scratch mem a hi lo Ha ltac:(lia)) as Hview. fold mem' in Hview.
  pose proof (coap_build_forward abi mem' out cap pkt' tokb
                [(COAP_OPTION_CONTENT_FORMAT, [hi; lo])] payb) as Hb.
  cbv zeta in Hb. rewrite Hh in Hb.
  replace (len (payload pkt')) with content_len in Hb by reflexivity.
  assert (wire_options 0 [(COAP_OPTION_CONTENT_FORMAT, [hi; lo])] = [xc2; hi; lo]) as Hw.
  { clearbody hi lo. reflexivity. }
  rewrite Hw in Hb. fold dgram in Hb.
  apply Hb; try assumption; try reflexivity.
  - subst h. cbn [tkl]. lia.
  - cbn [wire_ok length]. unfold COAP_OPTION_CONTENT_FORMAT. lia.
  - cbn [resolves]. rewrite Ho. cbn [num buf]. auto.
  - intros j Hj. cbn [length] in Hj. assert (j = 0) as -> by lia.
    rewrite Ho. cbn [buf len]. lia.
Qed.

End Response.

(** ** The endpoint list in link format *)

Lemma strlen_from_text text rest :
  ~ In x00 text ->
  strlen_from (text ++ x00 :: rest) = Some (Z.of_nat (length text)).
Proof.
  induction text as [|b text IH]; intros Hnul.
  - reflexivity.
  - cbn [app strlen_from length].
    destruct (Byte.eqb b x00) eqn:E.
    + apply Byte.byte_dec_bl in E. subst b. exfalso. apply Hnul. left. reflexivity.
    + rewrite IH by (intros Hin; apply Hnul; right; exact Hin).
      f_equal. lia.
Qed.

Lemma digits_no_nul u : ~ In x00 (digits u).
Proof.
  induction u; cbn [digits In]; intros H;
    try contradiction; destruct H as [H|H]; try discriminate H; auto.
Qed.

Lemma decimal_no_nul z : ~ In x00 (decimal z).
Proof.
  unfold decimal. destruct (Z.to_int z) as [u|u].
  - apply digits_no_nul.
  - cbn [In]. intros [H|H]; [discriminate H|]. exact (digits_no_nul u H).
Qed.

Lemma not_in_app (b : byte) l1 l2 : ~ In b l1 -> ~ In b l2 -> ~ In b (l1 ++ l2).
Proof. intros H1 H2 H. apply in_app_or in H. tauto. Qed.

Lemma skipn_repeat_app {A : Type} (x : A) n m tl :
  skipn n (repeat x (n + m) ++ tl) = repeat x m ++ tl.
Proof. induction n as [|n IH]; [reflexivity|exact IH]. Qed.

Section Discovery.

Variable COAP_CONTENTTYPE_NONE : Z.
Variable INT_MAX : Z.
Variable SIZE_MAX : Z.

Variables pre post : list byte.
Variable cap : nat.

Hypothesis Hint : Z.of_nat cap - 1 <= INT_MAX.
Hypothesis Hsize : INT_MAX <= SIZE_MAX.

Local Notation "'holds'" := (buffer_holds pre post cap).

Lemma int_of_in_range z :
  0 <= z <= Z.of_nat cap - 1 -> int_of INT_MAX z = Some z.
Proof.
  intros Hz. unfold int_of.
  replace ((- INT_MAX - 1 <=? z) && (z <=? INT_MAX)) with true; [reflexivity|].
  symmetry. apply andb_true_iff. split; apply Z.leb_le; lia.
Qed.

Lemma size_t_in_range z : 0 <= z <= Z.of_nat cap - 1 -> size_t SIZE_MAX z = z.
Proof. intros Hz. unfold size_t. apply Z.mod_small. lia. Qed.

Lemma strlen_at_holds text :
  ~ In x00 text -> (length text < cap)%nat ->
  strlen_at (holds text) (Z.of_nat (length pre)) = Some (Z.of_nat (length text)).
Proof.
  intros Hnul Hlt. unfold strlen_at, buffer_holds.
  replace (Z.of_nat (length pre) <? 0) with false by (symmetry; apply Z.ltb_ge; lia).
  rewrite Nat2Z.id. rewrite skipn_app, skipn_all, Nat.sub_diag. cbn [app skipn].
  replace (cap - length text)%nat with (S (cap - length text - 1)) by lia.
  cbn [repeat app]. apply strlen_from_text. exact Hnul.
Qed.

(** Writing [s] and a NUL where the text ends. *)
Lemma store_at_end text s :
  (length text + length s < cap)%nat ->
  store_bytes (holds text) (Z.of_nat (length pre) + Z.of_nat (length text)) (s ++ [x00])
  = Some (holds (text ++ s)).
Proof.
  intros Hfit. unfold buffer_holds.
  rewrite (app_assoc pre text).
  rewrite (store_bytes_prefix (pre ++ text)).
  - f_equal.
    assert (skipn (length (s ++ [x00])) (repeat x00 (cap - length text) ++ post)
            = repeat x00 (cap - length text - length s - 1) ++ post) as ->.
    { remember (cap - length text - length s - 1)%nat as k eqn:Hk.
      replace (cap - length text)%nat with (length (s ++ [x00]) + k)%nat
        by (rewrite length_app; cbn [length]; lia).
      apply skipn_repeat_app. }
    rewrite <- !app_assoc. cbn [app]. repeat apply f_equal.
    rewrite length_app.
    replace (cap - (length text + length s))%nat
      with (S (cap - length text - length s - 1)) by lia.
    reflexivity.
  - rewrite length_app. lia.
  - rewrite !length_app, repeat_length. cbn [length]. lia.
Qed.

Lemma strncat_holds text s :
  ~ In x00 text ->
  (length text + length s < cap)%nat ->
  strncat (holds text) (Z.of_nat (length pre)) s
          (size_t SIZE_MAX (Z.of_nat cap - 1 - Z.of_nat (length text)))
  = Some (holds (text ++ s)).
Proof.
  intros Hnul Hfit. unfold strncat.
  rewrite strlen_at_holds by (assumption || lia).
  rewrite size_t_in_range by lia.
  rewrite firstn_all2 by lia.
  apply store_at_end. exact Hfit.
Qed.

Lemma _build_path_loop_holds ep segs :
  forall done text,
    elems (path ep) = done ++ segs ->
    Forall (fun s => ~ In x00 s) segs ->
    ~ In x00 text ->
    (length text + length (concat (map (cons x2f) segs)) < cap)%nat ->
    _build_path_loop INT_MAX SIZE_MAX (length segs) (holds text)
                     (Z.of_nat (length pre)) ep (Z.of_nat (length done))
                     (Z.of_nat cap - 1 - Z.of_nat (length text))
    = Some (holds (text ++ concat (map (cons x2f) segs)),
            Z.of_nat cap - 1
            - Z.of_nat (length (text ++ concat (map (cons x2f) segs)))).
Proof.
  induction segs as [|s segs IH]; intros done text Hel Hsegs Hnul Hfit.
  - cbn [length _build_path_loop map concat]. rewrite app_nil_r. reflexivity.
  - cbn [length _build_path_loop map concat] in Hfit |- *.
    rewrite length_app in Hfit. cbn [length] in Hfit.
    inversion Hsegs as [|s' segs' Hs Hrest]; subst.
    rewrite (strncat_holds text [x2f]) by (assumption || (cbn [length]; lia)).
    rewrite int_of_in_range by lia.
    rewrite Nat2Z.id, Hel, nth_error_app2, Nat.sub_diag by lia. cbn [nth_error].
    replace (Z.of_nat cap - 1 - Z.of_nat (length text) - 1)
      with (Z.of_nat cap - 1 - Z.of_nat (length (text ++ [x2f])))
      by (rewrite length_app; cbn [length]; lia).
    rewrite (strncat_holds (text ++ [x2f]) s).
    2:{ apply not_in_app; [exact Hnul|]. cbn [In]. intros [H|H]; [discriminate H|exact H]. }
    2:{ rewrite length_app. cbn [length]. lia. }
    unfold strlen. rewrite int_of_in_range
      by (rewrite length_app; cbn [length]; lia).
    replace (Z.of_nat cap - 1 - Z.of_nat (length (text ++ [x2f])) - Z.of_nat (length s))
      with (Z.of_nat cap - 1 - Z.of_nat (length ((text ++ [x2f]) ++ s)))
      by (rewrite !length_app; cbn [length]; lia).
    replace (Z.of_nat (length done) + 1) with (Z.of_nat (length (done ++ [s])))
      by (rewrite length_app; cbn [length]; lia).
    rewrite (IH (done ++ [s]) ((text ++ [x2f]) ++ s)).
    + rewrite <- !app_assoc. reflexivity.
    + rewrite <- app_assoc. exact Hel.
    + exact Hrest.
    + apply not_in_app; [|exact Hs].
      apply not_in_app; [exact Hnul|]. cbn [In]. intros [H|H]; [discriminate H|exact H].
    + rewrite !length_app. cbn [length]. lia.
Qed.

Lemma link_format_grows endpoints :
  forall text,
    (length text <= length (link_format COAP_CONTENTTYPE_NONE endpoints text))%nat.
Proof.
  induction endpoints as [|ep rest IH]; intros text; cbn [link_format]; [lia|].
  destruct (handler ep); [|lia].
  destruct (ct ep =? COAP_CONTENTTYPE_NONE); [apply IH|].
  etransitivity; [|apply IH]. rewrite length_app. lia.
Qed.

Lemma endpoint_link_no_nul ep : path_ok ep -> ~ In x00 (endpoint_link ep).
Proof.
  intros [_ Hsegs]. unfold endpoint_link.
  apply not_in_app; [cbn [In]; intros [H|H]; [discriminate H|exact H]|].
  apply not_in_app.
  { induction Hsegs as [|s segs Hs _ IH]; cbn [map concat]; [intros H; exact H|].
    apply not_in_app; [|exact IH].
    cbn [In]. intros [H|H]; [discriminate H|exact (Hs H)]. }
  apply not_in_app; [cbn [In]; intros [H|[H|H]]; try discriminate H; exact H|].
  apply not_in_app; [cbn [In]; intros [H|[H|[H|H]]]; try discriminate H; exact H|].
  apply decimal_no_nul.
Qed.

Lemma _build_endpoints_loop_holds endpoints :
  forall text,
    Forall path_ok endpoints ->
    ~ In x00 text ->
    (length (link_format COAP_CONTENTTYPE_NONE endpoints text) < cap)%nat ->
    _build_endpoints_loop COAP_CONTENTTYPE_NONE INT_MAX SIZE_MAX endpoints (holds text)
                          (Z.of_nat (length pre)) (Z.of_nat cap)
                          (Z.of_nat cap - 1 - Z.of_nat (length text))
    = Some (COAP_SUCCESS, holds (link_format COAP_CONTENTTYPE_NONE endpoints text)).
Proof.
  induction endpoints as [|ep rest IH]; intros text Hpaths Hnul Hfit;
    cbn [_build_endpoints_loop link_format] in Hfit |- *; [reflexivity|].
  destruct (handler ep) as [h|]; [|reflexivity].
  inversion Hpaths as [|ep' rest' Hep Hrest]; subst.
  pose proof (link_format_grows rest text) as Hg0.
  destruct (ct ep =? COAP_CONTENTTYPE_NONE) eqn:Hct.
  { replace (0 >? Z.of_nat cap - 1 - Z.of_nat (length text)) with false by lia.
    apply IH; assumption. }
  set (comma := match text with [] => [] | _ :: _ => [x2c] end) in *.
  pose proof (link_format_grows rest (text ++ comma ++ endpoint_link ep)) as Hg.
  assert (length (endpoint_link ep)
          = 1 + length (concat (map (cons x2f) (elems (path ep)))) + 2 + 3
            + length (decimal (ct ep)))%nat as Hel
    by (unfold endpoint_link; rewrite !length_app; cbn [length]; lia).
  rewrite !length_app, Hel in Hg.
  replace (0 >? Z.of_nat cap - 1 - Z.of_nat (length text)) with false by lia.
  rewrite strlen_at_holds by (assumption || lia).
  assert ((if 0 <? Z.of_nat (length text)
           then
             do m <- strncat (holds text) (Z.of_nat (length pre)) [x2c]
                             (size_t SIZE_MAX (Z.of_nat cap - 1 - Z.of_nat (length text)));
             do l <- int_of INT_MAX (Z.of_nat cap - 1 - Z.of_nat (length text) - 1);
             Some (m, l)
           else Some (holds text, Z.of_nat cap - 1 - Z.of_nat (length text)))
          = Some (holds (text ++ comma),
                  Z.of_nat cap - 1 - Z.of_nat (length (text ++ comma)))) as ->.
  { destruct text as [|b text'].
    - cbn [length comma]. rewrite app_nil_r. reflexivity.
    - replace (0 <? Z.of_nat (length (b :: text'))) with true
        by (symmetry; apply Z.ltb_lt; cbn [length]; lia).
      subst comma. cbv iota in Hg |- *. cbn [length] in Hg.
      rewrite strncat_holds by (assumption || (cbn [length]; lia)).
      rewrite int_of_in_range by (cbn [length]; lia).
      rewrite length_app. cbn [length]. do 2 f_equal. lia. }
  assert (~ In x00 comma) as Hcomma
    by (subst comma; destruct text; cbn [In]; [tauto|intros [H|H]; [discriminate H|exact H]]).
  destruct Hep as [Hcount Hsegs].
  set (t1 := text ++ comma) in *.
  assert (~ In x00 t1) as Hn1 by (apply not_in_app; assumption).
  assert (length t1 = length text + length comma)%nat as Hl1 by apply length_app.
  rewrite (strncat_holds t1 [x3c]) by (assumption || (cbn [length]; lia)).
  rewrite int_of_in_range by lia.
  set (t2 := t1 ++ [x3c]).
  assert (~ In x00 t2) as Hn2
    by (apply not_in_app; [assumption|cbn [In]; intros [H|H]; [discriminate H|exact H]]).
  assert (length t2 = length t1 + 1)%nat as Hl2 by (apply length_app).
  replace (Z.of_nat cap - 1 - Z.of_nat (length t1) - 1)
    with (Z.of_nat cap - 1 - Z.of_nat (length t2)) by lia.
  rewrite Hcount, Nat2Z.id.
  assert (length t2 + length (concat (map (cons x2f) (elems (path ep)))) < cap)%nat
    as Hf2 by lia.
  pose proof (_build_path_loop_holds ep (elems (path ep)) [] t2 eq_refl Hsegs Hn2 Hf2)
    as Hpl.
  change (Z.of_nat (length (@nil (list byte)))) with 0 in Hpl.
  rewrite Hpl. clear Hpl.
  set (t3 := t2 ++ concat (map (cons x2f) (elems (path ep)))).
  assert (~ In x00 t3) as Hn3.
  { apply not_in_app; [assumption|].
    clear - Hsegs. induction Hsegs as [|s segs Hs _ IH]; cbn [map concat]; [intros H; exact H|].
    apply not_in_app; [|exact IH].
    cbn [In]. intros [H|H]; [discriminate H|exact (Hs H)]. }
  assert (length t3 = length t2 + length (concat (map (cons x2f) (elems (path ep)))))%nat
    as Hl3 by (apply length_app).
  rewrite (strncat_holds t3 [x3e; x3b]) by (assumption || (cbn [length]; lia)).
  rewrite int_of_in_range by lia.
  set (t4 := t3 ++ [x3e; x3b]).
  assert (~ In x00 t4) as Hn4
    by (apply not_in_app; [assumption|cbn [In]; intros [H|[H|H]]; try discriminate H; exact H]).
  assert (length t4 = length t3 + 2)%nat as Hl4 by (apply length_app).
  replace (Z.of_nat cap - (Z.of_nat cap - 1 - Z.of_nat (length t3) - 2) - 1)
    with (Z.of_nat (length t4)) by lia.
  rewrite size_t_in_range by lia.
  rewrite (store_at_end t4 ([x63; x74; x3d] ++ decimal (ct ep)))
    by (rewrite length_app; cbn [length]; lia).
  unfold strlen. rewrite int_of_in_range by (rewrite length_app; cbn [length]; lia).
  set (t5 := t4 ++ [x63; x74; x3d] ++ decimal (ct ep)).
  assert (t5 = text ++ comma ++ endpoint_link ep) as Ht5.
  { subst t5 t4 t3 t2 t1. unfold endpoint_link. rewrite <- !app_assoc. reflexivity. }
  replace (Z.of_nat cap - 1 - Z.of_nat (length t3) - 2
           - Z.of_nat (length ([x63; x74; x3d] ++ decimal (ct ep))))
    with (Z.of_nat cap - 1 - Z.of_nat (length t5))
    by (subst t5; rewrite !length_app; cbn [length]; lia).
  rewrite Ht5. apply IH.
  - exact Hrest.
  - apply not_in_app; [exact Hnul|]. apply not_in_app; [exact Hcomma|].
    apply endpoint_link_no_nul. split; assumption.
  - exact Hfit.
Qed.

(** X18: on a buffer with room for the whole text and its terminating NUL,
    [coap_build_endpoints] succeeds and leaves in the buffer the link
    format text of the table, followed by NULs up to the end of the
    buffer; nothing outside the buffer is written. *)
Theorem coap_build_endpoints_link_format endpoints region :
  length region = cap ->
  (4 <= cap)%nat ->
  Forall path_ok endpoints ->
  let text := link_format COAP_CONTENTTYPE_NONE endpoints [] in
  (length text < cap)%nat ->
  coap_build_endpoints COAP_CONTENTTYPE_NONE INT_MAX SIZE_MAX endpoints
                       (pre ++ region ++ post) (Z.of_nat (length pre)) (Z.of_nat cap)
  = Some (COAP_SUCCESS, pre ++ text ++ repeat x00 (cap - length text) ++ post).
Proof.
  intros Hreg Hcap Hpaths text Hfit. unfold coap_build_endpoints.
  replace (Z.of_nat cap <? 4) with false by (symmetry; apply Z.ltb_ge; lia).
  rewrite Nat2Z.id.
  rewrite (store_bytes_prefix pre (region ++ post) _ (repeat x00 cap) eq_refl)
    by (rewrite length_app, repeat_length; lia).
  rewrite int_of_in_range by lia.
  rewrite repeat_length, <- Hreg.
  rewrite <- (Nat.add_0_r (length region)) at 2. rewrite skipn_app_length.
  cbn [skipn]. rewrite Hreg.
  pose proof (_build_endpoints_loop_holds endpoints [] Hpaths (fun H => H)) as Hloop.
  unfold buffer_holds in Hloop. cbn [app length] in Hloop.
  rewrite Nat.sub_0_r, Z.sub_0_r in Hloop.
  rewrite <- app_assoc. apply Hloop. exact Hfit.
Qed.

End Discovery.

Lemma store_bytes_none mem a bs :
  Z.of_nat (length mem) < a + Z.of_nat (length bs) -> store_bytes mem a bs = None.
Proof.
  intros H. unfold store_bytes.
  replace (Z.of_nat (length mem) <? a + Z.of_nat (length bs)) with true
    by (symmetry; apply Z.ltb_lt; exact H).
  rewrite orb_true_r. reflexivity.
Qed.

Lemma not_in_firstn (b : byte) k l : ~ In b l -> ~ In b (firstn k l).
Proof.
  intros H Hin. apply H. rewrite <- (firstn_skipn k l). apply in_or_app. left. exact Hin.
Qed.

Lemma concat_slash_no_nul segs :
  Forall (fun s => ~ In x00 s) segs -> ~ In x00 (concat (map (cons x2f) segs)).
Proof.
  induction 1 as [|s segs Hs _ IH]; cbn [map concat]; [intros H; exact H|].
  apply not_in_app; [|exact IH].
  cbn [In]. intros [H|H]; [discriminate H|exact (Hs H)].
Qed.

Lemma some_pair_inj {A B : Type} (a c : A) (b d : B) :
  Some (a, b) = Some (c, d) -> a = c /\ b = d.
Proof. intros H. split; congruence. Qed.

Section DiscoveryOverrun.

Variable COAP_CONTENTTYPE_NONE : Z.
Variable INT_MAX : Z.
Variable SIZE_MAX : Z.

Variable pre : list byte.
Variable cap : nat.

Hypothesis Hcap : (4 <= cap)%nat.
Hypothesis Hint : Z.of_nat cap - 1 <= INT_MAX.
Hypothesis Hsize : 2 * INT_MAX + 1 <= SIZE_MAX.

Lemma int_max_le_size_max : INT_MAX <= SIZE_MAX.
Proof. lia. Qed.

Local Notation "'cut'" := (buffer_cut pre cap).

Lemma length_cut full : length (cut full) = (length pre + cap)%nat.
Proof.
  unfold buffer_cut, buffer_holds. rewrite !length_app, repeat_length, length_firstn. cbn [length]. lia.
Qed.

Lemma cut_fits full : (length full < cap)%nat -> cut full = buffer_holds pre [] cap full.
Proof. intros H. unfold buffer_cut. rewrite firstn_all2 by lia. reflexivity. Qed.

Lemma int_of_some z z' :
  int_of INT_MAX z = Some z' -> z' = z /\ - INT_MAX - 1 <= z <= INT_MAX.
Proof.
  unfold int_of.
  destruct ((- INT_MAX - 1 <=? z) && (z <=? INT_MAX)) eqn:E; [|discriminate].
  apply andb_true_iff in E. intros [= <-]. lia.
Qed.

Lemma strlen_at_cut full :
  ~ In x00 full ->
  strlen_at (cut full) (Z.of_nat (length pre))
  = Some (Z.of_nat (length (firstn (cap - 1) full))).
Proof.
  intros Hnul. unfold buffer_cut. apply strlen_at_holds.
  - apply not_in_firstn. exact Hnul.
  - rewrite length_firstn. lia.
Qed.

Lemma strncat_cut full s len_ m :
  ~ In x00 full ->
  len_ = Z.of_nat cap - 1 - Z.of_nat (length full) ->
  - INT_MAX - 1 <= len_ ->
  strncat (cut full) (Z.of_nat (length pre)) s (size_t SIZE_MAX len_) = Some m ->
  m = cut (full ++ s).
Proof.
  intros Hnul Hlen Hmin H. unfold strncat in H.
  rewrite (strlen_at_cut full Hnul) in H.
  destruct (Z.lt_ge_cases len_ 0) as [Hneg|Hpos].
  - assert (length (firstn (cap - 1) full) = (cap - 1)%nat) as Hl
      by (rewrite length_firstn; lia).
    assert (1 <= size_t SIZE_MAX len_) as Hk.
    { unfold size_t.
      rewrite <- (Z.mod_add len_ 1 (SIZE_MAX + 1)) by lia.
      rewrite Z.mod_small by lia. lia. }
    destruct s as [|b s'].
    + rewrite firstn_nil in H. cbn [app] in H. unfold buffer_cut in H.
      rewrite (store_at_end pre [] cap _ []) in H by (cbn [length]; lia).
      injection H as <-. unfold buffer_cut. rewrite !app_nil_r. reflexivity.
    + rewrite store_bytes_none in H; [discriminate|].
      rewrite (length_cut full), Hl.
      destruct (Z.to_nat (size_t SIZE_MAX len_)) eqn:Ek; [lia|].
      cbn [firstn app length]. rewrite length_app. cbn [length]. lia.
  - rewrite (size_t_in_range INT_MAX SIZE_MAX cap Hint int_max_le_size_max) in H by lia.
    rewrite (cut_fits full) in H by lia.
    rewrite (firstn_all2 full) in H by lia.
    rewrite (store_at_end pre [] cap) in H
      by (rewrite length_firstn; lia).
    injection H as <-. unfold buffer_cut. f_equal.
    rewrite firstn_app, (firstn_all2 full) by lia. do 2 f_equal. lia.
Qed.

Lemma sprintf_cut full text len_ m :
  len_ = Z.of_nat cap - 1 - Z.of_nat (length full) ->
  - INT_MAX - 1 <= len_ ->
  store_bytes (cut full)
              (Z.of_nat (length pre) + size_t SIZE_MAX (Z.of_nat cap - len_ - 1))
              (text ++ [x00]) = Some m ->
  (length full + length text < cap)%nat /\ m = cut (full ++ text).
Proof.
  intros Hlen Hmin H.
  replace (Z.of_nat cap - len_ - 1) with (Z.of_nat (length full)) in H by lia.
  unfold size_t in H. rewrite Z.mod_small in H by lia.
  destruct (Nat.lt_ge_cases (length full + length text) cap) as [Hfit|Hover].
  - split; [exact Hfit|].
    rewrite cut_fits in H by lia.
    rewrite (store_at_end pre [] cap) in H by lia.
    injection H as <-. rewrite cut_fits by (rewrite length_app; lia). reflexivity.
  - rewrite store_bytes_none in H; [discriminate|].
    rewrite length_cut, length_app. cbn [length]. lia.
Qed.

Lemma _build_path_loop_cut ep segs :
  forall done full len_ m len',
    elems (path ep) = done ++ segs ->
    Forall (fun s => ~ In x00 s) segs ->
    ~ In x00 full ->
    len_ = Z.of_nat cap - 1 - Z.of_nat (length full) ->
    - INT_MAX - 1 <= len_ ->
    _build_path_loop INT_MAX SIZE_MAX (length segs) (cut full)
                     (Z.of_nat (length pre)) ep (Z.of_nat (length done)) len_
    = Some (m, len') ->
    m = cut (full ++ concat (map (cons x2f) segs)) /\
    len' = Z.of_nat cap - 1
           - Z.of_nat (length (full ++ concat (map (cons x2f) segs))) /\
    - INT_MAX - 1 <= len'.
Proof.
  induction segs as [|s segs IH]; intros done full len_ m len' Hel Hsegs Hnul Hlen Hmin H.
  - cbn [length _build_path_loop map concat] in H |- *.
    apply some_pair_inj in H. destruct H as [<- <-].
    rewrite app_nil_r. auto.
  - cbn [length _build_path_loop map concat] in H |- *.
    inversion Hsegs as [|s' segs' Hs Hrest]; subst s' segs'.
    destruct (strncat (cut full) _ [x2f] _) as [m1|] eqn:H1; [|discriminate].
    apply (strncat_cut full [x2f] len_ m1 Hnul Hlen Hmin) in H1. subst m1.
    destruct (int_of INT_MAX (len_ - 1)) as [len1|] eqn:Hi1; [|discriminate].
    apply int_of_some in Hi1. destruct Hi1 as [-> Hr1].
    rewrite Nat2Z.id, Hel, nth_error_app2, Nat.sub_diag in H by lia.
    cbn [nth_error] in H.
    assert (~ In x00 (full ++ [x2f])) as Hn1
      by (apply not_in_app; [exact Hnul|cbn [In]; intros [E|E]; [discriminate E|exact E]]).
    destruct (strncat (cut (full ++ [x2f])) _ s _) as [m2|] eqn:H2; [|discriminate].
    apply (strncat_cut (full ++ [x2f]) s (len_ - 1) m2 Hn1) in H2;
      [ |rewrite length_app; cbn [length]; lia|lia].
    subst m2.
    destruct (int_of INT_MAX (len_ - 1 - strlen s)) as [len2|] eqn:Hi2; [|discriminate].
    apply int_of_some in Hi2. destruct Hi2 as [-> Hr2]. unfold strlen in *.
    replace (Z.of_nat (length done) + 1) with (Z.of_nat (length (done ++ [s]))) in H
      by (rewrite length_app; cbn [length]; lia).
    apply (IH (done ++ [s])) in H.
    + assert (((full ++ [x2f]) ++ s) ++ concat (map (cons x2f) segs)
              = full ++ (x2f :: s) ++ concat (map (cons x2f) segs)) as E
        by (rewrite <- !app_assoc; reflexivity).
      rewrite E in H. exact H.
    + rewrite <- app_assoc. exact Hel.
    + exact Hrest.
    + apply not_in_app; [exact Hn1|exact Hs].
    + rewrite !length_app. cbn [length]. lia.
    + lia.
Qed.

Lemma _build_endpoints_loop_cut endpoints :
  forall full rc m,
    Forall path_ok endpoints ->
    ~ In x00 full ->
    (length full < cap)%nat ->
    _build_endpoints_loop COAP_CONTENTTYPE_NONE INT_MAX SIZE_MAX endpoints (cut full)
                          (Z.of_nat (length pre)) (Z.of_nat cap)
                          (Z.of_nat cap - 1 - Z.of_nat (length full))
    = Some (rc, m) ->
    rc = COAP_SUCCESS /\
    (length (link_format COAP_CONTENTTYPE_NONE endpoints full) < cap)%nat.
Proof.
  induction endpoints as [|ep rest IH]; intros full rc m Hpaths Hnul Hfit H;
    cbn [_build_endpoints_loop link_format] in H |- *.
  { injection H as <- _. auto. }
  destruct (handler ep) as [h|]; [|injection H as <- _; auto].
  inversion Hpaths as [|ep' rest' Hep Hrest]; subst.
  replace (0 >? Z.of_nat cap - 1 - Z.of_nat (length full)) with false in H by lia.
  destruct (ct ep =? COAP_CONTENTTYPE_NONE) eqn:Hct; [apply (IH full rc m); assumption|].
  set (comma := match full with [] => [] | _ :: _ => [x2c] end) in *.
  rewrite (strlen_at_cut full Hnul) in H.
  rewrite (firstn_all2 full) in H by lia.
  match type of H with
  | (match ?e with Some _ => _ | None => None end) = _ =>
    destruct e as [[m1 len1]|] eqn:H1; [|discriminate]
  end.
  assert (m1 = cut (full ++ comma) /\
          len1 = Z.of_nat cap - 1 - Z.of_nat (length (full ++ comma)) /\
          - INT_MAX - 1 <= len1) as (-> & Hl1 & Hr1).
  { destruct full as [|b full'].
    - cbn [length] in H1. apply some_pair_inj in H1. destruct H1 as [<- <-].
      unfold comma. rewrite app_nil_r. cbn [length]. repeat split; try reflexivity; lia.
    - replace (0 <? Z.of_nat (length (b :: full'))) with true in H1
        by (symmetry; apply Z.ltb_lt; cbn [length]; lia).
      destruct (strncat (cut (b :: full')) _ [x2c] _) as [m0|] eqn:H0; [|discriminate].
      apply (strncat_cut (b :: full') [x2c] _ m0 Hnul eq_refl) in H0; [|lia].
      destruct (int_of INT_MAX _) as [l|] eqn:Hi in H1; [|discriminate].
      apply int_of_some in Hi. destruct Hi as [-> Hr].
      apply some_pair_inj in H1. destruct H1 as [<- <-].
      subst m0. unfold comma. rewrite length_app.
      cbn [length] in *. repeat split; try reflexivity; lia. }
  assert (~ In x00 comma) as Hcomma
    by (subst comma; destruct full; cbn [In]; [tauto|intros [E|E]; [discriminate E|exact E]]).
  destruct Hep as [Hcount Hsegs].
  set (t1 := full ++ comma) in *.
  assert (~ In x00 t1) as Hn1 by (apply not_in_app; assumption).
  destruct (strncat (cut t1) _ [x3c] _) as [m2|] eqn:H2; [|discriminate].
  apply (strncat_cut t1 [x3c] len1 m2 Hn1 Hl1 Hr1) in H2. subst m2.
  destruct (int_of INT_MAX (len1 - 1)) as [len2|] eqn:Hi2; [|discriminate].
  apply int_of_some in Hi2. destruct Hi2 as [-> Hr2].
  set (t2 := t1 ++ [x3c]) in *.
  assert (~ In x00 t2) as Hn2
    by (apply not_in_app; [assumption|cbn [In]; intros [E|E]; [discriminate E|exact E]]).
  assert (length t2 = length t1 + 1)%nat as Hlt2 by (apply length_app).
  rewrite Hcount, Nat2Z.id in H.
  destruct (_build_path_loop INT_MAX SIZE_MAX _ (cut t2) _ ep 0 _)
    as [[m3 len3]|] eqn:H3; [|discriminate].
  change 0 with (Z.of_nat (length (@nil (list byte)))) in H3.
  apply (_build_path_loop_cut ep (elems (path ep)) [] t2 _ m3 len3 eq_refl Hsegs Hn2)
    in H3; [ |lia|lia].
  destruct H3 as (-> & Hl3 & Hr3).
  set (t3 := t2 ++ concat (map (cons x2f) (elems (path ep)))) in *.
  assert (~ In x00 t3) as Hn3
    by (apply not_in_app; [assumption|apply concat_slash_no_nul; exact Hsegs]).
  destruct (strncat (cut t3) _ [x3e; x3b] _) as [m4|] eqn:H4; [|discriminate].
  apply (strncat_cut t3 [x3e; x3b] len3 m4 Hn3 Hl3 Hr3) in H4. subst m4.
  destruct (int_of INT_MAX (len3 - 2)) as [len4|] eqn:Hi4; [|discriminate].
  apply int_of_some in Hi4. destruct Hi4 as [-> Hr4].
  set (t4 := t3 ++ [x3e; x3b]) in *.
  assert (length t4 = length t3 + 2)%nat as Hlt4 by (apply length_app).
  destruct (store_bytes (cut t4) _ _) as [m5|] eqn:H5; [|discriminate].
  apply (sprintf_cut t4 _ (len3 - 2) m5) in H5; [ |lia|lia].
  destruct H5 as (Hfit5 & ->).
  destruct (int_of INT_MAX _) as [len5|] eqn:Hi5 in H; [|discriminate].
  apply int_of_some in Hi5. destruct Hi5 as [-> Hr5]. unfold strlen in *.
  set (t5 := t4 ++ [x63; x74; x3d] ++ decimal (ct ep)) in *.
  assert (t5 = full ++ comma ++ endpoint_link ep) as Ht5.
  { subst t5 t4 t3 t2 t1. unfold endpoint_link. rewrite <- !app_assoc. reflexivity. }
  assert (length t5 = length t4 + length ([x63; x74; x3d] ++ decimal (ct ep)))%nat
    as Hlt5 by (apply length_app).
  replace (len3 - 2 - Z.of_nat (length ([x63; x74; x3d] ++ decimal (ct ep))))
    with (Z.of_nat cap - 1 - Z.of_nat (length t5)) in H by lia.
  rewrite Ht5 in H. apply (IH _ rc m); try assumption.
  - rewrite <- Ht5. subst t5. apply not_in_app.
    + subst t4. apply not_in_app; [assumption|].
      cbn [In]. intros [E|[E|E]]; try discriminate E; exact E.
    + apply not_in_app; [|apply decimal_no_nul].
      cbn [In]. intros [E|[E|[E|E]]]; try discriminate E; exact E.
  - rewrite <- Ht5. lia.
Qed.

(** X19: when the buffer is the last object of the memory, so that a write
    past its end is a fault, [coap_build_endpoints] on a buffer of four
    bytes or more returns only if the whole text and its NUL fit, and
    then with success: the test [0 > len] of the loop is reached with a
    negative [len] only after a write past the end of the buffer. *)
Theorem coap_build_endpoints_returns_only_if_fits endpoints region rc m :
  length region = cap ->
  Forall path_ok endpoints ->
  coap_build_endpoints COAP_CONTENTTYPE_NONE INT_MAX SIZE_MAX endpoints
                       (pre ++ region) (Z.of_nat (length pre)) (Z.of_nat cap)
  = Some (rc, m) ->
  rc = COAP_SUCCESS /\
  (length (link_format COAP_CONTENTTYPE_NONE endpoints []) < cap)%nat.
Proof.
  intros Hreg Hpaths H. unfold coap_build_endpoints in H.
  replace (Z.of_nat cap <? 4) with false in H by (symmetry; apply Z.ltb_ge; lia).
  rewrite Nat2Z.id in H.
  rewrite (store_bytes_prefix pre region _ (repeat x00 cap) eq_refl) in H
    by (rewrite repeat_length; lia).
  rewrite (int_of_in_range INT_MAX cap Hint) in H by lia.
  rewrite repeat_length, skipn_all2 in H by lia.
  apply (_build_endpoints_loop_cut endpoints [] rc m Hpaths (fun E => E)).
  - cbn [length]. lia.
  - unfold buffer_cut, buffer_holds. cbn [firstn length app].
    rewrite firstn_nil. cbn [app length]. rewrite Nat.sub_0_r, Z.sub_0_r.
    rewrite <- app_assoc in H. exact H.
Qed.

End DiscoveryOverrun.

(** ** Requests without a path *)

Section PathlessRequests.

Variable OPTNUM_MOD : Z.
Variable COAP_CONTENTTYPE_NONE : Z.
Variable int_of_error : coap_error_t -> Z.

(** X20: for a request that carries no URI-Path option the endpoint
    table is not consulted: whatever the table holds, no handler runs
    and [coap_handle_request] answers with the response
    [coap_make_response] fills in for 4.04, and returns
    [COAP_SUCCESS]. *)
Theorem coap_handle_request_without_path endpoints mem scratch inpkt outpkt :
  (forall i, 0 <= i < numopts inpkt -> num (opts inpkt i) <> COAP_OPTION_URI_PATH) ->
  coap_handle_request OPTNUM_MOD COAP_CONTENTTYPE_NONE int_of_error
                      endpoints mem scratch inpkt outpkt
  = do r <- coap_make_response OPTNUM_MOD mem scratch outpkt None 0 (id (hdr inpkt))
                               (Some (tok inpkt)) COAP_RSPCODE_NOT_FOUND
                               COAP_CONTENTTYPE_NONE;
    Some (int_of_error COAP_SUCCESS, snd (fst r), scratch, snd r).
Proof.
  intros Habs. unfold coap_handle_request, _find_options.
  destruct (_find_options_loop_search inpkt COAP_OPTION_URI_PATH
              (Z.to_nat (numopts inpkt)) 0)
    as [(Hr & _)|(f & k & _ & Hf & Hk & Hfit & _ & Hall & _)].
  - rewrite Hr.
    destruct (coap_make_response OPTNUM_MOD mem scratch outpkt None 0 (id (hdr inpkt))
                (Some (tok inpkt)) COAP_RSPCODE_NOT_FOUND COAP_CONTENTTYPE_NONE)
      as [[[rc mem'] outpkt']|]; reflexivity.
  - exfalso. apply (Habs f); [lia|]. apply Hall. lia.
Qed.

End PathlessRequests.

(** ** The properties on the test vectors *)

Lemma coap_build_enough_room_witness :
  coap_build LittleEndian sample_source (repeat x00 16) 0 16 sample_packet
  = Some (COAP_SUCCESS, sample_datagram ++ repeat x00 5, 11).
Proof.
  apply (coap_build_enough_room 16 (2 ^ 16) LittleEndian sample_source (repeat x00 16)
           16 sample_packet [xab] [(11, [x61]); (11, [x62])] [x5a]).
  - exact sample_packet_encodable.
  - reflexivity.
  - cbn [resolves]. repeat split; reflexivity.
  - reflexivity.
  - reflexivity.
  - vm_compute. discriminate.
  - vm_compute. lia.
Defined.

Lemma coap_build_payload_fits_witness : 11 <= 16.
Proof.
  apply (coap_build_payload_fits LittleEndian sample_source (repeat x00 16) 0 16
           sample_packet (sample_datagram ++ repeat x00 5) 11).
  - vm_compute. reflexivity.
  - vm_compute. reflexivity.
Defined.

Lemma _build_options_loop_long_value_witness :
  exists hb v tl',
    [x40; x01; x01; x00] ++ [xbe; x01; x00] ++ repeat x41 269 ++ repeat x00 324
    = ([x40; x01; x01; x00] ++ hb :: nibble_extension 11
         ++ [byte_of_Z (Z.shiftr 269 8); byte_of_Z (Z.land 255 (269 - 269))] ++ v) ++ tl' /\
    view_bytes (repeat x41 269) (buf (opts long_option_packet 0)) = Some v /\
    u8 (byte_of_Z (Z.shiftr 269 8)) <> uint8 (Z.shiftr (269 - 269) 8) /\
    uint16 (Z.lor (Z.shiftl (u8 (byte_of_Z (Z.shiftr 269 8))) 8)
                  (u8 (byte_of_Z (Z.land 255 (269 - 269)))) + 269) <> 269.
Proof.
  apply (_build_options_loop_long_value (repeat x41 269) long_option_packet 600 0 0
           [x40; x01; x01; x00] (repeat x00 596)
           ([x40; x01; x01; x00] ++ [xbe; x01; x00] ++ repeat x41 269 ++ repeat x00 324)
           276).
  - vm_compute. split; discriminate.
  - vm_compute. split; discriminate.
  - vm_compute. reflexivity.
Defined.




Lemma coap_parse_no_stale_data_witness :
  exists r2,
    coap_parse 16 (2 ^ 16) LittleEndian sample_datagram stale_packet 0 11
      = Some (COAP_SUCCESS, r2) /\
    hdr r2 = hdr sample_parsed /\ tok r2 = tok sample_parsed /\
    numopts r2 = numopts sample_parsed /\ payload r2 = payload sample_parsed /\
    forall i, 0 <= i < numopts sample_parsed -> opts r2 i = opts sample_parsed i.
Proof.
  apply (coap_parse_no_stale_data 16 (2 ^ 16) LittleEndian sample_datagram 0 11
           blank_packet stale_packet sample_parsed).
  vm_compute. reflexivity.
Defined.

Lemma coap_parse_option_error_numopts_witness :
  numopts reserved_delta_parsed = 16.
Proof.
  apply (coap_parse_option_error_numopts 16 (2 ^ 16) LittleEndian reserved_delta 0 5
           blank_packet COAP_ERR_OPTION_DELTA_INVALID reserved_delta_parsed).
  - vm_compute. reflexivity.
  - right. left. reflexivity.
Defined.

Lemma _find_options_absent_witness :
  _find_options sample_parsed COAP_OPTION_CONTENT_FORMAT = (None, 0).
Proof.
  apply (_find_options_absent sample_parsed COAP_OPTION_CONTENT_FORMAT).
  intros i Hi. change (numopts sample_parsed) with 2 in Hi.
  assert (i = 0 \/ i = 1) as [-> | ->] by lia; vm_compute; discriminate.
Defined.

Lemma _find_options_found_witness :
  exists k,
    2 = uint8 k /\ 1 <= k /\ 0 <= 0 /\ 0 + k <= numopts sample_parsed /\
    (forall j, 0 <= j < 0 -> num (opts sample_parsed j) < COAP_OPTION_URI_PATH) /\
    (forall j, 0 <= j < 0 + k -> num (opts sample_parsed j) = COAP_OPTION_URI_PATH) /\
    (0 + k < numopts sample_parsed ->
     num (opts sample_parsed (0 + k)) <> COAP_OPTION_URI_PATH).
Proof.
  apply (_find_options_found sample_parsed COAP_OPTION_URI_PATH 0 2).
  vm_compute. reflexivity.
Defined.

Lemma _find_options_sorted_witness :
  match _find_options sample_parsed COAP_OPTION_URI_PATH with
  | (Some f, c) =>
    exists k, c = uint8 k /\ 1 <= k /\
      forall i, 0 <= i < numopts sample_parsed ->
        (num (opts sample_parsed i) = COAP_OPTION_URI_PATH <-> f <= i < f + k)
  | (None, c) =>
    c = 0 /\
    forall i, 0 <= i < numopts sample_parsed ->
      num (opts sample_parsed i) <> COAP_OPTION_URI_PATH
  end.
Proof.
  apply (_find_options_sorted sample_parsed COAP_OPTION_URI_PATH).
  intros i j Hi Hj. change (numopts sample_parsed) with 2 in Hj.
  assert (i = 0 \/ i = 1) as [-> | ->] by lia;
    (assert (j = 0 \/ j = 1) as [-> | ->] by lia); vm_compute; discriminate.
Defined.

Lemma coap_make_response_content_format_witness :
  exists pkt',
    coap_make_response (2 ^ 16) get_a {| p := Some 6; len := 2 |} blank_packet
                       (Some 5) 1 9 (Some null_view) 0x45 40
    = Some (COAP_SUCCESS, [x40; x01; x00; x09; xb1; x61; x00; x28], pkt') /\
    hdr pkt' = {| ver := 1; t := COAP_TYPE_ACK; tkl := 0; code := 0x45; id := 9 |} /\
    tok pkt' = null_view /\
    numopts pkt' = 1 /\
    opts pkt' 0 = {| num := 12; buf := {| p := Some 6; len := 2 |} |} /\
    view_bytes [x40; x01; x00; x09; xb1; x61; x00; x28] (buf (opts pkt' 0))
      = Some [x00; x28] /\
    256 * u8 x00 + u8 x28 = 40 /\
    payload pkt' = {| p := Some 5; len := 1 |}.
Proof.
  apply (coap_make_response_content_format (2 ^ 16) get_a {| p := Some 6; len := 2 |}
           blank_packet (Some 5) 1 9 (Some null_view) 0x45 40 6).
  - reflexivity.
  - vm_compute. discriminate.
  - lia.
  - vm_compute. discriminate.
Defined.

Lemma coap_make_response_small_scratch_witness :
  exists pkt',
    coap_make_response (2 ^ 16) get_a {| p := Some 6; len := 1 |} stale_packet
                       None 0 9 (Some null_view) 0x84 (-1)
    = Some (COAP_ERR_BUFFER_TOO_SMALL, get_a, pkt') /\
    hdr pkt' = {| ver := 1; t := COAP_TYPE_ACK; tkl := 0; code := 0x84; id := 9 |} /\
    tok pkt' = null_view /\
    numopts pkt' = 1 /\
    opts pkt' 0 = {| num := 12; buf := {| p := Some 6; len := 0 |} |} /\
    payload pkt' = {| p := Some 0; len := 4 |}.
Proof.
  apply (coap_make_response_small_scratch (2 ^ 16) get_a {| p := Some 6; len := 1 |}
           stale_packet None 0 9 (Some null_view) 0x84 (-1)).
  vm_compute. reflexivity.
Defined.

Lemma coap_build_of_make_response_witness :
  exists pkt',
    coap_make_response (2 ^ 16) get_a {| p := Some 6; len := 2 |} blank_packet
                       (Some 5) 1 9 (Some null_view) 0x45 40
    = Some (COAP_SUCCESS, [x40; x01; x00; x09; xb1; x61; x00; x28], pkt') /\
    coap_build LittleEndian [x40; x01; x00; x09; xb1; x61; x00; x28] (repeat x00 12)
               0 12 pkt'
    = Some (COAP_SUCCESS,
            [x60; x45; x09; x00; xc2; x00; x28; xff; x61] ++ repeat x00 3, 9).
Proof.
  apply (coap_build_of_make_response 16 (2 ^ 16) LittleEndian get_a
           {| p := Some 6; len := 2 |} blank_packet (Some 5) 1 9 null_view 0x45 40 6
           (repeat x00 12) 12 [] [x61]).
  - lia.
  - vm_compute. reflexivity.
  - reflexivity.
  - vm_compute. discriminate.
  - lia.
  - vm_compute. discriminate.
  - vm_compute. split; discriminate.
  - lia.
  - reflexivity.
  - reflexivity.
  - vm_compute. discriminate.
  - vm_compute. lia.
Defined.

Lemma discovery_table_paths : Forall path_ok discovery_table.
Proof.
  repeat constructor; cbn [In]; intros H;
    repeat (destruct H as [H|H]; try discriminate H); exact H.
Qed.

Lemma coap_build_endpoints_link_format_witness :
  coap_build_endpoints (-1) (2 ^ 31 - 1) (2 ^ 32 - 1) discovery_table
                       ([x41] ++ repeat x41 24 ++ [x42]) 1 24
  = Some (COAP_SUCCESS, [x41] ++ discovery_text ++ repeat x00 3 ++ [x42]).
Proof.
  apply (coap_build_endpoints_link_format (-1) (2 ^ 31 - 1) (2 ^ 32 - 1) [x41] [x42] 24
           ltac:(vm_compute; discriminate) ltac:(vm_compute; discriminate)
           discovery_table (repeat x41 24)).
  - reflexivity.
  - lia.
  - exact discovery_table_paths.
  - vm_compute. lia.
Defined.

Lemma coap_build_endpoints_returns_only_if_fits_witness :
  COAP_SUCCESS = COAP_SUCCESS /\
  (length (link_format (-1) discovery_table []) < 24)%nat.
Proof.
  apply (coap_build_endpoints_returns_only_if_fits (-1) (2 ^ 31 - 1) (2 ^ 32 - 1) [x41] 24
           ltac:(lia) ltac:(vm_compute; discriminate) ltac:(vm_compute; discriminate)
           discovery_table (repeat x41 24) COAP_SUCCESS
           ([x41] ++ discovery_text ++ repeat x00 3)).
  - reflexivity.
  - exact discovery_table_paths.
  - vm_compute. reflexivity.
Defined.

Lemma coap_handle_request_without_path_witness :
  coap_handle_request (2 ^ 16) (-1) status_values a_endpoints format_only
                      {| p := Some 6; len := 2 |} format_only_packet blank_packet
  = do r <- coap_make_response (2 ^ 16) format_only {| p := Some 6; len := 2 |}
                               blank_packet None 0 (id (hdr format_only_packet))
                               (Some (tok format_only_packet)) COAP_RSPCODE_NOT_FOUND (-1);
    Some (status_values COAP_SUCCESS, snd (fst r), {| p := Some 6; len := 2 |}, snd r).
Proof.
  apply (coap_handle_request_without_path (2 ^ 16) (-1) status_values a_endpoints
           format_only {| p := Some 6; len := 2 |} format_only_packet blank_packet).
  intros i Hi. change (numopts format_only_packet) with 1 in Hi.
  assert (i = 0) as -> by lia. vm_compute. discriminate.
Defined.
